(** * Notesnook: menu widget, HTML newline normalisation, share-extension store

  A shallow embedding of
  - [convertNewlinesToBr], [splitOn] and the loop body of
    [convertBrToParagraph] (packages/editor/src/utils/html.ts),
  - the [Menu] component (same file, second document): its action path,
    its pointer handlers, the hover timer, the submenu render condition
    and the positioning effect,
  - [useShareStore] (apps/web/src/dialogs/theme-details-dialog.tsx,
    second document): [setAppendNote], [restore], the two other
    setters and the theme the store starts with,
  - the topic chips of [Notebook] (apps/web/src/components/notebook) and
    the page selection of [ThemesList]
    (apps/web/src/dialogs/settings/components/themes-selector.tsx).

  JavaScript strings are sequences of UTF-16 code units, modelled as
  [list N]; arrays indexed by a possibly negative number are read with
  [at_index], which yields [None] where JavaScript yields [undefined].

  The hook [useFocus], the component [MenuButton], the declaration of
  [MenuItem] and the storage [MMKV] are not among the sources; what is
  modelled of them follows the specification, and says so. *)

From Stdlib Require Import ZArith NArith List Bool Lia String Ascii.
From stdpp Require Import base list strings gmap.
Import ListNotations.

Set Implicit Arguments.
Local Open Scope nat_scope.

(* ===================================================================== *)
(** ** JavaScript strings                                                *)
(* ===================================================================== *)

Module Js.

(** A string is the list of its UTF-16 code units. *)
Definition JsString : Type := list N.

(** An ASCII literal of the source, as code units. *)
Definition lit (s : string) : JsString :=
  map N_of_ascii (list_ascii_of_string s).

Definition LF : N := 10%N.

(** [WhiteSpace] and [LineTerminator] code points of ECMAScript, the set
    that [String.prototype.trim] strips. *)
Definition isWhiteSpace (c : N) : bool :=
  (N.eqb c 9 || N.eqb c 10 || N.eqb c 11 || N.eqb c 12 || N.eqb c 13
   || N.eqb c 32 || N.eqb c 160 || N.eqb c 5760
   || (N.leb 8192 c && N.leb c 8202)
   || N.eqb c 8232 || N.eqb c 8233 || N.eqb c 8239 || N.eqb c 8287
   || N.eqb c 12288 || N.eqb c 65279)%N.

Fixpoint trimStart (s : JsString) : JsString :=
  match s with
  | [] => []
  | c :: s' => if isWhiteSpace c then trimStart s' else s
  end.

Definition trimEnd (s : JsString) : JsString := rev (trimStart (rev s)).

(** [s.trim()] *)
Definition trim (s : JsString) : JsString := trimEnd (trimStart s).

Fixpoint startsWith (s pat : JsString) {struct pat} : bool :=
  match pat, s with
  | [], _ => true
  | p :: pat', c :: s' => N.eqb p c && startsWith s' pat'
  | _ :: _, [] => false
  end.

(** [s.endsWith(pat)] *)
Definition endsWith (s pat : JsString) : bool :=
  startsWith (rev s) (rev pat).

(** [s.split(sep)] for a separator that matches exactly the one code unit
    [sep]; the result always has at least one element. *)
Fixpoint split (sep : N) (s : JsString) : list JsString :=
  match s with
  | [] => [[]]
  | c :: s' =>
      if N.eqb c sep then [] :: split sep s'
      else match split sep s' with
           | l :: ls => (c :: l) :: ls
           | [] => [[c]]
           end
  end.

(** [lines.join(sep)] *)
Fixpoint join (sep : JsString) (lines : list JsString) : JsString :=
  match lines with
  | [] => []
  | [l] => l
  | l :: ls => l ++ sep ++ join sep ls
  end.

(** What a call can throw. *)
Inductive Exn : Type :=
| SyntaxError
| TypeError
| Thrown (msg : string).

(** The completion of a call: a normal return or a thrown exception. *)
Inductive Outcome (A : Type) : Type :=
| Normal (a : A)
| Throw (e : Exn).
Arguments Normal {A} a.
Arguments Throw {A} e.

(** [a[i]] for a JavaScript number [i]: [undefined] out of range. *)
Definition at_index {A} (l : list A) (i : Z) : option A :=
  if (i <? 0)%Z then None else l !! Z.to_nat i.

End Js.

(* ===================================================================== *)
(** ** html.ts: [convertNewlinesToBr]                                    *)
(* ===================================================================== *)

Module Html.
Import Js.

Definition br : JsString := lit "<br>".
Definition gt : JsString := lit ">".

(** The body of the [for] loop at index [i]:
    [if (lines[i].trim().endsWith(">")) continue; lines[i] += "<br>";] *)
Definition loopBody (i : nat) (lines : list JsString) : list JsString :=
  match lines !! i with
  | None => lines
  | Some l =>
      if endsWith (trim l) gt then lines
      else <[i := l ++ br]> lines
  end.

(** [for (let i = ...; i < lines.length; ++i)], with [k] the number of
    iterations still to run. *)
Fixpoint forLoop (k i : nat) (lines : list JsString) : list JsString :=
  match k with
  | 0 => lines
  | S k' => forLoop k' (S i) (loopBody i lines)
  end.

Definition convertNewlinesToBr (html : JsString) : JsString :=
  let lines := split LF html in
  let lines := forLoop (length lines) 0 lines in
  join [] lines.

(** What the claim says happens to one line. *)
Definition brLine (l : JsString) : JsString :=
  if endsWith (trim l) gt then l else l ++ br.

(** The claim's reading of the whole function. *)
Definition convertNewlinesToBr_spec (html : JsString) : JsString :=
  concat (map brLine (split LF html)).

End Html.

(* ===================================================================== *)
(** ** JSON: the values, [JSON.stringify] and [JSON.parse]               *)
(* ===================================================================== *)

Module Json.
Import Js.

(** The values JSON texts denote.  A number is given by the text
    [Number::toString] prints for it, which is a JSON number literal for
    every finite number; an object is the list of its members, in the
    order written. *)
#[warnings="-register-all"]
Inductive Value : Type :=
| VNull
| VBool (b : bool)
| VNum (literal : JsString)
| VStr (s : JsString)
| VArr (elements : list Value)
| VObj (members : list (JsString * Value)).

(** *** Code units of the JSON grammar *)

Definition isDigit (c : N) : bool := (N.leb 48 c && N.leb c 57)%N.
Definition isExponentMark (c : N) : bool := (N.eqb c 101 || N.eqb c 69)%N.
Definition isSign (c : N) : bool := (N.eqb c 43 || N.eqb c 45)%N.
Definition isJsonSpace (c : N) : bool :=
  (N.eqb c 9 || N.eqb c 10 || N.eqb c 13 || N.eqb c 32)%N.
Definition isHighSurrogate (c : N) : bool := (N.leb 55296 c && N.leb c 56319)%N.
Definition isLowSurrogate (c : N) : bool := (N.leb 56320 c && N.leb c 57343)%N.

(** *** [JSON.stringify] *)

Definition hexDigit (d : N) : N :=
  if (d <? 10)%N then (48 + d)%N else (87 + d)%N.

(** [\uXXXX] with lower-case digits. *)
Definition unicodeEscape (c : N) : JsString :=
  [92; 117; hexDigit (c / 4096); hexDigit ((c / 256) mod 16);
   hexDigit ((c / 16) mod 16); hexDigit (c mod 16)]%N.

(** One code unit that is not a surrogate, as [QuoteJSONString] writes
    it. *)
Definition escapeUnit (c : N) : JsString :=
  if (c =? 8)%N then lit "\b"
  else if (c =? 9)%N then lit "\t"
  else if (c =? 10)%N then lit "\n"
  else if (c =? 12)%N then lit "\f"
  else if (c =? 13)%N then lit "\r"
  else if (c =? 34)%N then [92; 34]%N
  else if (c =? 92)%N then lit "\\"
  else if (c <? 32)%N then unicodeEscape c
  else [c].

(** The characters between the quotes: a surrogate pair is copied, a lone
    surrogate is escaped. *)
Fixpoint quoteChars (s : JsString) : JsString :=
  match s with
  | [] => []
  | c :: s' =>
      if isHighSurrogate c then
        match s' with
        | c2 :: s'' =>
            if isLowSurrogate c2 then c :: c2 :: quoteChars s''
            else unicodeEscape c ++ quoteChars s'
        | [] => unicodeEscape c
        end
      else if isLowSurrogate c then unicodeEscape c ++ quoteChars s'
      else escapeUnit c ++ quoteChars s'
  end.

(** [QuoteJSONString] *)
Definition quote (s : JsString) : JsString := [34%N] ++ quoteChars s ++ [34%N].

(** [JSON.stringify(value)] without indentation. *)
Fixpoint stringify (v : Value) : JsString :=
  match v with
  | VNull => lit "null"
  | VBool true => lit "true"
  | VBool false => lit "false"
  | VNum literal => literal
  | VStr s => quote s
  | VArr elements => lit "[" ++ join (lit ",") (map stringify elements) ++ lit "]"
  | VObj members =>
      lit "{"
      ++ join (lit ",")
           (map (fun m => quote (fst m) ++ lit ":" ++ stringify (snd m)) members)
      ++ lit "}"
  end.

(** *** [JSON.parse] *)

Fixpoint skipSpace (s : JsString) : JsString :=
  match s with
  | c :: s' => if isJsonSpace c then skipSpace s' else s
  | [] => []
  end.

Definition hexValue (c : N) : option N :=
  if isDigit c then Some (c - 48)%N
  else if (N.leb 97 c && N.leb c 102)%N then Some (c - 87)%N
  else if (N.leb 65 c && N.leb c 70)%N then Some (c - 55)%N
  else None.

Definition hex4 (h1 h2 h3 h4 : N) : option N :=
  match hexValue h1, hexValue h2, hexValue h3, hexValue h4 with
  | Some a, Some b, Some c, Some d => Some (((a * 16 + b) * 16 + c) * 16 + d)%N
  | _, _, _, _ => None
  end.

(** The character a one-letter escape stands for. *)
Definition unescape (e : N) : option N :=
  if (e =? 34)%N then Some 34%N
  else if (e =? 92)%N then Some 92%N
  else if (e =? 47)%N then Some 47%N
  else if (e =? 98)%N then Some 8%N
  else if (e =? 102)%N then Some 12%N
  else if (e =? 110)%N then Some 10%N
  else if (e =? 114)%N then Some 13%N
  else if (e =? 116)%N then Some 9%N
  else None.

Definition consFst {A} (c : N) (r : option (JsString * A)) : option (JsString * A) :=
  match r with
  | Some (s, x) => Some (c :: s, x)
  | None => None
  end.

(** The rest of a string after its opening quote: the characters up to
    the closing quote, and what follows it. *)
Fixpoint parseChars (s : JsString) : option (JsString * JsString) :=
  match s with
  | [] => None
  | c :: r =>
      if (c =? 34)%N then Some ([], r)
      else if (c =? 92)%N then
        match r with
        | [] => None
        | e :: r1 =>
            if (e =? 117)%N then
              match r1 with
              | h1 :: h2 :: h3 :: h4 :: r2 =>
                  match hex4 h1 h2 h3 h4 with
                  | Some u => consFst u (parseChars r2)
                  | None => None
                  end
              | _ => None
              end
            else
              match unescape e with
              | Some u => consFst u (parseChars r1)
              | None => None
              end
        end
      else if (c <? 32)%N then None
      else consFst c (parseChars r)
  end.

(** The longest run of digits at the front. *)
Fixpoint digits (s : JsString) : JsString * JsString :=
  match s with
  | c :: s' =>
      if isDigit c then let (d, r) := digits s' in (c :: d, r) else ([], s)
  | [] => ([], [])
  end.

(** [0], or a digit from 1 to 9 and more digits. *)
Definition scanInt (s : JsString) : option (JsString * JsString) :=
  match s with
  | c :: r =>
      if (c =? 48)%N then Some ([c], r)
      else if isDigit c then let (d, r') := digits r in Some (c :: d, r')
      else None
  | [] => None
  end.

(** An optional fraction: a point and at least one digit. *)
Definition scanFraction (s : JsString) : option (JsString * JsString) :=
  match s with
  | c :: r =>
      if (c =? 46)%N then
        match digits r with
        | ([], _) => None
        | (d, r') => Some (c :: d, r')
        end
      else Some ([], s)
  | [] => Some ([], [])
  end.

(** An optional exponent: [e] or [E], an optional sign, at least one
    digit. *)
Definition scanExponent (s : JsString) : option (JsString * JsString) :=
  match s with
  | c :: r =>
      if isExponentMark c then
        let (sign, r1) :=
          match r with
          | c2 :: r2 => if isSign c2 then ([c2], r2) else ([], r)
          | [] => ([], [])
          end in
        match digits r1 with
        | ([], _) => None
        | (d, r') => Some (c :: sign ++ d, r')
        end
      else Some ([], s)
  | [] => Some ([], [])
  end.

(** A number literal at the front, and what follows it. *)
Definition scanNumber (s : JsString) : option (JsString * JsString) :=
  let (minus, s1) :=
    match s with
    | c :: r => if (c =? 45)%N then ([c], r) else ([], s)
    | [] => ([], [])
    end in
  match scanInt s1 with
  | None => None
  | Some (i, s2) =>
      match scanFraction s2 with
      | None => None
      | Some (f, s3) =>
          match scanExponent s3 with
          | None => None
          | Some (e, s4) => Some (minus ++ i ++ f ++ e, s4)
          end
      end
  end.

(** The text is one number literal. *)
Definition isNumberLiteral (literal : JsString) : bool :=
  match scanNumber literal with
  | Some (_, []) => true
  | _ => false
  end.

(** The result of a parser that recurses on a bound: a value and the rest
    of the text, a syntax error, or the bound reached. *)
Inductive Parsed : Type :=
| Ok (v : Value) (rest : JsString)
| Bad
| Fuel.

(** Recursive descent over the JSON grammar.  [parseElements] reads the
    elements of an array after ["["], [parseMembers] the members of an
    object after ["{"]; both are entered only when the bracket is not
    closed at once. *)
Fixpoint parseValue (fuel : nat) (s : JsString) : Parsed :=
  match fuel with
  | 0 => Fuel
  | S fuel' =>
      match skipSpace s with
      | [] => Bad
      | c :: r =>
          if (c =? 123)%N then
            match skipSpace r with
            | c' :: r' =>
                if (c' =? 125)%N then Ok (VObj []) r'
                else parseMembers fuel' r []
            | [] => Bad
            end
          else if (c =? 91)%N then
            match skipSpace r with
            | c' :: r' =>
                if (c' =? 93)%N then Ok (VArr []) r'
                else parseElements fuel' r []
            | [] => Bad
            end
          else if (c =? 34)%N then
            match parseChars r with
            | Some (str, r') => Ok (VStr str) r'
            | None => Bad
            end
          else if startsWith (c :: r) (lit "true") then Ok (VBool true) (drop 4 (c :: r))
          else if startsWith (c :: r) (lit "false") then Ok (VBool false) (drop 5 (c :: r))
          else if startsWith (c :: r) (lit "null") then Ok VNull (drop 4 (c :: r))
          else
            match scanNumber (c :: r) with
            | Some (literal, r') => Ok (VNum literal) r'
            | None => Bad
            end
      end
  end
with parseElements (fuel : nat) (s : JsString) (acc : list Value) : Parsed :=
  match fuel with
  | 0 => Fuel
  | S fuel' =>
      match parseValue fuel' s with
      | Ok v r =>
          match skipSpace r with
          | c :: r' =>
              if (c =? 44)%N then parseElements fuel' r' (acc ++ [v])
              else if (c =? 93)%N then Ok (VArr (acc ++ [v])) r'
              else Bad
          | [] => Bad
          end
      | Bad => Bad
      | Fuel => Fuel
      end
  end
with parseMembers (fuel : nat) (s : JsString) (acc : list (JsString * Value)) : Parsed :=
  match fuel with
  | 0 => Fuel
  | S fuel' =>
      match skipSpace s with
      | c :: r =>
          if (c =? 34)%N then
            match parseChars r with
            | Some (k, r1) =>
                match skipSpace r1 with
                | c1 :: r2 =>
                    if (c1 =? 58)%N then
                      match parseValue fuel' r2 with
                      | Ok v r3 =>
                          match skipSpace r3 with
                          | c3 :: r4 =>
                              if (c3 =? 44)%N then parseMembers fuel' r4 (acc ++ [(k, v)])
                              else if (c3 =? 125)%N then Ok (VObj (acc ++ [(k, v)])) r4
                              else Bad
                          | [] => Bad
                          end
                      | Bad => Bad
                      | Fuel => Fuel
                      end
                    else Bad
                | [] => Bad
                end
            | None => Bad
            end
          else Bad
      | [] => Bad
      end
  end.

(** The bound [JSON_parse] gives the parser; it is never reached. *)
Definition parseFuel (text : JsString) : nat := 2 * length text + 2.

(** [JSON.parse(text)] for a string: one value, with nothing but space
    after it, or a [SyntaxError]. *)
Definition JSON_parse (text : JsString) : Outcome Value :=
  match parseValue (parseFuel text) text with
  | Ok v rest =>
      match skipSpace rest with
      | [] => Normal v
      | _ :: _ => Throw SyntaxError
      end
  | Bad => Throw SyntaxError
  | Fuel => Throw SyntaxError
  end.

(** Every number in the value is given by a number literal. *)
Fixpoint wellFormed (v : Value) : bool :=
  match v with
  | VNum literal => isNumberLiteral literal
  | VArr elements => forallb wellFormed elements
  | VObj members => forallb (fun m => wellFormed (snd m)) members
  | _ => true
  end.

(** *** Conversions of values *)

Definition hasOwn (name : JsString) (members : list (JsString * Value)) : bool :=
  existsb (fun m => bool_decide (fst m = name)) members.

(** [ToString] of an element inside [Array.prototype.join]: empty for
    [null]. *)
Fixpoint toString (v : Value) : Outcome JsString :=
  match v with
  | VNull => Normal (lit "null")
  | VBool true => Normal (lit "true")
  | VBool false => Normal (lit "false")
  | VNum literal => Normal literal
  | VStr s => Normal s
  | VArr elements =>
      (fix joined (l : list Value) : Outcome JsString :=
         match l with
         | [] => Normal []
         | x :: l' =>
             match (match x with VNull => Normal [] | _ => toString x end) with
             | Throw e => Throw e
             | Normal sx =>
                 match l' with
                 | [] => Normal sx
                 | _ :: _ =>
                     match joined l' with
                     | Throw e => Throw e
                     | Normal sl => Normal (sx ++ lit "," ++ sl)
                     end
                 end
             end
         end) elements
  | VObj members =>
      if hasOwn (lit "toString") members then Throw TypeError
      else Normal (lit "[object Object]")
  end.

(** A number literal that denotes zero: no digit other than [0] before
    the exponent. *)
Fixpoint mantissaIsZero (literal : JsString) : bool :=
  match literal with
  | [] => true
  | c :: r =>
      if isExponentMark c then true
      else if isDigit c && negb (c =? 48)%N then false
      else mantissaIsZero r
  end.

(** [ToBoolean] *)
Definition truthy (v : Value) : bool :=
  match v with
  | VNull => false
  | VBool b => b
  | VNum literal => negb (mantissaIsZero literal)
  | VStr s => match s with [] => false | _ => true end
  | VArr _ | VObj _ => true
  end.

(** [JSON.parse(x)] for any argument: the text parsed is [ToString(x)],
    with [None] for [undefined]. *)
Definition JSON_parse_any (x : option Value) : Outcome Value :=
  match x with
  | None => JSON_parse (lit "undefined")
  | Some v =>
      match toString v with
      | Normal text => JSON_parse text
      | Throw e => Throw e
      end
  end.

(** *** Measures and predicates on values and texts *)

(** What may follow a number without becoming part of it. *)
Definition endsNumber (rest : JsString) : bool :=
  match rest with
  | [] => true
  | c :: _ => negb (isDigit c || (c =? 46)%N || isExponentMark c)
  end.

Definition printMember (m : JsString * Value) : JsString :=
  quote (fst m) ++ [58%N] ++ stringify (snd m).

(** A bound on the depth of calls the parser needs for a value. *)
Fixpoint cost (v : Value) : nat :=
  match v with
  | VArr elements => S (list_sum (map (fun e => S (cost e)) elements))
  | VObj members => S (list_sum (map (fun m => S (cost (snd m))) members))
  | _ => 1
  end.

(** The first code unit of a printed value: no space, no closing
    bracket. *)
Definition opensValue (c : N) : Prop :=
  isJsonSpace c = false /\ c <> 93%N /\ c <> 125%N.

(** What parsing a printed value gives, for a value and all the text that
    may follow it. *)
Definition readsBack (v : Value) : Prop :=
  forall fuel rest,
    cost v <= fuel -> endsNumber rest = true ->
    parseValue fuel (stringify v ++ rest) = Ok v rest.

Unset Implicit Arguments.

Section ValueInduction.

Variable P : Value -> Prop.
Hypothesis Pnull : P VNull.
Hypothesis Pbool : forall b, P (VBool b).
Hypothesis Pnum : forall literal, P (VNum literal).
Hypothesis Pstr : forall s, P (VStr s).
Hypothesis Parr : forall elements, Forall P elements -> P (VArr elements).
Hypothesis Pobj :
  forall members, Forall (fun m => P (snd m)) members -> P (VObj members).

(** Induction over a value that reaches the elements of arrays and the
    members of objects. *)
Fixpoint Value_induction (v : Value) : P v :=
  match v with
  | VNull => Pnull
  | VBool b => Pbool b
  | VNum literal => Pnum literal
  | VStr s => Pstr s
  | VArr elements =>
      Parr elements
        ((fix each (l : list Value) : Forall P l :=
            match l with
            | [] => @List.Forall_nil _ P
            | x :: l' => @List.Forall_cons _ P x l' (Value_induction x) (each l')
            end) elements)
  | VObj members =>
      Pobj members
        ((fix each (l : list (JsString * Value)) : Forall (fun m => P (snd m)) l :=
            match l with
            | [] => @List.Forall_nil _ _
            | m :: l' =>
                @List.Forall_cons _ (fun m => P (snd m)) m l'
                  (Value_induction (snd m)) (each l')
            end) members)
  end.

End ValueInduction.

Set Implicit Arguments.

End Json.

(* ===================================================================== *)
(** ** The share-extension store                                         *)
(* ===================================================================== *)

Module ShareStore.
Import Js Json.

(** [StorageKeys] (lines 133-138). *)
Module StorageKeys.
Definition appendNote : string := "shareMenuAppendNote".
Definition selectedNotebooks : string := "shareMenuSelectedNotebooks".
Definition selectedTag : string := "shareMenuSelectedTag".
Definition appSettings : string := "appSettings".
End StorageKeys.

(** What [MMKV.getString] returns for a key that is not stored: [null]
    or [undefined]. *)
Inductive Absent : Type := AbsentNull | AbsentUndefined.

(** Modelled from the spec: [MMKV] of ../app/common/database/mmkv is not
    among the sources; section 1 names it platform key-value storage.  It
    maps keys to strings; what it returns for a key that is not stored is
    not said, and is taken as the parameter [absent] of the storage.
    [state] is the state of the store, an object that [set] merges its
    argument into. *)
Record Store : Type := mkStore {
  mmkv : gmap string JsString;
  state : gmap string Value;
  absent : Absent
}.

(** [MMKV.getString(key)]: the string stored, [None] for a missing key. *)
Definition getString (key : string) (st : Store) : option JsString :=
  mmkv st !! key.

(** What [MMKV.getString] has returned, as a value handed on: the string,
    or what the storage gives for a missing key; [None] is
    [undefined]. *)
Definition received (st : Store) (x : option JsString) : option Value :=
  match x with
  | Some s => Some (VStr s)
  | None =>
      match absent st with
      | AbsentNull => Some VNull
      | AbsentUndefined => None
      end
  end.

(** [MMKV.setItem(key, value)] *)
Definition setItem (key : string) (value : JsString) (st : Store) : Store :=
  mkStore (<[key := value]> (mmkv st)) (state st) (absent st).

(** [set(partial)] of zustand. *)
Definition set (partial : list (string * Value)) (st : Store) : Store :=
  mkStore (mmkv st)
    (fold_left (fun m kv => <[fst kv := snd kv]> m) partial (state st))
    (absent st).

(** [setAppendNote] (lines 159-162). *)
Definition setAppendNote (note : Value) (st : Store) : Store :=
  set [("appendNote"%string, note)]
    (setItem StorageKeys.appendNote (stringify note) st).

(** [x ? JSON.parse(x) : fallback] for a stored string [x]. *)
Definition parseOr (x : option JsString) (fallback : Value) : Outcome Value :=
  match x with
  | Some (c :: s) => JSON_parse (c :: s)
  | _ => Normal fallback
  end.

(** [restore] (lines 163-173). *)
Definition restore (st : Store) : Outcome Store :=
  let appendNote := getString StorageKeys.appendNote st in
  let selectedNotebooks := getString StorageKeys.selectedNotebooks st in
  let selectedTags := getString StorageKeys.selectedTag st in
  match JSON_parse_any (received st appendNote) with
  | Throw e => Throw e
  | Normal appendNote =>
      match (if truthy appendNote then JSON_parse_any (Some appendNote)
             else Normal VNull) with
      | Throw e => Throw e
      | Normal a =>
          match parseOr selectedNotebooks (VArr []) with
          | Throw e => Throw e
          | Normal b =>
              match parseOr selectedTags (VArr []) with
              | Throw e => Throw e
              | Normal c =>
                  Normal (set [("appendNote"%string, a);
                               ("selectedNotebooks"%string, b);
                               ("selectedTag"%string, c)] st)
              end
          end
      end
  end.

(** The exception of [JSON.parse(note)] for an object [note]. *)
Definition objectParseError (members : list (JsString * Value)) : Exn :=
  if hasOwn (lit "toString") members then TypeError else SyntaxError.

End ShareStore.

(* ===================================================================== *)
(** ** The [Menu] component                                              *)
(* ===================================================================== *)

Module Menu.
Import Js.

Section WithApplication.

(** The state of the embedding application, which click handlers and the
    close callback read and write. *)
Variable App : Type.

(** A callback of the embedding application ([item.onClick], [onClose]):
    it changes the application state and returns or throws. *)
Definition Handler : Type := App -> Outcome unit * App.

(** Modelled from the spec: the declaration of [MenuItem] in ./types is not
    among the sources.  Section 3 gives the variants separator, button and
    popup; the fields are those [Menu] reads: [key] and [isHidden] of every
    item, [isDisabled], [onClick] and [menu] of a button ([menu.items]
    when the field is set). *)
#[warnings="-register-all"]
Inductive MenuItem : Type :=
| Separator (key : string) (isHidden : bool)
| Button (key : string) (isHidden isDisabled : bool)
         (onClick : option Handler) (menu : option (list MenuItem))
| Popup (key : string) (isHidden : bool).

Definition key (item : MenuItem) : string :=
  match item with
  | Separator k _ | Button k _ _ _ _ | Popup k _ => k
  end.

Definition isHidden (item : MenuItem) : bool :=
  match item with
  | Separator _ h | Button _ h _ _ _ | Popup _ h => h
  end.

Definition isDisabled (item : MenuItem) : bool :=
  match item with
  | Button _ _ d _ _ => d
  | _ => false
  end.

Definition isSeparator (item : MenuItem) : bool :=
  match item with Separator _ _ => true | _ => false end.

Definition isButton (item : MenuItem) : bool :=
  match item with Button _ _ _ _ _ => true | _ => false end.

Definition onClick (item : MenuItem) : option Handler :=
  match item with
  | Button _ _ _ h _ => h
  | _ => None
  end.

Definition menu (item : MenuItem) : option (list MenuItem) :=
  match item with
  | Button _ _ _ _ m => m
  | _ => None
  end.

(** *** Calls into the embedding application *)

(** What the menu does to the outside, in order. *)
Inductive Call : Type :=
| StopPropagation
| OnClick (key : string)
| OnClose.

Record World : Type := mkWorld { app : App; calls : list Call }.

(** A computation that may call out and may throw. *)
Definition M (A : Type) : Type := World -> Outcome A * World.

Definition ret {A} (a : A) : M A := fun w => (Normal a, w).

Definition bind {A B} (m : M A) (k : A -> M B) : M B :=
  fun w =>
    match m w with
    | (Normal a, w') => k a w'
    | (Throw e, w') => (Throw e, w')
    end.

Definition record (c : Call) : M unit :=
  fun w => (Normal tt, mkWorld (app w) (calls w ++ [c])).

(** Calling [h()]: the call is recorded, then [h] runs. *)
Definition invoke (c : Call) (h : Handler) : M unit :=
  fun w =>
    let (o, a) := h (app w) in
    (o, mkWorld a (calls w ++ [c])).

Notation "m1 >> m2" := (bind m1 (fun _ => m2))
  (at level 100, m2 at level 200, right associativity).

(** [onAction] (lines 113-123): [e?.stopPropagation()], then the item's
    [onClick] when there is one, then [onClose] when there is one. *)
Definition onAction (e : bool) (item : option MenuItem)
    (onClose : option Handler) : M unit :=
  (if e then record StopPropagation else ret tt) >>
  match item with
  | Some it =>
      match onClick it with
      | Some h => invoke (OnClick (key it)) h
      | None => ret tt
      end
  | None => ret tt
  end >>
  match onClose with
  | Some h => invoke OnClose h
  | None => ret tt
  end.

(** *** The state of one menu level *)

(** The callback given to [setTimeout] (lines 189-199) closes over
    [isSubmenuOpen] of the render it was created in, [index] and
    [item]. *)
Record Timeout : Type := mkTimeout {
  deadline : N;
  cIsSubmenuOpen : bool;
  cIndex : nat;
  cItem : MenuItem
}.

(** [focusIndex] and [isSubmenuOpen] are the state [useFocus] returns;
    [hoverTimeout] is the ref of line 112 (the last timer id stored);
    [pending] are the timers set and neither fired nor cleared, oldest
    first; [nextId] the next timer id; [now] the clock in ms. *)
Record Level : Type := mkLevel {
  focusIndex : Z;
  isSubmenuOpen : bool;
  hoverTimeout : option nat;
  pending : list (nat * Timeout);
  nextId : nat;
  now : N
}.

Definition setFocusIndex (i : Z) (lv : Level) : Level :=
  mkLevel i (isSubmenuOpen lv) (hoverTimeout lv) (pending lv)
          (nextId lv) (now lv).

Definition setIsSubmenuOpen (b : bool) (lv : Level) : Level :=
  mkLevel (focusIndex lv) b (hoverTimeout lv) (pending lv)
          (nextId lv) (now lv).

(** [clearTimeout(id)]: nothing happens for [undefined] or for an id
    that is no longer pending. *)
Definition clearTimeout (id : option nat) (lv : Level) : Level :=
  match id with
  | None => lv
  | Some i =>
      mkLevel (focusIndex lv) (isSubmenuOpen lv) (hoverTimeout lv)
              (List.filter (fun t => negb (Nat.eqb (fst t) i)) (pending lv))
              (nextId lv) (now lv)
  end.

(** The hover delay of line 199. *)
Definition hoverDelay : N := 200%N.

(** [hoverTimeout.current = setTimeout(cb, 200)] *)
Definition setHoverTimeout (open : bool) (index : nat) (item : MenuItem)
    (lv : Level) : Level :=
  let id := nextId lv in
  mkLevel (focusIndex lv) (isSubmenuOpen lv) (Some id)
          (pending lv ++ [(id, mkTimeout (now lv + hoverDelay) open index item)])
          (S id) (now lv).

(** The body of the timer callback (lines 190-198). *)
Definition fire (t : Timeout) (lv : Level) : Level :=
  let lv1 :=
    if cIsSubmenuOpen t then setFocusIndex (Z.of_nat (cIndex t)) lv
    else setIsSubmenuOpen true lv in
  match menu (cItem t) with
  | Some _ => lv1
  | None => setIsSubmenuOpen false lv1
  end.

Definition isDue (t : N) (x : nat * Timeout) : bool :=
  N.leb (deadline (snd x)) t.

(** [d] ms pass: every pending timer whose delay has run out fires, the
    oldest first (all delays are equal, so that is the order of the
    deadlines), and leaves the pending list. *)
Definition elapse (d : N) (lv : Level) : Level :=
  let t := (now lv + d)%N in
  let due := List.filter (isDue t) (pending lv) in
  let rest := List.filter (fun x => negb (isDue t x)) (pending lv) in
  fold_left (fun l x => fire (snd x) l) due
    (mkLevel (focusIndex lv) (isSubmenuOpen lv) (hoverTimeout lv) rest
             (nextId lv) t).

(** [onMouseEnter] of a button (lines 181-200). *)
Definition onMouseEnter (item : MenuItem) (index : nat) (lv : Level) : Level :=
  if isDisabled item then setFocusIndex (-1) lv
  else
    let lv1 :=
      if negb (isSubmenuOpen lv) then setFocusIndex (Z.of_nat index) lv
      else lv in
    let lv2 := clearTimeout (hoverTimeout lv1) lv1 in
    setHoverTimeout (isSubmenuOpen lv) index item lv2.

(** [onMouseLeave] of a button (lines 201-203). *)
Definition onMouseLeave (lv : Level) : Level :=
  clearTimeout (hoverTimeout lv) lv.

(** [onClick] of a button (lines 174-179). *)
Definition buttonOnClick (item : MenuItem) (index : nat)
    (onClose : option Handler) (lv : Level) : M Level :=
  match menu item with
  | Some _ =>
      ret (setIsSubmenuOpen true (setFocusIndex (Z.of_nat index) lv))
  | None => onAction true (Some item) onClose >> ret lv
  end.

(** [onClick] of a popup item's component (line 208): [onAction(e)]. *)
Definition popupOnClick (onClose : option Handler) (lv : Level) : M Level :=
  onAction true None onClose >> ret lv.

(** The action callback handed to [useFocus] (lines 128-131). *)
Definition focusOnAction (items : list MenuItem) (onClose : option Handler)
    (lv : Level) : M unit :=
  match at_index items (focusIndex lv) with
  | Some item =>
      if isButton item then onAction true (Some item) onClose else ret tt
  | None => ret tt
  end.

(** The close callback handed to [useFocus] (line 132): [() => onClose()]. *)
Definition focusOnClose (onClose : Handler) : M unit :=
  invoke OnClose onClose.

(** *** Rendering *)

(** What [items.map] yields for one item (lines 163-210): nothing for a
    hidden item, otherwise an element by type.  Only a button element
    carries the pointer handlers of its item and index. *)
Inductive Element : Type :=
| MenuSeparator (key : string)
| MenuButton (key : string) (item : MenuItem) (index : nat) (isFocused : bool)
| PopupComponent (key : string).

Definition renderItem (lv : Level) (index : nat) (item : MenuItem)
    : option Element :=
  if isHidden item then None
  else Some
    match item with
    | Separator k _ => MenuSeparator k
    | Button k _ _ _ _ =>
        MenuButton k item index (Z.eqb (focusIndex lv) (Z.of_nat index))
    | Popup k _ => PopupComponent k
    end.

(** The children of [MenuContainer]: React renders nothing for [null]. *)
Definition renderItems (items : list MenuItem) (lv : Level) : list Element :=
  omap (fun x => x) (imap (renderItem lv) items).

(** The condition of line 213 and the items of the nested [Menu] of line
    221. *)
Definition submenu (items : list MenuItem) (lv : Level)
    : option (list MenuItem) :=
  match at_index items (focusIndex lv) with
  | Some (Button _ _ _ _ (Some m)) =>
      if isSubmenuOpen lv then Some m else None
  | _ => None
  end.

(** The submenu of the item at [index] is the one on screen. *)
Definition showsSubmenuOf (items : list MenuItem) (lv : Level)
    (index : nat) : bool :=
  Z.eqb (focusIndex lv) (Z.of_nat index)
  && match submenu items lv with Some _ => true | None => false end.

(** The indexes whose submenu is on screen. *)
Definition openSubmenus (items : list MenuItem) (lv : Level) : list nat :=
  List.filter (fun i => showsSubmenuOf items lv i) (seq 0 (length items)).

(** The id of the element the open submenu is positioned against
    (line 141). *)
Definition anchorId (item : MenuItem) : string :=
  (key item ++ "-menu-item")%string.

(** The menu levels on screen, outermost first, for the state of each
    level from the root down: the items each shows and the [onClose] each
    was given.  Line 221 hands the nested [Menu] the [onClose] of its
    parent. *)
Fixpoint mounted (items : list MenuItem) (onClose : option Handler)
    (lvs : list Level) : list (list MenuItem * option Handler) :=
  match lvs with
  | [] => []
  | lv :: lvs' =>
      (items, onClose) ::
      match submenu items lv with
      | Some sub => mounted sub onClose lvs'
      | None => []
      end
  end.

(** A click on the button at [index] of the level at [depth]. *)
Definition clickAt (items : list MenuItem) (onClose : option Handler)
    (lvs : list Level) (depth index : nat) : M unit :=
  match mounted items onClose lvs !! depth, lvs !! depth with
  | Some (its, close), Some lv =>
      match its !! index with
      | Some (Button k false d h m) =>
          buttonOnClick (Button k false d h m) index close lv >> ret tt
      | _ => ret tt
      end
  | _, _ => ret tt
  end.

(** The confirm key on the level at [depth]: the action callback of that
    level, for the item it has in focus. *)
Definition confirmAt (items : list MenuItem) (onClose : option Handler)
    (lvs : list Level) (depth : nat) : M unit :=
  match mounted items onClose lvs !! depth, lvs !! depth with
  | Some (its, close), Some lv => focusOnAction its close lv
  | _, _ => ret tt
  end.

End WithApplication.

Arguments Separator {App} key isHidden.
Arguments Button {App} key isHidden isDisabled onClick menu.
Arguments Popup {App} key isHidden.
Arguments mkWorld {App} app calls.
Arguments ret {App A} a.
Arguments bind {App A B} m k.
Arguments mkTimeout {App}.
Arguments mkLevel {App}.
Arguments MenuSeparator {App}.
Arguments MenuButton {App}.
Arguments PopupComponent {App}.

End Menu.

(* ===================================================================== *)
(** ** The positioning effect of [Menu]                                  *)
(* ===================================================================== *)

Module Position.
Import Js Menu.

Section WithDocument.

Variable App : Type.

(** DOM nodes and the numbers [getPosition] returns. *)
Variable Node : Type.
Variable Num : Type.

(** [getPosition(element, { target, location: "right" })] of
    ../../utils/position, which is not among the sources: it returns
    [{ top, left }] or throws. *)
Variable getPosition : Node -> Node -> Outcome (Num * Num).

Inductive Visibility : Type := Hidden | Visible.

(** The inline style of the submenu's [Flex]; [top] and [left] are unset
    until the effect assigns them. *)
Record Style : Type := mkStyle {
  visibility : Visibility;
  top : option Num;
  left : option Num
}.

(** The element [subMenuRef.current] points to. *)
Record Flex : Type := mkFlex { node : Node; style : Style }.

(** The style of line 216, with which the [Flex] is mounted. *)
Definition initialStyle : Style := mkStyle Hidden None None.

(** The effect of lines 137-158; [getElementById] is the document at the
    time the effect runs and [current] is [subMenuRef.current]. *)
Definition positionEffect (getElementById : string -> option Node)
    (items : list (MenuItem App)) (lv : Level App)
    (current : option Flex) : Outcome (option Flex) :=
  match at_index items (focusIndex lv), current with
  | Some item, Some el =>
      match getElementById (anchorId item) with
      | None => Normal current
      | Some menuItemElement =>
          if negb (isSubmenuOpen lv) then
            Normal (Some (mkFlex (node el)
                     (mkStyle Hidden (top (style el)) (left (style el)))))
          else
            match getPosition (node el) menuItemElement with
            | Throw e => Throw e
            | Normal (t, l) =>
                let s1 := mkStyle Visible (top (style el)) (left (style el)) in
                let s2 := mkStyle (visibility s1) (Some t) (left s1) in
                let s3 := mkStyle (visibility s2) (top s2) (Some l) in
                Normal (Some (mkFlex (node el) s3))
            end
      end
  | _, _ => Normal current
  end.

(** What [subMenuRef.current] is once a render is committed: nothing
    when the condition of line 213 fails; otherwise the element already
    there, whose style React leaves alone because the [style] prop is the
    same constant, or a new one mounted with that constant style. *)
Definition commitRef (items : list (MenuItem App)) (lv : Level App)
    (fresh : Node) (previous : option Flex) : option Flex :=
  match submenu items lv with
  | None => None
  | Some _ =>
      match previous with
      | Some el => Some el
      | None => Some (mkFlex fresh initialStyle)
      end
  end.

(** One render of a level: the document, the items and state rendered,
    the node a new [Flex] would get, and whether the dependencies of the
    effect changed, so that it runs. *)
Record Render : Type := mkRender {
  document : string -> option Node;
  rItems : list (MenuItem App);
  rLevel : Level App;
  rFresh : Node;
  rEffect : bool
}.

(** A render followed by its effect.  An exception of the effect leaves
    the element as the commit left it. *)
Definition renderPass (r : Render) (previous : option Flex) : option Flex :=
  let current := commitRef (rItems r) (rLevel r) (rFresh r) previous in
  if rEffect r then
    match positionEffect (document r) (rItems r) (rLevel r) current with
    | Normal c => c
    | Throw _ => current
    end
  else current.

(** The submenu element after a sequence of renders of a level that
    starts without a submenu on screen. *)
Definition afterRenders (rs : list Render) : option Flex :=
  fold_left (fun cur r => renderPass r cur) rs None.

End WithDocument.

Arguments mkStyle {Num}.
Arguments mkFlex {Node Num}.
Arguments mkRender {App Node}.

End Position.

(* ===================================================================== *)
(** ** Keyboard navigation                                               *)
(* ===================================================================== *)

Module UseFocus.
Import Js Menu.

Section WithApplication.

Variable App : Type.

(** Modelled from the spec: the hook [useFocus] of ./use-focus is not
    among the sources.  Sections 3, 4.1 and 4.2 of the specification: a
    focus target is a visible item that is not a separator; section 7:
    a disabled item is not reached by keyboard navigation either. *)
Definition focusable (item : MenuItem App) : bool :=
  negb (isSeparator item) && negb (isHidden item) && negb (isDisabled item).

Definition focusableAt (items : list (MenuItem App)) (i : nat) : bool :=
  match items !! i with
  | Some item => focusable item
  | None => false
  end.

(** Modelled from the spec: [useFocus] is not among the sources.  The
    positions looked at by downward navigation from [focus], in order:
    those after the focus, then, wrapping at the end, those from the
    first up to the focus itself. *)
Definition positionsAfter (n : nat) (focus : Z) : list nat :=
  let k := Z.to_nat (focus + 1) in
  seq k (n - k) ++ seq 0 (min k n).

(** Modelled from the spec: [useFocus] is not among the sources.  The
    positions looked at by upward navigation: those before the focus,
    nearest first, then, wrapping at the start, those from the last down
    to the focus itself. *)
Definition positionsBefore (n : nat) (focus : Z) : list nat :=
  let k := min (Z.to_nat focus) n in
  rev (seq 0 k) ++ rev (seq k (n - k)).

(** Modelled from the spec: [useFocus] is not among the sources.
    Section 4.1: downward navigation moves focus to the next
    non-separator, non-hidden item and wraps at the end; section 7: it
    passes over disabled items; with no focus target the focus stays. *)
Definition next (items : list (MenuItem App)) (focus : Z) : Z :=
  match List.find (focusableAt items) (positionsAfter (length items) focus) with
  | Some j => Z.of_nat j
  | None => focus
  end.

(** Modelled from the spec: [useFocus] is not among the sources.
    Section 4.1: upward navigation moves focus to the previous
    non-separator, non-hidden item and wraps at the start; section 7: it
    passes over disabled items. *)
Definition previous (items : list (MenuItem App)) (focus : Z) : Z :=
  match List.find (focusableAt items) (positionsBefore (length items) focus) with
  | Some j => Z.of_nat j
  | None => focus
  end.


(** *** The events of one menu level *)

(** Modelled from the spec: [useFocus] is not among the sources.  The keys
    of section 4.1: downward and upward navigation, confirm, escape. *)
Inductive Key : Type := ArrowDown | ArrowUp | Enter | Escape.

(** What can happen to a level: the pointer enters or leaves the button
    at an index or clicks the item there, time passes, a key is pressed. *)
Inductive Event : Type :=
| MouseEnter (index : nat)
| MouseLeave (index : nat)
| Click (index : nat)
| Elapse (ms : N)
| KeyDown (k : Key).

(** Modelled from the spec: [useFocus] is not among the sources.
    Section 4.1: the arrows navigate; confirm on a focused button with a
    nested menu opens the submenu, on any other focused item it runs the
    action callback [Menu] supplies (lines 128-131); escape runs the
    close callback [Menu] supplies (line 132). *)
Definition onKeyDown (items : list (MenuItem App)) (onClose : Handler App)
    (k : Key) (lv : Level App) : M App (Level App) :=
  match k with
  | ArrowDown => ret (setFocusIndex (next items (focusIndex lv)) lv)
  | ArrowUp => ret (setFocusIndex (previous items (focusIndex lv)) lv)
  | Enter =>
      match at_index items (focusIndex lv) with
      | Some (Button _ _ _ _ (Some _)) => ret (setIsSubmenuOpen true lv)
      | _ =>
          bind (focusOnAction items (Some onClose) lv) (fun _ => ret lv)
      end
  | Escape => bind (focusOnClose onClose) (fun _ => ret lv)
  end.

(** Modelled from the spec: [MenuButton] of ./menu-button, which receives
    the handlers of lines 174-203, is not among the sources.  A pointer
    event reaches those handlers only through a rendered [MenuButton], that
    is, for a button item that is not hidden (line 164); any other pointer
    event finds no handler.  Section 7: a disabled item is not reached by
    the pointer, so the button of a disabled item passes no click on; the
    pointer entering or leaving it is passed on, and [onMouseEnter] tests
    [isDisabled] itself (line 182). *)
Definition dispatch (items : list (MenuItem App)) (onClose : Handler App)
    (ev : Event) (lv : Level App) : M App (Level App) :=
  match ev with
  | MouseEnter i =>
      match items !! i with
      | Some (Button k false d h m) =>
          ret (onMouseEnter (Button k false d h m) i lv)
      | _ => ret lv
      end
  | MouseLeave i =>
      match items !! i with
      | Some (Button _ false _ _ _) => ret (onMouseLeave lv)
      | _ => ret lv
      end
  | Click i =>
      match items !! i with
      | Some (Button k false false h m) =>
          buttonOnClick (Button k false false h m) i (Some onClose) lv
      | Some (Popup _ false) => popupOnClick (Some onClose) lv
      | _ => ret lv
      end
  | Elapse ms => ret (elapse ms lv)
  | KeyDown k => onKeyDown items onClose k lv
  end.

(** An event is handled to the end before the next one; an exception of
    a handler leaves the state of the level as it was. *)
Definition deliver (items : list (MenuItem App)) (onClose : Handler App)
    (ev : Event) (s : Level App * World App) : Level App * World App :=
  match dispatch items onClose ev (fst s) (snd s) with
  | (Normal lv, w) => (lv, w)
  | (Throw _, w) => (fst s, w)
  end.

Definition run (items : list (MenuItem App)) (onClose : Handler App)
    (evs : list Event) (s : Level App * World App) : Level App * World App :=
  fold_left (fun s ev => deliver items onClose ev s) evs s.

End WithApplication.

End UseFocus.

(* ===================================================================== *)
(** ** html.ts: [splitOn] and the loop body of [convertBrToParagraph]    *)
(* ===================================================================== *)

Module Dom.
Import Js.

Definition Attrs : Type := list (JsString * JsString).

(** A node of a document: a text node or an element with its children. *)
#[warnings="-register-all"]
Inductive Node : Type :=
| Text (data : JsString)
| Element (tagName : JsString) (attributes : Attrs) (childNodes : list Node).

(** An element seen from one of its children: its tag and attributes (what
    [cloneNode(false)] copies) and the siblings before and after that
    child. *)
Record Frame : Type := {
  tag : JsString;
  attrs : Attrs;
  before : list Node;
  after : list Node
}.

(** A node inside its tree: the node and its ancestors, [parentNode]
    first and the root last.  The DOM's parent and sibling pointers are
    read off this.  The [parentNode] of the root is [null]; the document
    node that is above the root element of a parsed document is never
    reached where [bound] is an ancestor of the cut element. *)
Record Loc : Type := {
  cut : Node;
  parents : list Frame
}.

(** The element [f] with [n] back in its place. *)
Definition plug (f : Frame) (n : Node) : Node :=
  Element (tag f) (attrs f) (before f ++ n :: after f).

(** The root of the tree a location is in. *)
Definition root (l : Loc) : Node :=
  fold_left (fun n f => plug f n) (parents l) (cut l).

(** An ancestor is told from every other node by the number of its own
    ancestors, which no step below changes.  The parent of the node
    whose ancestors are [fs], [None] for [null]: *)
Definition parentOf (fs : list Frame) : option nat :=
  match fs with
  | [] => None
  | _ :: up => Some (length up)
  end.

(** [cutElement.parentNode] *)
Definition parentNode (l : Loc) : option nat := parentOf (parents l).

(** The argument [bound]: an ancestor of the cut element, given by its
    depth, or an element that is not among its ancestors. *)
Inductive Ref : Type :=
| Ancestor (depth : nat)
| Elsewhere.

(** [bound == parent]; [bound] is an element, never [null]. *)
Definition same (bound : Ref) (parent : option nat) : bool :=
  match bound, parent with
  | Ancestor d, Some h => Nat.eqb d h
  | _, _ => false
  end.

(** One turn of the loop of [splitOn] when [grandparent] is not [null]:
    [right], the childless clone of [parent] = [f1], takes the siblings
    after the cut element and is put after [parent] in [grandparent] =
    [f2]; the cut element is put between the two. *)
Definition lift (f1 f2 : Frame) : Frame :=
  {| tag := tag f2;
     attrs := attrs f2;
     before := before f2 ++ [Element (tag f1) (attrs f1) (before f1)];
     after := Element (tag f1) (attrs f1) (after f1) :: after f2 |}.

(** The same turn when [grandparent] is [null]: both [insertBefore] are
    skipped, so the cut element stays, and its later siblings are gone
    with [right]. *)
Definition strip (f1 : Frame) : Frame :=
  {| tag := tag f1; attrs := attrs f1; before := before f1; after := [] |}.

(** [for (let parent = cutElement.parentNode; bound != parent;
          parent = grandparent) { if (parent) { ... } }]
    with the variables [parent] and [grandparent] and the tree; a
    [parent] that is not [null] is the parent of the cut element.
    [None] when the turns run out. *)
Fixpoint splitLoop (fuel : nat) (bound : Ref) (parent grandparent : option nat)
    (l : Loc) : option Loc :=
  match fuel with
  | 0 => None
  | S fuel =>
      if same bound parent then Some l
      else
        match parent, parents l with
        | Some _, f1 :: f2 :: up =>
            let grandparent := parentOf (f2 :: up) in
            splitLoop fuel bound grandparent grandparent
                      {| cut := cut l; parents := lift f1 f2 :: up |}
        | Some _, [f1] =>
            let grandparent := parentOf [] in
            splitLoop fuel bound grandparent grandparent
                      {| cut := cut l; parents := [strip f1] |}
        | _, _ => splitLoop fuel bound grandparent grandparent l
        end
  end.

Definition splitOn (fuel : nat) (bound : Ref) (cutElement : Loc) : option Loc :=
  splitLoop fuel bound (parentNode cutElement) None cutElement.

Definition isP (f : Frame) : bool :=
  bool_decide (tag f = lit "p").

(** [br.closest("p")] for a [br] element: its nearest ancestor [p]. *)
Fixpoint closest (fs : list Frame) : option nat :=
  match fs with
  | [] => None
  | f :: up => if isP f then Some (length up) else closest up
  end.

(** The ancestor of depth [d]. *)
Definition ancestor (l : Loc) (d : nat) : option Frame :=
  rev (parents l) !! d.

(** [paragraph.childNodes.length] *)
Definition childCount (l : Loc) (d : nat) : nat :=
  match ancestor l d with
  | Some f => length (before f) + 1 + length (after f)
  | None => 0
  end.

(** [if (!paragraph && br.parentElement) { ... }]: a new [p] takes all
    the children of the parent of [br] and becomes its only child. *)
Definition addParagraph (br : Loc) : option nat * Loc :=
  match closest (parents br), parents br with
  | None, parent :: up =>
      let p := {| tag := lit "p"; attrs := [];
                  before := before parent; after := after parent |} in
      let parent := {| tag := tag parent; attrs := attrs parent;
                       before := []; after := [] |} in
      (parentOf (p :: parent :: up),
       {| cut := cut br; parents := p :: parent :: up |})
  | paragraph, _ => (paragraph, br)
  end.

(** [doc.createElement("p")] with [dataset.spacing = "single"] and the
    children [children]. *)
Definition newParagraph (children : list Node) : Node :=
  Element (lit "p") [(lit "data-spacing", lit "single")] children.

(** The body of the loop of [convertBrToParagraph] (lines 26-47) for one
    [br], given with its place in the document; the result is the root
    of the document afterwards, [None] when [splitOn] does not return.
    [splitOn] gets one turn more than the [br] has ancestors.  After it
    has returned, [paragraph] is the parent of the [br]: the later
    siblings of the [br] go to the new paragraph, which is put after
    [paragraph] when that has a parent, and the [br] is removed. *)
Definition convertBr (br : Loc) : option Node :=
  let '(paragraph, br) := addParagraph br in
  match paragraph with
  | None => Some (root br)
  | Some d =>
      if Nat.eqb (childCount br d) 1 then Some (root br)
      else
        match splitOn (S (length (parents br))) (Ancestor d) br with
        | None => None
        | Some br =>
            match parents br with
            | p :: g :: up =>
                let paragraph := Element (tag p) (attrs p) (before p) in
                Some (root {| cut := Element (tag g) (attrs g)
                                       (before g ++ paragraph
                                          :: newParagraph (after p) :: after g);
                              parents := up |})
            | [p] => Some (Element (tag p) (attrs p) (before p))
            | [] => Some (cut br)
            end
        end
  end.

(** [node.textContent] *)
Fixpoint textContent (n : Node) : JsString :=
  match n with
  | Text data => data
  | Element _ _ children =>
      (fix all (ns : list Node) : JsString :=
         match ns with
         | [] => []
         | n :: ns => textContent n ++ all ns
         end) children
  end.

End Dom.

(* ===================================================================== *)
(** ** The share store: the other setters and the initial theme          *)
(* ===================================================================== *)

Module ShareTheme.
Import Js Json ShareStore.

(** [setSelectedNotebooks] (lines 176-182). *)
Definition setSelectedNotebooks (selectedNotebooks : Value) (st : Store) : Store :=
  set [("selectedNotebooks"%string, selectedNotebooks)]
    (setItem StorageKeys.selectedNotebooks (stringify selectedNotebooks) st).

(** [setSelectedTags] (lines 183-186): stored under
    [StorageKeys.selectedTag], kept in the state as [selectedTags]. *)
Definition setSelectedTags (selectedTags : Value) (st : Store) : Store :=
  set [("selectedTags"%string, selectedTags)]
    (setItem StorageKeys.selectedTag (stringify selectedTags) st).

(** [Appearance.getColorScheme()]: ["light"], ["dark"], or neither. *)
Inductive Scheme : Type := Light | Dark | NoPreference.

Definition isDark (scheme : Scheme) : bool :=
  match scheme with Dark => true | _ => false end.

(** What the store starts with as [theme]: a value read from the
    settings, or one of the two themes imported from @notesnook/theme. *)
Inductive Theme : Type :=
| Stored (v : Value)
| ThemeDark
| ThemeLight.

(** The own property [name] of an object made by [JSON.parse]: of two
    members with the same name the later one is kept. *)
Fixpoint getMember (name : JsString) (members : list (JsString * Value))
    : option Value :=
  match members with
  | [] => None
  | m :: rest =>
      match getMember name rest with
      | Some v => Some v
      | None => if bool_decide (fst m = name) then Some (snd m) else None
      end
  end.

(** [x?.name] for [name] one of [darkThem] and [lightTheme], which only
    an object can have; [None] is [undefined]. *)
Definition optionalMember (name : JsString) (x : option Value) : option Value :=
  match x with
  | Some (VObj members) => getMember name members
  | _ => None
  end.

(** Lines 140-153: the settings are parsed when the stored string is not
    empty; the theme is read from them and replaced by a default when it
    is not truthy. *)
Definition initialTheme (scheme : Scheme) (st : Store) : Outcome Theme :=
  let appSettings := getString StorageKeys.appSettings st in
  match (match appSettings with
         | Some (c :: s) =>
             match JSON_parse (c :: s) with
             | Normal v => Normal (Some v)
             | Throw e => Throw e
             end
         | _ => Normal None
         end) with
  | Throw e => Throw e
  | Normal appSettings =>
      let theme :=
        if negb (isDark scheme) then optionalMember (lit "darkThem") appSettings
        else optionalMember (lit "lightTheme") appSettings in
      Normal match theme with
             | Some v =>
                 if truthy v then Stored v
                 else if isDark scheme then ThemeDark else ThemeLight
             | None => if isDark scheme then ThemeDark else ThemeLight
             end
  end.

End ShareTheme.

(* ===================================================================== *)
(** ** notebook/index.js: the topic chips of [Notebook]                  *)
(* ===================================================================== *)

Module Notebook.

Section WithTopics.

Variable Topic : Type.

(** [a.slice(start, stop)] for [0 <= start <= stop]. *)
Definition slice (start stop : nat) (a : list Topic) : list Topic :=
  take (stop - start) (drop start a).

(** Lines 65-70: one chip for each element of [topics.slice(1, 4)]; a
    click on it calls [onTopicClick(notebook, index + 1)] with the
    [index] that [map] gives.  A chip is its topic and that argument. *)
Definition topicChips (topics : list Topic) : list (Topic * nat) :=
  imap (fun index topic => (topic, index + 1)) (slice 1 4 topics).

End WithTopics.

End Notebook.

(* ===================================================================== *)
(** ** themes-selector.tsx: the pages of [ThemesList]                    *)
(* ===================================================================== *)

Module ThemesSelector.

Section WithThemes.

(** A theme's metadata, its id, a page cursor and a page parameter. *)
Variables (Theme Id Cursor Param : Type).
Variable id : Theme -> Id.

(** [isThemeCurrentlyApplied] of the theme store. *)
Variable isThemeCurrentlyApplied : Id -> bool.

Record Page : Type := mkPage {
  nextCursor : option Cursor;
  themes : list Theme
}.

Record Data : Type := mkData {
  pageParams : list Param;
  pages : list Page
}.

(** [select] (lines 97-105). *)
Definition select (data : Data) : Data :=
  mkData (pageParams data)
    (map (fun page =>
            mkPage (nextCursor page)
              (List.filter (fun theme => negb (isThemeCurrentlyApplied (id theme)))
                           (themes page)))
         (pages data)).

(** The [data] of the grid (line 214):
    [themes.data?.pages.flatMap((a) => a.themes) || []]. *)
Definition gridData (data : option Data) : list Theme :=
  match data with
  | Some d => flat_map themes (pages d)
  | None => []
  end.

End WithThemes.

End ThemesSelector.

(* ===================================================================== *)
(** ** Observations and invariants the statements use                    *)
(* ===================================================================== *)

Module Observations.
Import Js Menu Position UseFocus.

(** Number of [onClose()] calls among the calls made. *)
Definition closeCalls (cs : list Call) : nat :=
  length (List.filter (fun c => match c with OnClose => true | _ => false end) cs).

Definition stopCalls (e : bool) : list Call :=
  if e then [StopPropagation] else [].

Section WithApplication.

Variable App : Type.

(** At most one timer is pending, and it is the one the ref holds: each
    [setTimeout] of the component is stored in the ref after the timer
    stored before was cleared. *)
Definition oneTimer (lv : Level App) : Prop :=
  match pending lv with
  | [] => True
  | [(id, _)] => hoverTimeout lv = Some id
  | _ => False
  end.







End WithApplication.

Section WithDocument.

Variables (App Node Num : Type).
Variable getPosition : Node -> Node -> Outcome (Num * Num).

(** The effect of the render [r] has put [el] where it is: it ran with
    the submenu open, found the anchor element of the item then in focus,
    and [el] carries the coordinates [getPosition] returned for it and
    that anchor. *)
Definition positionedAt (r : Render App Node) (el : Flex Node Num) : Prop :=
  rEffect r = true /\ isSubmenuOpen (rLevel r) = true
  /\ exists item target t l,
       at_index (rItems r) (focusIndex (rLevel r)) = Some item
       /\ document r (anchorId item) = Some target
       /\ getPosition (node el) target = Normal (t, l)
       /\ top (style el) = Some t /\ left (style el) = Some l.

(** A visible element was put where it is by the effect of one of the
    renders [rs]. *)
Definition positioned (rs : list (Render App Node))
    (c : option (Flex Node Num)) : Prop :=
  match c with
  | Some el =>
      visibility (style el) = Visible -> exists r, In r rs /\ positionedAt r el
  | None => True
  end.

(** The item in focus at the render [r] has no anchor element in the
    document. *)
Definition anchorMissing (r : Render App Node) : Prop :=
  forall item,
    at_index (rItems r) (focusIndex (rLevel r)) = Some item ->
    document r (anchorId item) = None.

End WithDocument.

End Observations.

(* ===================================================================== *)
(** ** Concrete inputs                                                   *)
(* ===================================================================== *)

Module Samples.
Import Js Menu Position UseFocus Json ShareStore.

(** *** Concrete menus, over an application that counts in a [nat] *)

Definition bump : Handler nat := fun a => (Normal tt, S a).
Definition crash : Handler nat := fun a => (Throw (Thrown "boom"), a).
Definition closeApp : Handler nat := fun a => (Normal tt, a + 100).

Definition crashItem : MenuItem nat := Button "delete" false false (Some crash) None.
Definition bumpItem : MenuItem nat := Button "copy" false false (Some bump) None.
Definition plainItem : MenuItem nat := Button "plain" false false None None.
Definition moreItem : MenuItem nat :=
  Button "more" false false None (Some [bumpItem; crashItem]).
Definition rootItems : list (MenuItem nat) := [plainItem; Separator "sep" false; moreItem].

(** The root with the submenu of ["more"] (index 2) open. *)
Definition twoLevels : list (Level nat) :=
  [mkLevel 2%Z true None [] 0 0%N; mkLevel (-1)%Z false None [] 0 0%N].

Definition world0 : World nat := mkWorld 0 [].

(** *** A concrete level *)

Definition sub : list (MenuItem nat) := [Button "leaf" false false None None].
Definition items0 : list (MenuItem nat) :=
  [Button "a" false false None None;
   Button "b" false false None (Some sub);
   Button "c" false true None (Some sub)].
Definition idle : Level nat := mkLevel (-1)%Z false None [] 0 0%N.

(** *** A concrete document *)

Definition menuItems : list (MenuItem nat) :=
  [Button "file" false false None (Some [Button "open" false false None None])].

Definition measure (el target : nat) : Outcome (Z * Z) :=
  Normal (Z.of_nat target, 220%Z).

Definition documentWith (id : string) (n : nat) : string -> option nat :=
  fun s => if String.eqb s id then Some n else None.

Definition opened : Level nat := mkLevel 0%Z true None [] 0 0%N.

(** Two buttons with a nested menu each; only the first has its anchor
    element in the document. *)
Definition fileItem : MenuItem nat :=
  Button "file" false false None (Some [Button "open" false false None None]).
Definition editItem : MenuItem nat :=
  Button "edit" false false None (Some [Button "undo" false false None None]).
Definition menuBar : list (MenuItem nat) := [fileItem; editItem].

(** The submenu of ["file"] is open and the pointer has rested on
    ["edit"] for the hover delay. *)
Definition movedToEdit : Level nat :=
  elapse 200 (onMouseEnter editItem 1 opened).

Definition fileRender : Render nat nat :=
  mkRender (documentWith "file-menu-item" 7) menuBar opened 1 true.
Definition editRender : Render nat nat :=
  mkRender (documentWith "file-menu-item" 7) menuBar movedToEdit 2 true.

(** *** Concrete menus *)




Definition sampleNote : list (JsString * Value) :=
  [(lit "id", VStr (lit "62f1"));
   (lit "title", VStr (lit "Shopping"));
   (lit "dateEdited", VNum (lit "1690000000000"));
   (lit "pinned", VBool false);
   (lit "tags", VArr [VStr (lit "home"); VNull])].

(** A storage that holds nothing and gives [null] for a missing key, and
    one that gives [undefined]. *)
Definition emptyStore : Store := mkStore ∅ ∅ AbsentNull.
Definition emptyStoreUndefined : Store := mkStore ∅ ∅ AbsentUndefined.

End Samples.

(* ===================================================================== *)
(** ** Further observations                                              *)
(* ===================================================================== *)

Module MoreObservations.
Import Js Html.

(** The last code unit of [l] that is not white space is [>]. *)
Definition closesTag (l : JsString) : Prop :=
  exists a w, l = a ++ [62%N] ++ w /\ forallb isWhiteSpace w = true.

(** [s] without its newlines. *)
Definition withoutNewlines (s : JsString) : JsString :=
  List.filter (fun c => negb (N.eqb c LF)) s.

End MoreObservations.

Module DomObservations.
Import Js Dom.

(** The text of a run of nodes. *)
Definition texts (ns : list Node) : JsString := flat_map textContent ns.

(** The text that precedes, and the text that follows, a node inside the
    outermost of the ancestors [fs], given [parentNode] first. *)
Fixpoint textBefore (fs : list Frame) : JsString :=
  match fs with
  | [] => []
  | f :: up => textBefore up ++ texts (before f)
  end.

Fixpoint textAfter (fs : list Frame) : JsString :=
  match fs with
  | [] => []
  | f :: up => texts (after f) ++ textAfter up
  end.

(** The last of the ancestors [f :: up]. *)
Definition outermost (f : Frame) (up : list Frame) : Frame :=
  List.last up f.

(** [lift] along the ancestors [f :: up]: the outermost of them once the
    cut element has become its child. *)
Fixpoint splitUp (f : Frame) (up : list Frame) : Frame :=
  match up with
  | [] => f
  | f2 :: up' => splitUp (lift f f2) up'
  end.

(** [bound] is not among the ancestors of the node at [l]. *)
Definition foreign (bound : Ref) (l : Loc) : Prop :=
  match bound with
  | Ancestor d => length (parents l) <= d
  | Elsewhere => True
  end.

(** The number of elements with tag [t] in a tree. *)
Fixpoint countTag (t : JsString) (n : Node) : nat :=
  match n with
  | Text _ => 0
  | Element t' _ children =>
      (if bool_decide (t' = t) then 1 else 0)
      + (fix all (ns : list Node) : nat :=
           match ns with
           | [] => 0
           | n :: ns => countTag t n + all ns
           end) children
  end.

Definition countTags (t : JsString) (ns : list Node) : nat :=
  list_sum (map (countTag t) ns).

End DomObservations.

Module PointerObservations.
Import Js Menu.

Section WithApplication.

Variable App : Type.

(** What the pointer and the clock do to a level: the pointer enters the
    button rendered for [item] at [index], it leaves a button, or [d] ms
    pass. *)
Inductive Pointer : Type :=
| Enter (item : MenuItem App) (index : nat)
| Leave
| Wait (d : N).

Definition pointer (ev : Pointer) (lv : Level App) : Level App :=
  match ev with
  | Enter item index => onMouseEnter item index lv
  | Leave => onMouseLeave lv
  | Wait d => elapse d lv
  end.

Definition pointerRun (evs : list Pointer) (lv : Level App) : Level App :=
  fold_left (fun l ev => pointer ev l) evs lv.

(** The item at [index] is rendered as a button and is not disabled. *)
Definition hoverable (items : list (MenuItem App)) (index : nat) : bool :=
  match items !! index with
  | Some item => isButton item && negb (isHidden item) && negb (isDisabled item)
  | None => false
  end.

(** [Enter] events come from the buttons [renderItems] yields for
    [items]. *)
Definition fromRendered (items : list (MenuItem App)) (ev : Pointer) : Prop :=
  match ev with
  | Enter item index =>
      exists lv k f, In (MenuButton k item index f) (renderItems items lv)
  | _ => True
  end.

(** Every pending timer was set for such an item. *)
Definition hoverTimers (items : list (MenuItem App)) (lv : Level App) : Prop :=
  Forall (fun x => hoverable items (cIndex (snd x)) = true) (pending lv).

(** The focus index is [focus0], none, or the position of such an item. *)
Definition hoverFocus (items : list (MenuItem App)) (focus0 : Z)
    (lv : Level App) : Prop :=
  focusIndex lv = focus0 \/ focusIndex lv = (-1)%Z
  \/ exists i, focusIndex lv = Z.of_nat i /\ hoverable items i = true.

(** The React key of an element. *)
Definition elementKey (e : Element App) : string :=
  match e with
  | MenuSeparator k | MenuButton k _ _ _ | PopupComponent k => k
  end.

Definition shown (items : list (MenuItem App)) : list (MenuItem App) :=
  List.filter (fun item => negb (isHidden item)) items.

End WithApplication.

Arguments Leave {App}.
Arguments Wait {App} d.

End PointerObservations.

(* ===================================================================== *)
(** ** Properties of [convertNewlinesToBr]                               *)
(* ===================================================================== *)

Module HtmlFacts.
Import Js Html.

Lemma split_nonempty sep s : split sep s <> [].
Proof.
  destruct s as [|c s]; simpl; [discriminate|].
  destruct (N.eqb c sep); [discriminate|].
  destruct (split sep s); discriminate.
Qed.

(** Joining the pieces with the separator gives the string back. *)
Lemma join_split sep s : join [sep] (split sep s) = s.
Proof.
  induction s as [|c s IH]; simpl; [reflexivity|].
  destruct (N.eqb_spec c sep) as [->|Hne].
  - pose proof (split_nonempty sep s) as Hn.
    destruct (split sep s) as [|l ls] eqn:E; [congruence|].
    simpl in *. now rewrite IH.
  - pose proof (split_nonempty sep s) as Hn.
    destruct (split sep s) as [|l ls] eqn:E; [congruence|].
    destruct ls; simpl in *; now rewrite <- IH.
Qed.

(** No piece contains the separator. *)
Lemma split_no_sep sep s : Forall (fun l => ~ In sep l) (split sep s).
Proof.
  induction s as [|c s IH]; simpl.
  - constructor; [intros []|constructor].
  - destruct (N.eqb_spec c sep) as [->|Hne].
    + constructor; [intros []|exact IH].
    + destruct (split sep s) as [|l ls]; [repeat constructor; intros [H|[]]; congruence|].
      inversion IH; subst. constructor; [|assumption].
      intros [H|H]; [congruence|contradiction].
Qed.

Lemma join_empty lines : join [] lines = concat lines.
Proof.
  induction lines as [|l ls IH]; simpl; [reflexivity|].
  destruct ls; [now rewrite app_nil_r|].
  now rewrite <- IH.
Qed.

(** The loop visits the lines from [i] on and leaves the earlier ones. *)
Lemma forLoop_map done todo :
  forLoop (length todo) (length done) (done ++ todo) = done ++ map brLine todo.
Proof.
  revert done. induction todo as [|l todo IH]; intros done.
  - reflexivity.
  - cbn [length forLoop map].
    assert (Hbody : loopBody (length done) (done ++ l :: todo)
                    = (done ++ [brLine l]) ++ todo).
    { unfold loopBody, brLine.
      rewrite list_lookup_middle by reflexivity.
      destruct (endsWith (trim l) gt).
      - now rewrite <- app_assoc.
      - rewrite <- app_assoc. simpl.
        replace (length done) with (length done + 0) at 1 by lia.
        now rewrite insert_app_r. }
    rewrite Hbody.
    replace (S (length done)) with (length (done ++ [brLine l]))
      by (rewrite length_app; simpl; lia).
    rewrite IH, <- app_assoc. reflexivity.
Qed.

Lemma convertNewlinesToBr_refines html :
  convertNewlinesToBr html = convertNewlinesToBr_spec html.
Proof.
  unfold convertNewlinesToBr, convertNewlinesToBr_spec.
  rewrite join_empty. f_equal.
  exact (forLoop_map [] (split LF html)).
Qed.

Lemma LF_not_in_br : ~ In LF br.
Proof. vm_compute. intuition discriminate. Qed.

Lemma brLine_no_LF l : ~ In LF l -> ~ In LF (brLine l).
Proof.
  intros H. unfold brLine. destruct (endsWith (trim l) gt); [exact H|].
  rewrite in_app_iff. intros [?|?]; [auto|now apply LF_not_in_br].
Qed.

(** C9. [convertNewlinesToBr] splits its input at the newline code units
    (the pieces contain none, and joined by a newline they give the input
    back), appends ["<br>"] to exactly the pieces whose trimmed text does
    not end with [">"], joins the pieces with the empty string, and its
    output contains no newline. *)
Theorem convertNewlinesToBr_lines (html : JsString) :
  let lines := split LF html in
  join [LF] lines = html
  /\ Forall (fun l => ~ In LF l) lines
  /\ convertNewlinesToBr html
     = join [] (map (fun l => if endsWith (trim l) gt then l else l ++ br) lines)
  /\ ~ In LF (convertNewlinesToBr html).
Proof.
  cbv zeta. split; [apply join_split|]. split; [apply split_no_sep|].
  split.
  - rewrite convertNewlinesToBr_refines, join_empty. reflexivity.
  - rewrite convertNewlinesToBr_refines. unfold convertNewlinesToBr_spec.
    rewrite in_concat. intros (l & Hl & Hin).
    apply in_map_iff in Hl as (l0 & <- & Hl0).
    pose proof (split_no_sep LF html) as HF.
    rewrite List.Forall_forall in HF.
    apply (brLine_no_LF l0); [apply HF; exact Hl0 | exact Hin].
Qed.

End HtmlFacts.

(* ===================================================================== *)
(** ** The action path of [Menu]                                         *)
(* ===================================================================== *)

Module ActionFacts.
Import Js Menu Observations Samples.

Lemma closeCalls_app cs1 cs2 :
  closeCalls (cs1 ++ cs2) = closeCalls cs1 + closeCalls cs2.
Proof. unfold closeCalls. now rewrite List.filter_app, length_app. Qed.

Lemma last_app_snoc {A} (l1 l2 : list A) x : last (l1 ++ l2 ++ [x]) = Some x.
Proof. rewrite app_assoc. apply last_snoc. Qed.

Section WithApplication.

Variable App : Type.
Implicit Types (h c : Handler App) (w : World App) (item : MenuItem App).

(** The three ways through [onAction] for an item and a close
    callback. *)
Lemma onAction_no_handler e item c w :
  onClick item = None ->
  onAction e (Some item) (Some c) w
  = (fst (c (app w)),
     mkWorld (snd (c (app w))) (calls w ++ stopCalls e ++ [OnClose])).
Proof.
  intros Hh. unfold onAction, bind, invoke, record, ret. rewrite Hh.
  destruct e; simpl; destruct (c (app w)) as [o a]; simpl;
    rewrite <- ?app_assoc; reflexivity.
Qed.

Lemma onAction_handler_returns e item c h w a :
  onClick item = Some h ->
  h (app w) = (Normal tt, a) ->
  onAction e (Some item) (Some c) w
  = (fst (c a),
     mkWorld (snd (c a))
       (calls w ++ stopCalls e ++ [OnClick (key item); OnClose])).
Proof.
  intros Hh Hr. unfold onAction, bind, invoke, record, ret. rewrite Hh.
  destruct e; simpl; rewrite Hr; simpl; destruct (c a) as [o a']; simpl;
    rewrite <- ?app_assoc; reflexivity.
Qed.

Lemma onAction_handler_throws e item close h w a x :
  onClick item = Some h ->
  h (app w) = (Throw x, a) ->
  onAction e (Some item) close w
  = (Throw x, mkWorld a (calls w ++ stopCalls e ++ [OnClick (key item)])).
Proof.
  intros Hh Hr. unfold onAction, bind, invoke, record, ret. rewrite Hh.
  destruct e; simpl; rewrite Hr; simpl; rewrite <- ?app_assoc; reflexivity.
Qed.

(** Every level on screen was handed the [onClose] of the root. *)
Lemma mounted_onClose (items : list (MenuItem App)) close lvs depth its close' :
  mounted items close lvs !! depth = Some (its, close') -> close' = close.
Proof.
  revert items depth. induction lvs as [|lv lvs IH]; intros items depth; simpl.
  - discriminate.
  - destruct depth as [|depth]; simpl.
    + congruence.
    + destruct (submenu items lv) as [sub|]; [apply IH | discriminate].
Qed.

Lemma mounted_level (items : list (MenuItem App)) close lvs depth x :
  mounted items close lvs !! depth = Some x -> is_Some (lvs !! depth).
Proof.
  revert items depth. induction lvs as [|lv lvs IH]; intros items depth; simpl.
  - discriminate.
  - destruct depth as [|depth]; simpl; [eauto|].
    destruct (submenu items lv) as [sub|]; [apply IH | discriminate].
Qed.

(** A click on a visible leaf button of a level on screen is [onAction]
    for that item with the root's [onClose]. *)
Lemma clickAt_leaf (items : list (MenuItem App)) close lvs depth index its close' k d
    (ho : option (Handler App)) w :
  mounted items close lvs !! depth = Some (its, close') ->
  its !! index = Some (Button k false d ho None) ->
  clickAt items close lvs depth index w
  = (let r := onAction true (Some (Button k false d ho None)) close w in
     (fst r, snd r)).
Proof.
  intros Hm Hi. unfold clickAt. rewrite Hm.
  destruct (mounted_level _ _ _ _ Hm) as [lv ->]. rewrite Hi.
  rewrite (mounted_onClose _ _ _ _ Hm).
  unfold buttonOnClick, bind, ret. simpl.
  destruct (onAction true (Some (Button k false d ho None)) close w) as [[[]|x] w'];
    reflexivity.
Qed.

End WithApplication.

(** C1. A click handler that throws: the exception leaves [onAction]
    and [onClose] is not called. *)
Lemma onAction_throw_skips_onClose :
  onAction true (Some crashItem) (Some closeApp) world0
  = (Throw (Thrown "boom"), mkWorld 0 [StopPropagation; OnClick "delete"])
  /\ closeCalls (calls (snd (onAction true (Some crashItem) (Some closeApp) world0))) = 0.
Proof. split; reflexivity. Qed.

(** C1, as the code has it.  An exception of the item's [onClick]
    leaves [onAction] unchanged, with what the handler did to the
    application, and [onClose] is then not called; [onClose] is called,
    once and last, exactly when the item has no [onClick] or its
    [onClick] returns. *)
Theorem onAction_close_after_click (App : Type) (e : bool)
    (item : MenuItem App) (c : Handler App) (w : World App) :
  (forall h a x,
      onClick item = Some h -> h (app w) = (Throw x, a) ->
      onAction e (Some item) (Some c) w
      = (Throw x, mkWorld a (calls w ++ stopCalls e ++ [OnClick (key item)]))
      /\ closeCalls (calls (snd (onAction e (Some item) (Some c) w)))
         = closeCalls (calls w))
  /\ (forall h a,
      onClick item = Some h -> h (app w) = (Normal tt, a) ->
      onAction e (Some item) (Some c) w
      = (fst (c a),
         mkWorld (snd (c a))
           (calls w ++ stopCalls e ++ [OnClick (key item); OnClose]))
      /\ closeCalls (calls (snd (onAction e (Some item) (Some c) w)))
         = S (closeCalls (calls w)))
  /\ (onClick item = None ->
      onAction e (Some item) (Some c) w
      = (fst (c (app w)),
         mkWorld (snd (c (app w))) (calls w ++ stopCalls e ++ [OnClose]))
      /\ closeCalls (calls (snd (onAction e (Some item) (Some c) w)))
         = S (closeCalls (calls w))).
Proof.
  split; [|split].
  - intros h a x Hh Hr.
    rewrite (onAction_handler_throws e item (Some c) w Hh Hr). split; [reflexivity|].
    simpl. rewrite !closeCalls_app. destruct e; simpl; unfold closeCalls; simpl; lia.
  - intros h a Hh Hr.
    rewrite (onAction_handler_returns e item c w Hh Hr). split; [reflexivity|].
    simpl. rewrite !closeCalls_app. destruct e; simpl; unfold closeCalls; simpl; lia.
  - intros Hh.
    rewrite (onAction_no_handler e item c w Hh). split; [reflexivity|].
    simpl. rewrite !closeCalls_app. destruct e; simpl; unfold closeCalls; simpl; lia.
Qed.

Lemma onAction_close_after_click_witness :
  (onAction true (Some crashItem) (Some closeApp) world0
   = (Throw (Thrown "boom"), mkWorld 0 [StopPropagation; OnClick "delete"])
   /\ closeCalls (calls (snd (onAction true (Some crashItem) (Some closeApp) world0))) = 0)
  /\ (onAction true (Some bumpItem) (Some closeApp) world0
      = (Normal tt, mkWorld 101 [StopPropagation; OnClick "copy"; OnClose])
      /\ closeCalls (calls (snd (onAction true (Some bumpItem) (Some closeApp) world0))) = 1)
  /\ (onAction true (Some plainItem) (Some closeApp) world0
      = (Normal tt, mkWorld 100 [StopPropagation; OnClose])
      /\ closeCalls (calls (snd (onAction true (Some plainItem) (Some closeApp) world0))) = 1).
Proof.
  split; [|split].
  - exact (proj1 (onAction_close_after_click true crashItem closeApp world0)
             crash 0 (Thrown "boom") eq_refl eq_refl).
  - exact (proj1 (proj2 (onAction_close_after_click true bumpItem closeApp world0))
             bump 1 eq_refl eq_refl).
  - exact (proj2 (proj2 (onAction_close_after_click true plainItem closeApp world0))
             eq_refl).
Defined.

(** C2. A leaf of an open submenu whose handler throws: the root's
    [onClose] is not called at all. *)
Lemma nested_leaf_throw_no_close :
  mounted rootItems (Some closeApp) twoLevels !! 1
  = Some ([bumpItem; crashItem], Some closeApp)
  /\ clickAt rootItems (Some closeApp) twoLevels 1 1 world0
     = (Throw (Thrown "boom"), mkWorld 0 [StopPropagation; OnClick "delete"])
  /\ closeCalls (calls (snd (clickAt rootItems (Some closeApp) twoLevels 1 1 world0))) = 0.
Proof. repeat split; reflexivity. Qed.

(** C2, as the code has it.  At every depth of nesting, a click on a
    visible leaf button whose [onClick] is absent or returns calls the
    [onClose] the root was given, and calls it exactly once: every
    nested level was handed that same callback, so the close reaches the
    owner of the root as one notification.  No click on a leaf calls it
    more than once; when the [onClick] of the leaf throws, the click
    calls it not at all and the exception leaves the click; and the
    confirm key on a focused leaf does what the click does. *)
Theorem leaf_click_closes_root_once (App : Type)
    (items : list (MenuItem App)) (c : Handler App) (lvs : list (Level App))
    (depth index : nat) (its : list (MenuItem App)) (close : option (Handler App))
    (k : string) (d : bool) (h : option (Handler App)) (w : World App) :
  mounted items (Some c) lvs !! depth = Some (its, close) ->
  its !! index = Some (Button k false d h None) ->
  let r := clickAt items (Some c) lvs depth index w in
  close = Some c
  /\ closeCalls (calls (snd r)) <= S (closeCalls (calls w))
  /\ (forall a,
        match h with Some f => f (app w) = (Normal tt, a) | None => a = app w end ->
        closeCalls (calls (snd r)) = S (closeCalls (calls w))
        /\ fst r = fst (c a)
        /\ app (snd r) = snd (c a)
        /\ last (calls (snd r)) = Some OnClose)
  /\ (forall f a x,
        h = Some f -> f (app w) = (Throw x, a) ->
        closeCalls (calls (snd r)) = closeCalls (calls w)
        /\ r = (Throw x, mkWorld a (calls w ++ [StopPropagation; OnClick k])))
  /\ (forall lv,
        lvs !! depth = Some lv ->
        at_index its (focusIndex lv) = Some (Button k false d h None) ->
        confirmAt items (Some c) lvs depth w = r).
Proof.
  intros Hm Hi r. subst r.
  pose proof (mounted_onClose _ _ _ _ Hm) as Hclose.
  pose proof (clickAt_leaf _ _ _ _ _ w Hm Hi) as Hclick.
  cbv zeta in Hclick. rewrite <- surjective_pairing in Hclick.
  set (item := Button k false d h None) in *.
  split; [exact Hclose|].
  assert (Hconfirm : forall lv,
            lvs !! depth = Some lv ->
            at_index its (focusIndex lv) = Some item ->
            confirmAt items (Some c) lvs depth w
            = clickAt items (Some c) lvs depth index w).
  { intros lv Hlv Hfocus. rewrite Hclick.
    unfold confirmAt, focusOnAction. rewrite Hm, Hlv, Hfocus, Hclose.
    reflexivity. }
  cut (closeCalls (calls (snd (clickAt items (Some c) lvs depth index w)))
       <= S (closeCalls (calls w))
       /\ (forall a,
             match h with
             | Some f => f (app w) = (Normal tt, a)
             | None => a = app w
             end ->
             closeCalls (calls (snd (clickAt items (Some c) lvs depth index w)))
             = S (closeCalls (calls w))
             /\ fst (clickAt items (Some c) lvs depth index w) = fst (c a)
             /\ app (snd (clickAt items (Some c) lvs depth index w)) = snd (c a)
             /\ last (calls (snd (clickAt items (Some c) lvs depth index w)))
                = Some OnClose)
       /\ (forall f a x,
             h = Some f -> f (app w) = (Throw x, a) ->
             closeCalls (calls (snd (clickAt items (Some c) lvs depth index w)))
             = closeCalls (calls w)
             /\ clickAt items (Some c) lvs depth index w
                = (Throw x, mkWorld a (calls w ++ [StopPropagation; OnClick k])))).
  { intros (HA & HB & HT). split; [exact HA|]. split; [exact HB|].
    split; [exact HT|exact Hconfirm]. }
  clear Hconfirm. rewrite Hclick. clear Hclick.
  destruct h as [f|].
  - destruct (f (app w)) as [[[]|x] a0] eqn:Hf.
    + rewrite (onAction_handler_returns true item c w (h := f) eq_refl Hf).
      cbn [fst snd calls app]. rewrite !closeCalls_app.
      split; [unfold closeCalls; simpl; lia|]. split.
      * intros a [= <-]. repeat split.
        -- unfold closeCalls. simpl. lia.
        -- exact (last_app_snoc (calls w) [StopPropagation; OnClick (key item)] OnClose).
      * intros f' a x [= <-] Hf'. rewrite Hf in Hf'. discriminate.
    + rewrite (onAction_handler_throws true item (Some c) w (h := f) eq_refl Hf).
      cbn [fst snd calls app]. rewrite !closeCalls_app.
      split; [unfold closeCalls; simpl; lia|]. split.
      * intros a [=].
      * intros f' a x' [= <-] Hf'. rewrite Hf in Hf'. injection Hf' as <- <-.
        split; [unfold closeCalls; simpl; lia|reflexivity].
  - rewrite (onAction_no_handler true item c w eq_refl).
    cbn [fst snd calls app]. rewrite !closeCalls_app.
    split; [unfold closeCalls; simpl; lia|]. split.
    + intros a ->. repeat split.
      * unfold closeCalls. simpl. lia.
      * exact (last_app_snoc (calls w) [StopPropagation] OnClose).
    + intros f a x [=].
Qed.

Lemma leaf_click_closes_root_once_witness :
  closeCalls (calls (snd (clickAt rootItems (Some closeApp) twoLevels 1 0 world0))) = 1
  /\ clickAt rootItems (Some closeApp) twoLevels 1 0 world0
     = (Normal tt, mkWorld 101 [StopPropagation; OnClick "copy"; OnClose])
  /\ closeCalls (calls (snd (clickAt rootItems (Some closeApp) twoLevels 1 1 world0))) = 0.
Proof.
  pose proof (leaf_click_closes_root_once rootItems closeApp twoLevels 1 0
                (k := "copy") (d := false) (h := Some bump) world0
                eq_refl eq_refl) as H.
  cbv zeta in H. destruct H as (_ & _ & H & _).
  destruct (H 1 eq_refl) as (Hc & _).
  pose proof (leaf_click_closes_root_once rootItems closeApp twoLevels 1 1
                (k := "delete") (d := false) (h := Some crash) world0
                eq_refl eq_refl) as H'.
  cbv zeta in H'. destruct H' as (_ & _ & _ & H' & _).
  destruct (H' crash 0 (Thrown "boom") eq_refl eq_refl) as (Ht & _).
  split; [exact Hc|]. split; [reflexivity|exact Ht].
Defined.

End ActionFacts.

(* ===================================================================== *)
(** ** The hover timer                                                   *)
(* ===================================================================== *)

Module HoverFacts.
Import Js Menu Position Observations Samples.

Section WithApplication.

Variable App : Type.
Implicit Types (lv : Level App) (item : MenuItem App)
  (items : list (MenuItem App)).

Lemma clearTimeout_oneTimer lv :
  oneTimer lv -> pending (clearTimeout (hoverTimeout lv) lv) = [].
Proof.
  unfold oneTimer, clearTimeout.
  destruct (pending lv) as [|[id t] [|]] eqn:E; try contradiction.
  - intros _. destruct (hoverTimeout lv); simpl; rewrite ?E; reflexivity.
  - intros ->. simpl. rewrite ?E. simpl. now rewrite Nat.eqb_refl.
Qed.

Lemma clearTimeout_fields o lv :
  focusIndex (clearTimeout o lv) = focusIndex lv
  /\ isSubmenuOpen (clearTimeout o lv) = isSubmenuOpen lv
  /\ hoverTimeout (clearTimeout o lv) = hoverTimeout lv
  /\ nextId (clearTimeout o lv) = nextId lv
  /\ now (clearTimeout o lv) = now lv.
Proof. destruct o; repeat split; reflexivity. Qed.

Lemma setHoverTimeout_after_clear lv (open : bool) index item :
  oneTimer lv ->
  setHoverTimeout open index item (clearTimeout (hoverTimeout lv) lv)
  = mkLevel (focusIndex lv) (isSubmenuOpen lv) (Some (nextId lv))
      [(nextId lv, mkTimeout (now lv + hoverDelay) open index item)]
      (S (nextId lv)) (now lv).
Proof.
  intros Hw. unfold setHoverTimeout.
  rewrite (clearTimeout_oneTimer lv Hw).
  destruct (clearTimeout_fields (hoverTimeout lv) lv) as (-> & -> & _ & -> & ->).
  reflexivity.
Qed.

(** The state right after the pointer enters an enabled button. *)
Lemma onMouseEnter_enabled item index lv :
  oneTimer lv -> isDisabled item = false ->
  onMouseEnter item index lv
  = mkLevel (if isSubmenuOpen lv then focusIndex lv else Z.of_nat index)
      (isSubmenuOpen lv) (Some (nextId lv))
      [(nextId lv, mkTimeout (now lv + hoverDelay) (isSubmenuOpen lv) index item)]
      (S (nextId lv)) (now lv).
Proof.
  intros Hw Hd. unfold onMouseEnter. rewrite Hd.
  destruct (isSubmenuOpen lv) eqn:Ho; cbn [negb].
  - rewrite setHoverTimeout_after_clear by exact Hw. now rewrite Ho.
  - rewrite setHoverTimeout_after_clear by exact Hw.
    simpl. now rewrite Ho.
Qed.

Lemma elapse_idle d lv :
  pending lv = [] ->
  elapse d lv
  = mkLevel (focusIndex lv) (isSubmenuOpen lv) (hoverTimeout lv) []
            (nextId lv) (now lv + d).
Proof. intros H. unfold elapse. now rewrite H. Qed.

Lemma elapse_early d lv id t :
  pending lv = [(id, t)] -> (now lv + d < deadline t)%N ->
  elapse d lv
  = mkLevel (focusIndex lv) (isSubmenuOpen lv) (hoverTimeout lv) [(id, t)]
            (nextId lv) (now lv + d).
Proof.
  intros H Hlt. unfold elapse. rewrite H. simpl. unfold isDue. simpl.
  destruct (N.leb_spec (deadline t) (now lv + d)); [lia|]. reflexivity.
Qed.

Lemma elapse_due d lv id t :
  pending lv = [(id, t)] -> (deadline t <= now lv + d)%N ->
  elapse d lv
  = fire t (mkLevel (focusIndex lv) (isSubmenuOpen lv) (hoverTimeout lv) []
                    (nextId lv) (now lv + d)).
Proof.
  intros H Hle. unfold elapse. rewrite H. simpl. unfold isDue. simpl.
  destruct (N.leb_spec (deadline t) (now lv + d)); [|lia]. reflexivity.
Qed.

(** One focus index selects at most one position. *)
Lemma filter_index (f : Z) (b : bool) (a n : nat) :
  List.filter (fun i => Z.eqb f (Z.of_nat i) && b) (seq a n)
  = if b && (Z.leb (Z.of_nat a) f) && (Z.ltb f (Z.of_nat (a + n)))
    then [Z.to_nat f] else [].
Proof.
  revert a. induction n as [|n IH]; intros a.
  - cbn [seq List.filter].
    destruct b, (Z.leb_spec (Z.of_nat a) f), (Z.ltb_spec f (Z.of_nat (a + 0)));
      simpl; try reflexivity; lia.
  - cbn [seq List.filter]. rewrite IH.
    replace (S a + n) with (a + S n) by lia.
    destruct b; [|rewrite andb_false_r; reflexivity].
    rewrite andb_true_r. cbn [andb].
    destruct (Z.eqb_spec f (Z.of_nat a)) as [->|Hne].
    + rewrite Nat2Z.id.
      destruct (Z.leb_spec (Z.of_nat (S a)) (Z.of_nat a)); [lia|].
      destruct (Z.leb_spec (Z.of_nat a) (Z.of_nat a)); [|lia].
      destruct (Z.ltb_spec (Z.of_nat a) (Z.of_nat (a + S n))); [|lia].
      reflexivity.
    + destruct (Z.leb_spec (Z.of_nat (S a)) f), (Z.leb_spec (Z.of_nat a) f);
        simpl; try lia; reflexivity.
Qed.

Lemma openSubmenus_eq items lv :
  openSubmenus items lv
  = match submenu items lv with
    | Some _ => [Z.to_nat (focusIndex lv)]
    | None => []
    end.
Proof.
  unfold openSubmenus, showsSubmenuOf.
  rewrite (filter_index (focusIndex lv)
             (match submenu items lv with Some _ => true | None => false end)
             0 (length items)).
  destruct (submenu items lv) as [m|] eqn:E; simpl; [|reflexivity].
  unfold submenu, at_index in E.
  destruct (Z.ltb_spec (focusIndex lv) 0); [discriminate|].
  destruct (items !! Z.to_nat (focusIndex lv)) eqn:El; [|discriminate].
  apply lookup_lt_Some in El.
  change (Z.of_nat 0) with 0%Z. cbn [andb Nat.add].
  destruct (Z.leb_spec 0 (focusIndex lv)); [|lia].
  destruct (Z.ltb_spec (focusIndex lv) (Z.of_nat (length items))); [reflexivity|lia].
Qed.

(** At any moment a level shows at most one submenu. *)
Lemma openSubmenus_at_most_one items lv : length (openSubmenus items lv) <= 1.
Proof. rewrite openSubmenus_eq. destruct (submenu items lv); simpl; lia. Qed.

Lemma at_index_of_nat {A} (l : list A) (i : nat) :
  at_index l (Z.of_nat i) = l !! i.
Proof.
  unfold at_index. destruct (Z.ltb_spec (Z.of_nat i) 0); [lia|].
  now rewrite Nat2Z.id.
Qed.

Lemma submenu_ext items lv lv' :
  focusIndex lv' = focusIndex lv -> isSubmenuOpen lv' = isSubmenuOpen lv ->
  submenu items lv' = submenu items lv.
Proof. intros Hf Ho. unfold submenu. now rewrite Hf, Ho. Qed.

Lemma submenu_closed items lv : isSubmenuOpen lv = false -> submenu items lv = None.
Proof.
  intros Ho. unfold submenu. rewrite Ho.
  destruct (at_index items (focusIndex lv)) as [[| ? ? ? ? [|] |]|]; reflexivity.
Qed.

Lemma submenu_unfocused items lv : focusIndex lv = (-1)%Z -> submenu items lv = None.
Proof. intros Hf. unfold submenu. now rewrite Hf. Qed.

(** C8. The pointer enters a disabled button: the focus index becomes
    -1, so the item is not focused, and the handler returns at once: no
    timer is set or cleared, the ref and [isSubmenuOpen] keep their
    values, and the level shows no submenu; with no timer pending from
    before, none appears later either. *)
Theorem disabled_hover_clears_focus (items : list (MenuItem App))
    (lv : Level App) (index : nat) (item : MenuItem App) :
  isDisabled item = true ->
  let lv' := onMouseEnter item index lv in
  focusIndex lv' = (-1)%Z
  /\ focusIndex lv' <> Z.of_nat index
  /\ isSubmenuOpen lv' = isSubmenuOpen lv
  /\ hoverTimeout lv' = hoverTimeout lv
  /\ pending lv' = pending lv
  /\ nextId lv' = nextId lv
  /\ submenu items lv' = None
  /\ openSubmenus items lv' = []
  /\ (pending lv = [] -> forall d, submenu items (elapse d lv') = None).
Proof.
  intros Hd lv'. subst lv'. unfold onMouseEnter. rewrite Hd.
  repeat split; try reflexivity.
  - simpl. lia.
  - rewrite openSubmenus_eq. reflexivity.
  - intros Hp d. rewrite elapse_idle by exact Hp. reflexivity.
Qed.

(** C3. The pointer enters a button and leaves it before the hover
    delay has passed: the timer of that hover is cleared before it
    fires, nothing is pending afterwards, and however much time passes
    then, [isSubmenuOpen] keeps the value it had before the hover and the
    level shows no submenu that was not already on screen.  The level is
    in a state it can reach: at most the timer of the ref is pending,
    and none when the button is disabled, whose [onMouseEnter] clears
    nothing. *)
Theorem short_hover_opens_nothing (items : list (MenuItem App))
    (lv : Level App) (index : nat) (item : MenuItem App) (d : N) :
  oneTimer lv ->
  (isDisabled item = true -> pending lv = []) ->
  (d < hoverDelay)%N ->
  let left := onMouseLeave (elapse d (onMouseEnter item index lv)) in
  pending left = []
  /\ isSubmenuOpen left = isSubmenuOpen lv
  /\ forall d',
       let later := elapse d' left in
       pending later = []
       /\ isSubmenuOpen later = isSubmenuOpen lv
       /\ focusIndex later = focusIndex left
       /\ forall m, submenu items later = Some m -> submenu items lv = Some m.
Proof.
  intros Hw Hq Hd. cbv zeta.
  destruct (isDisabled item) eqn:Hdis.
  - specialize (Hq eq_refl).
    assert (He : onMouseEnter item index lv = setFocusIndex (-1) lv)
      by (unfold onMouseEnter; now rewrite Hdis).
    rewrite He. rewrite elapse_idle by exact Hq.
    set (left := onMouseLeave _).
    assert (Hl : pending left = [])
      by (subst left; unfold onMouseLeave, clearTimeout; simpl;
          destruct (hoverTimeout lv); reflexivity).
    assert (Hf : focusIndex left = (-1)%Z)
      by (subst left; unfold onMouseLeave, clearTimeout; simpl;
          destruct (hoverTimeout lv); reflexivity).
    assert (Ho : isSubmenuOpen left = isSubmenuOpen lv)
      by (subst left; unfold onMouseLeave, clearTimeout; simpl;
          destruct (hoverTimeout lv); reflexivity).
    repeat split; try assumption.
    + now rewrite elapse_idle.
    + now rewrite elapse_idle.
    + now rewrite elapse_idle.
    + intros m. rewrite elapse_idle by exact Hl.
      rewrite submenu_unfocused by (simpl; exact Hf). discriminate.
  - rewrite onMouseEnter_enabled by assumption.
    erewrite elapse_early; [|reflexivity|simpl; unfold hoverDelay in *; lia].
    cbn [focusIndex isSubmenuOpen hoverTimeout nextId now].
    unfold onMouseLeave, clearTimeout.
    cbn [focusIndex isSubmenuOpen hoverTimeout nextId now pending List.filter fst].
    rewrite Nat.eqb_refl. cbn [negb].
    repeat split; try reflexivity.
    intros m. rewrite elapse_idle by reflexivity.
    cbn [focusIndex isSubmenuOpen hoverTimeout nextId now pending].
    destruct (isSubmenuOpen lv) eqn:Ho.
    + intros Hs. rewrite <- Hs. symmetry. apply submenu_ext; simpl; [reflexivity|].
      exact (eq_sym Ho).
    + rewrite submenu_closed by reflexivity. discriminate.
Qed.

Section WithDocument.

Variables (Node Num : Type) (getPosition : Node -> Node -> Outcome (Num * Num)).

(** C4. The pointer enters an enabled, visible button that has a nested
    menu and stays for the hover delay or longer: the timer fires, the
    focus index is the index of that button, [isSubmenuOpen] is true, the
    level shows the menu of that button and of no other position, and the
    positioning effect places it against the element whose id is made
    from the key of that button.  Whatever the state, a level shows at
    most one submenu. *)
Theorem long_hover_opens_submenu (items : list (MenuItem App))
    (lv : Level App) (index : nat) (k : string)
    (h : option (Handler App)) (m : list (MenuItem App)) (d : N) :
  oneTimer lv ->
  items !! index = Some (Button k false false h (Some m)) ->
  (hoverDelay <= d)%N ->
  let lv' := elapse d (onMouseEnter (Button k false false h (Some m)) index lv) in
  focusIndex lv' = Z.of_nat index
  /\ isSubmenuOpen lv' = true
  /\ pending lv' = []
  /\ submenu items lv' = Some m
  /\ openSubmenus items lv' = [index]
  /\ (forall (document : string -> option Node) (el : Flex Node Num) target t l,
        document (k ++ "-menu-item")%string = Some target ->
        getPosition (node el) target = Normal (t, l) ->
        positionEffect getPosition document items lv' (Some el)
        = Normal (Some (mkFlex (node el) (mkStyle Visible (Some t) (Some l)))))
  /\ (forall lv0 : Level App, length (openSubmenus items lv0) <= 1).
Proof.
  intros Hw Hi Hd. cbv zeta.
  assert (Hlv : elapse d (onMouseEnter (Button k false false h (Some m)) index lv)
                = mkLevel (Z.of_nat index) true (Some (nextId lv)) []
                          (S (nextId lv)) (now lv + d)).
  { rewrite onMouseEnter_enabled by (try assumption; reflexivity).
    erewrite elapse_due; [|reflexivity|simpl; lia].
    unfold fire. simpl. destruct (isSubmenuOpen lv); reflexivity. }
  rewrite Hlv. clear Hlv.
  set (lv' := mkLevel _ _ _ _ _ _).
  assert (Hf : focusIndex lv' = Z.of_nat index) by reflexivity.
  assert (Ho : isSubmenuOpen lv' = true) by reflexivity.
  assert (Hp : pending lv' = []) by reflexivity.
  assert (Hs : submenu items lv' = Some m).
  { unfold submenu. rewrite Hf, at_index_of_nat, Hi, Ho. reflexivity. }
  repeat split; try assumption.
  - rewrite openSubmenus_eq, Hs, Hf, Nat2Z.id. reflexivity.
  - intros document el target t l Hdoc Hpos. unfold positionEffect.
    rewrite Hf, at_index_of_nat, Hi. unfold anchorId. cbn [key].
    rewrite Hdoc, Ho. cbn [negb]. rewrite Hpos. reflexivity.
  - intros lv0. apply openSubmenus_at_most_one.
Qed.

End WithDocument.

End WithApplication.

Lemma disabled_hover_clears_focus_witness :
  focusIndex (onMouseEnter (Button "c" false true None (Some sub)) 2 idle) = (-1)%Z
  /\ submenu items0 (onMouseEnter (Button "c" false true None (Some sub)) 2 idle) = None.
Proof.
  pose proof (disabled_hover_clears_focus items0 idle 2
                (Button "c" false true None (Some sub)) eq_refl) as H.
  cbv zeta in H. destruct H as (H1 & _ & _ & _ & _ & _ & H2 & _).
  exact (conj H1 H2).
Defined.

Lemma short_hover_opens_nothing_witness :
  isSubmenuOpen
    (elapse 5000
       (onMouseLeave (elapse 199 (onMouseEnter (Button "b" false false None (Some sub)) 1 idle))))
  = false.
Proof.
  assert (Hw : oneTimer idle) by exact I.
  assert (Hq : isDisabled (Button (App:=nat) "b" false false None (Some sub)) = true
               -> pending idle = []) by reflexivity.
  assert (Hd : (199 < hoverDelay)%N) by reflexivity.
  pose proof (short_hover_opens_nothing items0 idle 1
                (Button "b" false false None (Some sub)) Hw Hq Hd) as H.
  cbv zeta in H. destruct H as (_ & _ & H).
  destruct (H 5000%N) as (_ & Ho & _). exact Ho.
Defined.

Lemma long_hover_opens_submenu_witness :
  submenu items0 (elapse 200 (onMouseEnter (Button "b" false false None (Some sub)) 1 idle))
  = Some sub
  /\ openSubmenus items0
       (elapse 200 (onMouseEnter (Button "b" false false None (Some sub)) 1 idle))
     = [1].
Proof.
  assert (Hw : oneTimer idle) by exact I.
  assert (Hd : (hoverDelay <= 200)%N) by (vm_compute; discriminate).
  pose proof (long_hover_opens_submenu (Node := nat) (Num := Z)
                (fun _ _ => Normal (0%Z, 0%Z)) items0 idle 1
                (k := "b") (h := None) (m := sub) Hw eq_refl Hd) as H.
  cbv zeta in H. destruct H as (_ & _ & _ & H1 & H2 & _).
  exact (conj H1 H2).
Defined.

End HoverFacts.

(* ===================================================================== *)
(** ** The positioning effect                                            *)
(* ===================================================================== *)

Module PositionFacts.
Import Js Menu Position Observations Samples.

Section WithDocument.

Variables (App Node Num : Type).
Variable getPosition : Node -> Node -> Outcome (Num * Num).

Implicit Types (el : Flex Node Num) (items : list (MenuItem App))
  (lv : Level App) (r : Render App Node).

Lemma positioned_more (rs rs' : list (Render App Node))
    (c : option (Flex Node Num)) :
  (forall r, In r rs -> In r rs') ->
  positioned getPosition rs c -> positioned getPosition rs' c.
Proof.
  intros Hsub. destruct c as [el|]; [|auto]. cbn [positioned].
  intros H Hv. destruct (H Hv) as (r & Hr & Hp). eauto.
Qed.

(** What the effect makes of the element it finds. *)
Lemma positionEffect_cases doc items lv el c' :
  positionEffect getPosition doc items lv (Some el) = Normal c' ->
  c' = Some el
  \/ exists item target,
       at_index items (focusIndex lv) = Some item
       /\ doc (anchorId item) = Some target
       /\ ((isSubmenuOpen lv = false
            /\ c' = Some (mkFlex (node el)
                            (mkStyle Hidden (top (style el)) (left (style el)))))
           \/ (isSubmenuOpen lv = true
               /\ exists t l,
                    getPosition (node el) target = Normal (t, l)
                    /\ c' = Some (mkFlex (node el)
                                    (mkStyle Visible (Some t) (Some l))))).
Proof.
  unfold positionEffect.
  destruct (at_index items (focusIndex lv)) as [item|]; [|intros [= <-]; now left].
  destruct (doc (anchorId item)) as [target|] eqn:Hd; [|intros [= <-]; now left].
  destruct (isSubmenuOpen lv); cbn [negb].
  - destruct (getPosition (node el) target) as [[t l]|e] eqn:Hp; [|discriminate].
    intros [= <-]. right. exists item, target. repeat split; try assumption.
    right. split; [reflexivity|]. exists t, l. auto.
  - intros [= <-]. right. exists item, target. repeat split; try assumption.
    left. auto.
Qed.

Lemma positionEffect_missing doc items lv (c : option (Flex Node Num)) :
  (forall item, at_index items (focusIndex lv) = Some item ->
                doc (anchorId item) = None) ->
  positionEffect getPosition doc items lv c = Normal c.
Proof.
  intros H. unfold positionEffect.
  destruct (at_index items (focusIndex lv)) as [item|]; [|reflexivity].
  destruct c as [el|]; [|reflexivity].
  now rewrite (H item eq_refl).
Qed.

Lemma renderPass_positioned r (rs : list (Render App Node)) c :
  positioned getPosition rs c ->
  positioned getPosition (rs ++ [r]) (renderPass getPosition r c).
Proof.
  intros H.
  assert (Hc : positioned getPosition (rs ++ [r])
                 (commitRef (rItems r) (rLevel r) (rFresh r) c)).
  { unfold commitRef. destruct (submenu (rItems r) (rLevel r)); [|exact I].
    destruct c as [el|].
    - apply (positioned_more rs); [|exact H]. intros x Hx. apply in_or_app. now left.
    - intros Hv. discriminate. }
  unfold renderPass. destruct (rEffect r) eqn:He; [|exact Hc].
  destruct (commitRef (rItems r) (rLevel r) (rFresh r) c) as [el|] eqn:Ec.
  - destruct (positionEffect getPosition (document r) (rItems r) (rLevel r) (Some el))
      as [c'|e] eqn:E; [|exact Hc].
    apply positionEffect_cases in E
      as [->|(item & target & Hi & Hd & [[_ ->]|(Ho & t & l & Hp & ->)])].
    + exact Hc.
    + intros Hv. discriminate.
    + intros _. exists r. split; [apply in_or_app; right; now left|].
      split; [exact He|]. split; [exact Ho|].
      exists item, target, t, l. cbn [node style top left]. auto.
  - unfold positionEffect.
    destruct (at_index (rItems r) (focusIndex (rLevel r))); exact I.
Qed.

Lemma renders_positioned (rs : list (Render App Node)) :
  forall (seen : list (Render App Node)) c,
  positioned getPosition seen c ->
  positioned getPosition (seen ++ rs)
    (fold_left (fun cur r => renderPass getPosition r cur) rs c).
Proof.
  induction rs as [|r rs IH]; intros seen c H; cbn [fold_left].
  - now rewrite app_nil_r.
  - replace (seen ++ r :: rs) with ((seen ++ [r]) ++ rs)
      by (now rewrite <- app_assoc).
    apply IH, renderPass_positioned, H.
Qed.

(** C7, as the code has it.  The submenu element is mounted hidden and
    without coordinates.  Whatever an effect makes of an element, it
    leaves it as it was, hides it, or makes it visible with exactly the
    [top] and [left] that [getPosition] has returned for the anchor
    element of the item in focus.  So through any sequence of renders a
    visible element has been put where it is by the effect of one of
    those renders, for the anchor of the item then in focus, and an
    element none of whose renders found an anchor is hidden.  When the
    anchor element is missing the effect returns without an exception
    and leaves the element as it was: a render then keeps the element
    of the submenu shown before unchanged, visible if it was visible. *)
Theorem submenu_visible_only_positioned :
  (forall items lv fresh el,
      commitRef items lv fresh None = Some el ->
      visibility (style el) = Hidden
      /\ top (style el) = None /\ left (style el) = None)
  /\ (forall doc items lv el c',
      positionEffect getPosition doc items lv (Some el) = Normal c' ->
      c' = Some el
      \/ exists item target,
           at_index items (focusIndex lv) = Some item
           /\ doc (anchorId item) = Some target
           /\ ((isSubmenuOpen lv = false
                /\ c' = Some (mkFlex (node el)
                                (mkStyle Hidden (top (style el)) (left (style el)))))
               \/ (isSubmenuOpen lv = true
                   /\ exists t l,
                        getPosition (node el) target = Normal (t, l)
                        /\ c' = Some (mkFlex (node el)
                                        (mkStyle Visible (Some t) (Some l))))))
  /\ (forall (rs : list (Render App Node)) el,
      afterRenders getPosition rs = Some el ->
      visibility (style el) = Visible ->
      exists r, In r rs /\ positionedAt getPosition r el)
  /\ (forall (rs : list (Render App Node)) el,
      Forall (@anchorMissing App Node) rs ->
      afterRenders getPosition rs = Some el ->
      visibility (style el) = Hidden)
  /\ (forall doc items lv (c : option (Flex Node Num)),
      (forall item, at_index items (focusIndex lv) = Some item ->
                    doc (anchorId item) = None) ->
      positionEffect getPosition doc items lv c = Normal c)
  /\ (forall r el m,
      submenu (rItems r) (rLevel r) = Some m ->
      anchorMissing r ->
      renderPass getPosition r (Some el) = Some el).
Proof.
  assert (Hall : forall (rs : list (Render App Node)) el,
            afterRenders getPosition rs = Some el ->
            visibility (style el) = Visible ->
            exists r, In r rs /\ positionedAt getPosition r el).
  { intros rs el H.
    pose proof (renders_positioned rs [] None I) as Hr.
    unfold afterRenders in H. rewrite H in Hr. exact Hr. }
  split; [|split; [|split; [|split; [|split]]]].
  - intros items lv fresh el. unfold commitRef.
    destruct (submenu items lv); [|discriminate].
    intros [= <-]. repeat split.
  - intros doc items lv el c'. apply positionEffect_cases.
  - exact Hall.
  - intros rs el HF H.
    destruct (visibility (style el)) eqn:Hv; [reflexivity|].
    destruct (Hall rs el H Hv)
      as (r & Hr & _ & _ & item & target & t & l & Hi & Hd & _).
    rewrite List.Forall_forall in HF. rewrite (HF r Hr item Hi) in Hd. discriminate.
  - intros doc items lv c. apply positionEffect_missing.
  - intros r el m Hs Hm. unfold renderPass, commitRef. rewrite Hs.
    destruct (rEffect r); [|reflexivity].
    now rewrite (positionEffect_missing _ _ _ _ Hm).
Qed.

End WithDocument.

(** C7. The submenu of ["file"] is on screen, positioned against its
    anchor; the pointer rests on ["edit"], whose anchor element is not in
    the document.  The next render shows the submenu of ["edit"] in the
    same element, and the effect leaves it as it is: visible, at the
    coordinates of ["file"]. *)
Lemma kept_submenu_visible_without_anchor :
  afterRenders measure [fileRender]
  = Some (mkFlex 1 (mkStyle Visible (Some 7%Z) (Some 220%Z)))
  /\ focusIndex movedToEdit = 1%Z /\ isSubmenuOpen movedToEdit = true
  /\ submenu menuBar movedToEdit = Some [Button "undo" false false None None]
  /\ document editRender (anchorId editItem) = None
  /\ positionEffect measure (document editRender) menuBar movedToEdit
       (Some (mkFlex 1 (mkStyle Visible (Some 7%Z) (Some 220%Z))))
     = Normal (Some (mkFlex 1 (mkStyle Visible (Some 7%Z) (Some 220%Z))))
  /\ afterRenders measure [fileRender; editRender]
     = Some (mkFlex 1 (mkStyle Visible (Some 7%Z) (Some 220%Z))).
Proof. repeat split; reflexivity. Qed.

Lemma submenu_visible_only_positioned_witness :
  positionEffect measure (documentWith "other" 7) menuItems opened
    (Some (mkFlex 1 (initialStyle Z)))
  = Normal (Some (mkFlex 1 (initialStyle Z)))
  /\ visibility
       (style (mkFlex 1 (initialStyle Z)))
     = Hidden
  /\ renderPass measure editRender
       (Some (mkFlex 1 (mkStyle Visible (Some 7%Z) (Some 220%Z))))
     = Some (mkFlex 1 (mkStyle Visible (Some 7%Z) (Some 220%Z)))
  /\ (exists r,
        In r [fileRender]
        /\ positionedAt measure r (mkFlex 1 (mkStyle Visible (Some 7%Z) (Some 220%Z)))).
Proof.
  destruct (@submenu_visible_only_positioned nat nat Z measure)
    as (_ & _ & Hpos & Hhid & Hmiss & Hkeep).
  assert (Hm : forall item,
            at_index menuItems (focusIndex opened) = Some item ->
            documentWith "other" 7 (anchorId item) = None).
  { intros item Hitem. vm_compute in Hitem. injection Hitem as <-. reflexivity. }
  assert (He : anchorMissing editRender).
  { intros item Hitem. vm_compute in Hitem. injection Hitem as <-. reflexivity. }
  split; [exact (Hmiss _ _ _ _ Hm)|].
  split.
  - apply (Hhid [mkRender (documentWith "other" 7) menuItems opened 1 true]).
    + constructor; [exact Hm|constructor].
    + reflexivity.
  - split.
    + exact (Hkeep editRender _ [Button "undo" false false None None] eq_refl He).
    + exact (Hpos [fileRender] _ eq_refl eq_refl).
Defined.

End PositionFacts.

(* ===================================================================== *)
(** ** Keyboard navigation and the focus index                           *)
(* ===================================================================== *)

Module FocusFacts.
Import Js Menu UseFocus Observations Samples.

Section WithApplication.

Variable App : Type.
Implicit Types (items : list (MenuItem App)) (lv : Level App)
  (item : MenuItem App).














(** *** What the focus index can refer to *)














(** A computation that hands back the level it was given. *)
Lemma then_ret {A} (m : M App A) lv (w : World App) (lv' : Level App) w' :
  bind m (fun _ => ret lv) w = (Normal lv', w') -> lv' = lv.
Proof.
  unfold bind, ret. destruct (m w) as [[a|e] w1]; [|discriminate]. congruence.
Qed.






Lemma rendered_button items lv k item index f :
  In (MenuButton k item index f) (renderItems items lv) ->
  items !! index = Some item /\ isHidden item = false /\ isButton item = true.
Proof.
  intros H. apply list_elem_of_In in H. unfold renderItems in H.
  apply list_elem_of_omap in H as (o & Ho & Hsome). simpl in Hsome. subst o.
  apply elem_of_lookup_imap in Ho as (i & x & Hr & Hx).
  unfold renderItem in Hr. destruct (isHidden x) eqn:Hh; [discriminate|].
  destruct x; inversion Hr; subst. auto.
Qed.

(** *** The hover timer over the life of a level *)

Lemma fire_all_timers (due : list (nat * Timeout App)) lv :
  pending (fold_left (fun l x => fire (snd x) l) due lv) = pending lv
  /\ hoverTimeout (fold_left (fun l x => fire (snd x) l) due lv) = hoverTimeout lv.
Proof.
revert lv. induction due as [|x due IH]; intros lv; simpl; [auto|].
destruct (IH (fire (snd x) lv)) as [-> ->]. unfold fire.
destruct (cIsSubmenuOpen (snd x)), (menu (cItem (snd x))); auto.
Qed.

Lemma oneTimer_elapse d lv : oneTimer lv -> oneTimer (elapse d lv).
Proof.
unfold oneTimer, elapse. intros H.
destruct (fire_all_timers
            (List.filter (isDue (now lv + d)) (pending lv))
            (mkLevel (focusIndex lv) (isSubmenuOpen lv) (hoverTimeout lv)
               (List.filter (fun x => negb (isDue (now lv + d) x)) (pending lv))
               (nextId lv) (now lv + d)%N)) as [-> ->].
cbn [pending hoverTimeout].
destruct (pending lv) as [|[id t] [|]]; try contradiction; simpl; [exact I|].
destruct (isDue (now lv + d) (id, t)); simpl; [exact I|exact H].
Qed.

Lemma oneTimer_dispatch items onClose ev lv w lv' w' :
  oneTimer lv ->
  dispatch items onClose ev lv w = (Normal lv', w') -> oneTimer lv'.
Proof.
intros Hv. destruct ev as [i|i|i|d|k]; simpl.
- destruct (items !! i) as [[| key [|] dis h m |]|] eqn:Hi;
    intros [= <- <-]; try exact Hv.
  destruct dis.
  + exact Hv.
  + rewrite HoverFacts.onMouseEnter_enabled by (try assumption; reflexivity).
    reflexivity.
- destruct (items !! i) as [[| key [|] dis h m |]|] eqn:Hi;
    intros [= <- <-]; try exact Hv.
  unfold oneTimer, onMouseLeave.
  now rewrite HoverFacts.clearTimeout_oneTimer.
- destruct (items !! i) as [[| key [|] [|] h m | key [|]]|] eqn:Hi;
    try (intros [= <- <-]; exact Hv).
  + unfold buttonOnClick. simpl. destruct m as [sub|].
    * intros [= <- <-]. exact Hv.
    * intros H. apply then_ret in H. now subst.
  + unfold popupOnClick. intros H. apply then_ret in H. now subst.
- intros [= <- <-]. now apply oneTimer_elapse.
- destruct k; simpl.
  + intros [= <- <-]. exact Hv.
  + intros [= <- <-]. exact Hv.
  + destruct (at_index items (focusIndex lv)) as [[| ? ? ? ? [sub|] |]|];
      try (intros H; apply then_ret in H; now subst).
    intros [= <- <-]. exact Hv.
  + intros H. apply then_ret in H. now subst.
Qed.

(** Every state a level reaches from its mount has at most the timer of
    the ref pending. *)
Lemma oneTimer_run items onClose evs (s : Level App * World App) :
  oneTimer (fst s) -> oneTimer (fst (run items onClose evs s)).
Proof.
revert s. induction evs as [|ev evs IH]; intros s Hv; simpl; [exact Hv|].
apply IH. unfold deliver.
destruct (dispatch items onClose ev (fst s) (snd s)) as [[lv'|e] w'] eqn:E;
  [|exact Hv].
eapply oneTimer_dispatch; eassumption.
Qed.

(** *** The click handlers a level calls *)








End WithApplication.




End FocusFacts.

(* ===================================================================== *)
(** ** [JSON.parse] reads back what [JSON.stringify] writes              *)
(* ===================================================================== *)

Module JsonFacts.
Import Js Json.

Unset Implicit Arguments.

(** *** Strings *)

Lemma hexValue_hexDigit (d : N) : (d < 16)%N -> hexValue (hexDigit d) = Some d.
Proof.
intros Hd. unfold hexValue, hexDigit, isDigit.
destruct (N.ltb_spec d 10).
- destruct (N.leb_spec 48 (48 + d)), (N.leb_spec (48 + d) 57); simpl; try lia.
  f_equal. lia.
- destruct (N.leb_spec 48 (87 + d)), (N.leb_spec (87 + d) 57); simpl; try lia.
  destruct (N.leb_spec 97 (87 + d)), (N.leb_spec (87 + d) 102); simpl; try lia.
  f_equal. lia.
Qed.

Lemma hex4_unicodeEscape (c : N) :
  (c < 65536)%N ->
  hex4 (hexDigit (c / 4096)) (hexDigit ((c / 256) mod 16))
       (hexDigit ((c / 16) mod 16)) (hexDigit (c mod 16)) = Some c.
Proof.
intros Hc. unfold hex4.
rewrite !hexValue_hexDigit;
  try (apply N.mod_lt; discriminate);
  try (apply N.Div0.div_lt_upper_bound; exact Hc).
f_equal. zify. Z.to_euclidean_division_equations. lia.
Qed.

Lemma parseChars_raw (c : N) (t : JsString) :
  (32 <= c)%N -> c <> 34%N -> c <> 92%N ->
  parseChars (c :: t) = consFst c (parseChars t).
Proof.
intros H1 H2 H3. cbn [parseChars].
destruct (N.eqb_spec c 34); [contradiction|].
destruct (N.eqb_spec c 92); [contradiction|].
destruct (N.ltb_spec c 32); [lia|]. reflexivity.
Qed.

Lemma parseChars_unicodeEscape (c : N) (t : JsString) :
  (c < 65536)%N ->
  parseChars (unicodeEscape c ++ t) = consFst c (parseChars t).
Proof.
intros Hc. unfold unicodeEscape. cbn [app parseChars]. simpl N.eqb.
cbv iota. now rewrite hex4_unicodeEscape.
Qed.

Lemma parseChars_escapeUnit (c : N) (t : JsString) :
  isHighSurrogate c = false -> isLowSurrogate c = false ->
  parseChars (escapeUnit c ++ t) = consFst c (parseChars t).
Proof.
intros _ _. unfold escapeUnit.
destruct (N.eqb_spec c 8) as [->|]; [reflexivity|].
destruct (N.eqb_spec c 9) as [->|]; [reflexivity|].
destruct (N.eqb_spec c 10) as [->|]; [reflexivity|].
destruct (N.eqb_spec c 12) as [->|]; [reflexivity|].
destruct (N.eqb_spec c 13) as [->|]; [reflexivity|].
destruct (N.eqb_spec c 34) as [->|]; [reflexivity|].
destruct (N.eqb_spec c 92) as [->|]; [reflexivity|].
destruct (N.ltb_spec c 32).
- apply parseChars_unicodeEscape. lia.
- apply parseChars_raw; assumption.
Qed.

Lemma surrogate_raw (c : N) :
  isHighSurrogate c || isLowSurrogate c = true ->
  (32 <= c)%N /\ c <> 34%N /\ c <> 92%N /\ (c < 65536)%N.
Proof.
unfold isHighSurrogate, isLowSurrogate. intros H.
apply orb_true_iff in H as [H|H]; apply andb_true_iff in H as [H1 H2];
  apply N.leb_le in H1, H2; repeat split; lia.
Qed.

(** The characters of a string, quoted, are read back up to the closing
    quote. *)
Lemma parseChars_quoteChars_bounded (n : nat) : forall s rest,
  length s <= n ->
  parseChars (quoteChars s ++ 34%N :: rest) = Some (s, rest).
Proof.
induction n as [|n IH]; intros s rest Hn.
- destruct s; [reflexivity|simpl in Hn; lia].
- destruct s as [|c s]; [reflexivity|]. simpl in Hn.
  cbn [quoteChars].
  destruct (isHighSurrogate c) eqn:Hh.
  + destruct (surrogate_raw c) as (H1 & H2 & H3 & H4); [now rewrite Hh|].
    destruct s as [|c2 s].
    * rewrite parseChars_unicodeEscape by exact H4. reflexivity.
    * destruct (isLowSurrogate c2) eqn:Hl.
      -- destruct (surrogate_raw c2) as (K1 & K2 & K3 & K4);
           [now rewrite Hl, orb_true_r|].
         cbn [app]. rewrite parseChars_raw by assumption.
         rewrite parseChars_raw by assumption.
         rewrite IH by (simpl in Hn; lia). reflexivity.
      -- rewrite <- app_assoc, parseChars_unicodeEscape by exact H4.
         rewrite IH by (simpl in *; lia). reflexivity.
  + destruct (isLowSurrogate c) eqn:Hl.
    * destruct (surrogate_raw c) as (H1 & H2 & H3 & H4);
        [now rewrite Hl, orb_true_r|].
      rewrite <- app_assoc, parseChars_unicodeEscape by exact H4.
      rewrite IH by lia. reflexivity.
    * rewrite <- app_assoc, parseChars_escapeUnit by assumption.
      rewrite IH by lia. reflexivity.
Qed.

Lemma parseChars_quoteChars (s rest : JsString) :
  parseChars (quoteChars s ++ 34%N :: rest) = Some (s, rest).
Proof. apply (parseChars_quoteChars_bounded (length s)). lia. Qed.

(** *** Numbers *)

Lemma digits_split (s : JsString) : forall d r, digits s = (d, r) -> s = d ++ r.
Proof.
induction s as [|c s IH]; intros d r; simpl.
- intros [= <- <-]. reflexivity.
- destruct (isDigit c).
  + destruct (digits s) as [d' r']. intros [= <- <-]. simpl. f_equal. now apply IH.
  + intros [= <- <-]. reflexivity.
Qed.

Lemma digits_app (s rest : JsString) : forall d r,
  endsNumber rest = true -> digits s = (d, r) -> digits (s ++ rest) = (d, r ++ rest).
Proof.
intros d r Hrest. revert d r. induction s as [|c s IH]; intros d r; simpl.
- intros [= <- <-]. destruct rest as [|c rest]; [reflexivity|]. simpl.
  simpl in Hrest. destruct (isDigit c); [discriminate|reflexivity].
- destruct (isDigit c).
  + destruct (digits s) as [d' r']. intros [= <- <-].
    now rewrite (IH d' r' eq_refl).
  + intros [= <- <-]. reflexivity.
Qed.

Lemma scanInt_split (s t r : JsString) : scanInt s = Some (t, r) -> s = t ++ r.
Proof.
destruct s as [|c s]; simpl; [discriminate|].
destruct (c =? 48)%N; [intros [= <- <-]; reflexivity|].
destruct (isDigit c); [|discriminate].
destruct (digits s) as [d r'] eqn:E. intros [= <- <-].
simpl. f_equal. now apply digits_split.
Qed.

Lemma scanInt_app (s rest t r : JsString) :
  endsNumber rest = true -> scanInt s = Some (t, r) ->
  scanInt (s ++ rest) = Some (t, r ++ rest).
Proof.
intros Hrest. destruct s as [|c s]; simpl; [discriminate|].
destruct (c =? 48)%N; [intros [= <- <-]; reflexivity|].
destruct (isDigit c); [|discriminate].
destruct (digits s) as [d r'] eqn:E. intros [= <- <-].
now rewrite (digits_app s rest d r' Hrest E).
Qed.

Lemma scanFraction_split (s t r : JsString) : scanFraction s = Some (t, r) -> s = t ++ r.
Proof.
destruct s as [|c s]; simpl; [intros [= <- <-]; reflexivity|].
destruct (c =? 46)%N; [|intros [= <- <-]; reflexivity].
destruct (digits s) as [[|x d] r'] eqn:E; [discriminate|]. intros [= <- <-].
simpl. f_equal. exact (digits_split s (x :: d) r' E).
Qed.

Lemma scanFraction_app (s rest t r : JsString) :
  endsNumber rest = true -> scanFraction s = Some (t, r) ->
  scanFraction (s ++ rest) = Some (t, r ++ rest).
Proof.
intros Hrest. destruct s as [|c s]; simpl.
- intros [= <- <-]. destruct rest as [|c rest]; [reflexivity|]. simpl.
  simpl in Hrest. destruct (c =? 46)%N; [|reflexivity].
  now rewrite orb_true_r in Hrest.
- destruct (c =? 46)%N; [|intros [= <- <-]; reflexivity].
  destruct (digits s) as [[|x d] r'] eqn:E; [discriminate|]. intros [= <- <-].
  now rewrite (digits_app s rest (x :: d) r' Hrest E).
Qed.

Lemma scanExponent_split (s t r : JsString) : scanExponent s = Some (t, r) -> s = t ++ r.
Proof.
destruct s as [|c s]; simpl; [intros [= <- <-]; reflexivity|].
destruct (isExponentMark c); [|intros [= <- <-]; reflexivity].
destruct s as [|c2 s].
- simpl. discriminate.
- destruct (isSign c2).
  + destruct (digits s) as [[|x d] r'] eqn:E; [discriminate|]. intros [= <- <-].
    simpl. do 2 f_equal. exact (digits_split s (x :: d) r' E).
  + destruct (digits (c2 :: s)) as [[|x d] r'] eqn:E; [discriminate|].
    intros [= <- <-]. simpl. f_equal. exact (digits_split (c2 :: s) (x :: d) r' E).
Qed.

Lemma scanExponent_app (s rest t r : JsString) :
  endsNumber rest = true -> scanExponent s = Some (t, r) ->
  scanExponent (s ++ rest) = Some (t, r ++ rest).
Proof.
intros Hrest. destruct s as [|c s]; simpl.
- intros [= <- <-]. destruct rest as [|c rest]; [reflexivity|]. simpl.
  simpl in Hrest. destruct (isExponentMark c); [|reflexivity].
  now rewrite !orb_true_r in Hrest.
- destruct (isExponentMark c); [|intros [= <- <-]; reflexivity].
  destruct s as [|c2 s].
  + simpl. discriminate.
  + cbn [app]. destruct (isSign c2).
    * destruct (digits s) as [[|x d] r'] eqn:E; [discriminate|]. intros [= <- <-].
      now rewrite (digits_app s rest (x :: d) r' Hrest E).
    * destruct (digits (c2 :: s)) as [[|x d] r'] eqn:E; [discriminate|].
      intros [= <- <-].
      change (c2 :: s ++ rest) with ((c2 :: s) ++ rest).
      now rewrite (digits_app (c2 :: s) rest (x :: d) r' Hrest E).
Qed.

Lemma scanNumber_split (s t r : JsString) : scanNumber s = Some (t, r) -> s = t ++ r.
Proof.
unfold scanNumber.
set (p := match s with
          | c :: r0 => if (c =? 45)%N then ([c], r0) else ([], s)
          | [] => ([], [])
          end).
assert (Hp : s = fst p ++ snd p).
{ subst p. destruct s as [|c s]; [reflexivity|]. destruct (c =? 45)%N; reflexivity. }
destruct p as [minus s1]. simpl in Hp.
destruct (scanInt s1) as [[i s2]|] eqn:Ei; [|discriminate].
destruct (scanFraction s2) as [[f s3]|] eqn:Ef; [|discriminate].
destruct (scanExponent s3) as [[e s4]|] eqn:Ee; [|discriminate].
intros [= <- <-]. rewrite Hp.
rewrite (scanInt_split _ _ _ Ei), (scanFraction_split _ _ _ Ef),
  (scanExponent_split _ _ _ Ee).
now rewrite <- !app_assoc.
Qed.

Lemma scanNumber_app (s rest t r : JsString) :
  endsNumber rest = true -> scanNumber s = Some (t, r) ->
  scanNumber (s ++ rest) = Some (t, r ++ rest).
Proof.
intros Hrest. unfold scanNumber.
destruct s as [|c s].
- simpl. discriminate.
- cbn [app]. destruct (c =? 45)%N.
  + destruct (scanInt s) as [[i s2]|] eqn:Ei; [|discriminate].
    destruct (scanFraction s2) as [[f s3]|] eqn:Ef; [|discriminate].
    destruct (scanExponent s3) as [[e s4]|] eqn:Ee; [|discriminate].
    intros [= <- <-].
    rewrite (scanInt_app _ _ _ _ Hrest Ei), (scanFraction_app _ _ _ _ Hrest Ef),
      (scanExponent_app _ _ _ _ Hrest Ee). reflexivity.
  + destruct (scanInt (c :: s)) as [[i s2]|] eqn:Ei; [|discriminate].
    destruct (scanFraction s2) as [[f s3]|] eqn:Ef; [|discriminate].
    destruct (scanExponent s3) as [[e s4]|] eqn:Ee; [|discriminate].
    intros [= <- <-].
    change (c :: s ++ rest) with ((c :: s) ++ rest).
    rewrite (scanInt_app _ _ _ _ Hrest Ei), (scanFraction_app _ _ _ _ Hrest Ef),
      (scanExponent_app _ _ _ _ Hrest Ee). reflexivity.
Qed.

(** A number literal followed by something that ends it is scanned as
    that literal. *)
Lemma scanNumber_literal (literal rest : JsString) :
  isNumberLiteral literal = true -> endsNumber rest = true ->
  scanNumber (literal ++ rest) = Some (literal, rest).
Proof.
unfold isNumberLiteral. intros Hl Hrest.
destruct (scanNumber literal) as [[t [|x r]]|] eqn:E; try discriminate.
pose proof (scanNumber_split _ _ _ E) as Hs. rewrite app_nil_r in Hs. subst t.
exact (scanNumber_app _ _ _ _ Hrest E).
Qed.

(** A number literal starts with a minus sign or a digit. *)
Lemma number_literal_head (literal : JsString) :
  isNumberLiteral literal = true ->
  exists c t, literal = c :: t /\ (c = 45%N \/ isDigit c = true).
Proof.
unfold isNumberLiteral, scanNumber. destruct literal as [|c t]; [discriminate|].
intros H. exists c, t. split; [reflexivity|].
destruct (N.eqb_spec c 45); [now left|]. right.
unfold scanInt in H. destruct (N.eqb_spec c 48) as [->|]; [reflexivity|].
destruct (isDigit c); [reflexivity|discriminate].
Qed.

(** *** Values *)

Lemma lit_true : lit "true" = [116; 114; 117; 101]%N. Proof. reflexivity. Qed.
Lemma lit_false : lit "false" = [102; 97; 108; 115; 101]%N. Proof. reflexivity. Qed.
Lemma lit_null : lit "null" = [110; 117; 108; 108]%N. Proof. reflexivity. Qed.
Lemma lit_comma : lit "," = [44%N]. Proof. reflexivity. Qed.
Lemma lit_colon : lit ":" = [58%N]. Proof. reflexivity. Qed.
Lemma lit_brackets :
  lit "[" = [91%N] /\ lit "]" = [93%N] /\ lit "{" = [123%N] /\ lit "}" = [125%N].
Proof. repeat split; reflexivity. Qed.

Lemma digit_opensValue (c : N) : isDigit c = true -> opensValue c.
Proof.
unfold isDigit, opensValue, isJsonSpace. intros H.
apply andb_true_iff in H as [H1 H2]. apply N.leb_le in H1, H2.
repeat split; try lia.
destruct (N.eqb_spec c 9), (N.eqb_spec c 10), (N.eqb_spec c 13), (N.eqb_spec c 32);
  simpl; try lia; reflexivity.
Qed.

Lemma stringify_head (v : Value) :
  wellFormed v = true -> exists c t, stringify v = c :: t /\ opensValue c.
Proof.
destruct v as [|[|]|literal|s|es|ms]; simpl; intros Hwf;
  try (eexists _, _; split; [reflexivity|repeat split; discriminate]).
destruct (number_literal_head literal Hwf) as (c & t & -> & [->|Hd]).
- eexists _, _; split; [reflexivity|repeat split; discriminate].
- exists c, t. split; [reflexivity|now apply digit_opensValue].
Qed.

Lemma skipSpace_opens (c : N) (t : JsString) :
  isJsonSpace c = false -> skipSpace (c :: t) = c :: t.
Proof. intros H. simpl. now rewrite H. Qed.

(** A printed number literal is parsed as that number. *)
Lemma parseValue_number (fuel : nat) (literal rest : JsString) :
  isNumberLiteral literal = true -> endsNumber rest = true ->
  parseValue (S fuel) (literal ++ rest) = Ok (VNum literal) rest.
Proof.
intros Hl Hrest.
pose proof (scanNumber_literal literal rest Hl Hrest) as Hs.
destruct (number_literal_head literal Hl) as (c & t & -> & Hc).
cbn [parseValue app]. cbn [app] in Hs.
assert (Hopen : opensValue c /\ c <> 123%N /\ c <> 91%N /\ c <> 34%N
                /\ c <> 116%N /\ c <> 102%N /\ c <> 110%N).
{ destruct Hc as [->|Hd].
  - repeat split; discriminate.
  - split; [now apply digit_opensValue|].
    unfold isDigit in Hd. apply andb_true_iff in Hd as [H1 H2].
    apply N.leb_le in H1, H2. repeat split; lia. }
destruct Hopen as ((Hsp & _ & _) & H1 & H2 & H3 & H4 & H5 & H6).
rewrite (skipSpace_opens c (t ++ rest) Hsp).
destruct (N.eqb_spec c 123); [contradiction|].
destruct (N.eqb_spec c 91); [contradiction|].
destruct (N.eqb_spec c 34); [contradiction|].
rewrite lit_true, lit_false, lit_null. cbn [startsWith].
destruct (N.eqb_spec 116 c); [congruence|].
destruct (N.eqb_spec 102 c); [congruence|].
destruct (N.eqb_spec 110 c); [congruence|].
cbn [andb]. now rewrite Hs.
Qed.

Lemma parseElements_join (x : Value) (es : list Value) :
  Forall (fun e => wellFormed e = true /\ readsBack e) (x :: es) ->
  forall fuel acc rest,
    list_sum (map (fun e => S (cost e)) (x :: es)) <= fuel ->
    parseElements fuel
      (join [44%N] (map stringify (x :: es)) ++ 93%N :: rest) acc
    = Ok (VArr (acc ++ x :: es)) rest.
Proof.
revert x. induction es as [|y es IH]; intros x HF fuel acc rest Hfuel.
- inversion HF as [|? ? [_ Hx] _]; subst.
  destruct fuel as [|fuel]; [simpl in Hfuel; lia|].
  cbn [map join parseElements].
  rewrite (Hx fuel (93%N :: rest)) by (simpl in *; try lia; reflexivity).
  reflexivity.
- inversion HF as [|? ? [_ Hx] HF']; subst.
  destruct fuel as [|fuel]; [simpl in Hfuel; lia|].
  change (join [44%N] (map stringify (x :: y :: es)))
    with (stringify x ++ [44%N] ++ join [44%N] (map stringify (y :: es))).
  rewrite <- !app_assoc. cbn [parseElements].
  rewrite (Hx fuel) by (simpl in *; try lia; reflexivity).
  cbn [app skipSpace isJsonSpace N.eqb Pos.eqb orb].
  rewrite (IH y HF' fuel (acc ++ [x]) rest) by (simpl in *; lia).
  now rewrite <- app_assoc.
Qed.

Lemma parseMembers_join (m : JsString * Value) (ms : list (JsString * Value)) :
  Forall (fun m => wellFormed (snd m) = true /\ readsBack (snd m)) (m :: ms) ->
  forall fuel acc rest,
    list_sum (map (fun m => S (cost (snd m))) (m :: ms)) <= fuel ->
    parseMembers fuel
      (join [44%N] (map printMember (m :: ms)) ++ 125%N :: rest) acc
    = Ok (VObj (acc ++ m :: ms)) rest.
Proof.
revert m. induction ms as [|m2 ms IH]; intros [k v] HF fuel acc rest Hfuel.
- inversion HF as [|? ? [_ Hv] _]; subst. simpl in Hv.
  destruct fuel as [|fuel]; [simpl in Hfuel; lia|].
  cbn [map join]. unfold printMember, quote. cbn [fst snd].
  rewrite <- !app_assoc. cbn [app parseMembers skipSpace isJsonSpace N.eqb Pos.eqb orb].
  rewrite parseChars_quoteChars.
  cbn [app skipSpace isJsonSpace N.eqb Pos.eqb orb].
  rewrite (Hv fuel (125%N :: rest)) by (simpl in *; try lia; reflexivity).
  reflexivity.
- inversion HF as [|? ? [_ Hv] HF']; subst. simpl in Hv.
  destruct fuel as [|fuel]; [simpl in Hfuel; lia|].
  change (join [44%N] (map printMember ((k, v) :: m2 :: ms)))
    with (printMember (k, v) ++ [44%N] ++ join [44%N] (map printMember (m2 :: ms))).
  unfold printMember at 1, quote. cbn [fst snd].
  rewrite <- !app_assoc. cbn [app parseMembers skipSpace isJsonSpace N.eqb Pos.eqb orb].
  rewrite parseChars_quoteChars.
  cbn [app skipSpace isJsonSpace N.eqb Pos.eqb orb].
  rewrite (Hv fuel) by (simpl in *; try lia; reflexivity).
  cbn [app skipSpace isJsonSpace N.eqb Pos.eqb orb].
  rewrite (IH m2 HF' fuel (acc ++ [(k, v)]) rest) by (simpl in *; lia).
  now rewrite <- app_assoc.
Qed.

Lemma join_head (f : Value -> JsString) (sep : JsString) (x : Value)
    (es : list Value) (c : N) (t : JsString) :
  f x = c :: t -> exists t', join sep (map f (x :: es)) = c :: t'.
Proof.
intros H. destruct es; cbn [map join]; rewrite H; eexists; reflexivity.
Qed.

Lemma stringify_array (es : list Value) (rest : JsString) :
  stringify (VArr es) ++ rest
  = 91%N :: join [44%N] (map stringify es) ++ 93%N :: rest.
Proof.
cbn [stringify]. destruct lit_brackets as (-> & -> & _ & _).
rewrite lit_comma, <- !app_assoc. reflexivity.
Qed.

Lemma stringify_object (ms : list (JsString * Value)) (rest : JsString) :
  stringify (VObj ms) ++ rest
  = 123%N :: join [44%N] (map printMember ms) ++ 125%N :: rest.
Proof.
cbn [stringify]. destruct lit_brackets as (_ & _ & -> & ->).
rewrite lit_comma, lit_colon, <- !app_assoc. reflexivity.
Qed.

Lemma forallb_readsBack {A} (f : A -> Value) (l : list A) :
  Forall (fun a => wellFormed (f a) = true -> readsBack (f a)) l ->
  forallb (fun a => wellFormed (f a)) l = true ->
  Forall (fun a => wellFormed (f a) = true /\ readsBack (f a)) l.
Proof.
induction 1 as [|a l Ha _ IH]; simpl; intros Hb; constructor;
  apply andb_true_iff in Hb as [H1 H2]; auto.
Qed.

(** Parsing a printed value gives the value back, and what followed it. *)
Lemma parseValue_stringify (v : Value) : wellFormed v = true -> readsBack v.
Proof.
induction v as [|b|literal|s|es IH|ms IH] using Value_induction;
  intros Hwf fuel rest Hfuel Hrest;
  (destruct fuel as [|fuel]; [simpl in Hfuel; lia|]).
- reflexivity.
- destruct b; reflexivity.
- now apply parseValue_number.
- cbn [stringify]. unfold quote. rewrite <- !app_assoc.
  cbn [app parseValue skipSpace isJsonSpace N.eqb Pos.eqb orb].
  now rewrite parseChars_quoteChars.
- rewrite stringify_array.
  cbn [parseValue skipSpace isJsonSpace N.eqb Pos.eqb orb].
  destruct es as [|x es]; [reflexivity|].
  simpl in Hwf.
  assert (HF : Forall (fun e => wellFormed e = true /\ readsBack e) (x :: es))
    by (apply (forallb_readsBack (fun e => e)); assumption).
  apply andb_true_iff in Hwf as [Hx _].
  destruct (stringify_head x Hx) as (c & t & Hc & Hsp & Hne & _).
  destruct (join_head stringify [44%N] x es c t Hc) as [t' Ht'].
  rewrite Ht' at 1. cbn [app]. rewrite (skipSpace_opens c _ Hsp).
  destruct (N.eqb_spec c 93); [contradiction|].
  rewrite (parseElements_join x es HF fuel [] rest) by (simpl in *; lia).
  reflexivity.
- rewrite stringify_object.
  cbn [parseValue skipSpace isJsonSpace N.eqb Pos.eqb orb].
  destruct ms as [|[k x] ms]; [reflexivity|].
  simpl in Hwf.
  assert (HF : Forall (fun m => wellFormed (snd m) = true /\ readsBack (snd m))
                 ((k, x) :: ms))
    by (apply (forallb_readsBack snd); assumption).
  assert (Hhead : exists t', join [44%N] (map printMember ((k, x) :: ms)) = 34%N :: t').
  { destruct ms; cbn [map join]; unfold printMember at 1, quote; cbn [fst app];
      eexists; reflexivity. }
  destruct Hhead as [t' Ht']. rewrite Ht' at 1.
  cbn [app skipSpace isJsonSpace N.eqb Pos.eqb orb].
  rewrite (parseMembers_join (k, x) ms HF fuel [] rest) by (simpl in *; lia).
  reflexivity.
Qed.

(** The bound [JSON_parse] uses is enough for a printed value. *)
Lemma cost_sum_bound {A} (f : A -> Value) (g : A -> JsString) (l : list A) :
  Forall (fun a => cost (f a) <= 2 * length (g a)) l ->
  list_sum (map (fun a => S (cost (f a))) l) <= 2 * length (join [44%N] (map g l)) + 2.
Proof.
induction 1 as [|a l Ha _ IH]; [simpl; lia|].
destruct l as [|b l].
- simpl in *. lia.
- assert (E : join [44%N] (map g (a :: b :: l))
             = g a ++ [44%N] ++ join [44%N] (map g (b :: l))) by reflexivity.
  assert (E' : list_sum (map (fun a => S (cost (f a))) (a :: b :: l))
              = S (cost (f a)) + list_sum (map (fun a => S (cost (f a))) (b :: l)))
    by reflexivity.
  rewrite E, E', !length_app. change (length [44%N]) with 1. lia.
Qed.

Lemma cost_bound (v : Value) :
  wellFormed v = true -> cost v <= 2 * length (stringify v).
Proof.
induction v as [|b|literal|s|es IH|ms IH] using Value_induction; intros Hwf.
- simpl. lia.
- destruct b; simpl; lia.
- destruct (number_literal_head literal Hwf) as (c & t & -> & _). simpl. lia.
- cbn [stringify cost]. unfold quote. rewrite !length_app. simpl. lia.
- pose proof (stringify_array es []) as E. rewrite app_nil_r in E. rewrite E.
  cbn [cost length]. rewrite length_app. cbn [length].
  assert (HF : Forall (fun e => cost e <= 2 * length (stringify e)) es).
  { simpl in Hwf. rewrite forallb_forall in Hwf.
    rewrite List.Forall_forall in IH |- *. intros e He. auto. }
  pose proof (cost_sum_bound (fun e => e) stringify es HF). lia.
- pose proof (stringify_object ms []) as E. rewrite app_nil_r in E. rewrite E.
  cbn [cost length]. rewrite length_app. cbn [length].
  assert (HF : Forall (fun m => cost (snd m) <= 2 * length (printMember m)) ms).
  { simpl in Hwf. rewrite forallb_forall in Hwf.
    rewrite List.Forall_forall in IH |- *. intros m Hm.
    specialize (IH m Hm (Hwf m Hm)). unfold printMember.
    rewrite !length_app. lia. }
  pose proof (cost_sum_bound snd printMember ms HF). lia.
Qed.

(** [JSON.parse(JSON.stringify(v))] is [v]. *)
Lemma JSON_parse_stringify (v : Value) :
  wellFormed v = true -> JSON_parse (stringify v) = Normal v.
Proof.
intros Hwf. unfold JSON_parse, parseFuel.
pose proof (parseValue_stringify v Hwf (2 * length (stringify v) + 2) []) as H.
rewrite app_nil_r in H. rewrite H; [reflexivity| |reflexivity].
pose proof (cost_bound v Hwf). lia.
Qed.

(** *** The parser never reaches its bound *)

Lemma skipSpace_length (s : JsString) : length (skipSpace s) <= length s.
Proof.
induction s as [|c s IH]; simpl; [lia|].
destruct (isJsonSpace c); simpl; lia.
Qed.

Lemma consFst_Some {A} (c : N) (o : option (JsString * A)) (k : JsString) (x : A) :
  consFst c o = Some (k, x) -> exists k', o = Some (k', x).
Proof. destruct o as [[k' y]|]; simpl; [|discriminate]. intros [= _ <-]. eauto. Qed.

Lemma parseChars_shorter_bounded (n : nat) : forall s k r,
  length s <= n -> parseChars s = Some (k, r) -> length r < length s.
Proof.
induction n as [|n IH]; intros s k r Hn.
- destruct s; [discriminate|simpl in Hn; lia].
- destruct s as [|c s]; [discriminate|]. simpl in Hn. cbn [parseChars].
  destruct (c =? 34)%N; [intros [= <- <-]; simpl; lia|].
  destruct (c =? 92)%N.
  + destruct s as [|e s]; [discriminate|].
    destruct (e =? 117)%N.
    * destruct s as [|h1 [|h2 [|h3 [|h4 s]]]]; try discriminate.
      destruct (hex4 h1 h2 h3 h4); [|discriminate].
      intros H. apply consFst_Some in H as [k' H].
      apply IH in H; simpl in *; lia.
    * destruct (unescape e); [|discriminate].
      intros H. apply consFst_Some in H as [k' H].
      apply IH in H; simpl in *; lia.
  + destruct (c <? 32)%N; [discriminate|].
    intros H. apply consFst_Some in H as [k' H].
    apply IH in H; simpl in *; lia.
Qed.

Lemma parseChars_shorter (s k r : JsString) :
  parseChars s = Some (k, r) -> length r < length s.
Proof. apply (parseChars_shorter_bounded (length s)). lia. Qed.

Lemma scanNumber_shorter (s t r : JsString) :
  scanNumber s = Some (t, r) -> length r < length s.
Proof.
intros H. pose proof (scanNumber_split s t r H) as Hs.
assert (Ht : t <> []).
{ unfold scanNumber in H.
  destruct (match s with
            | c :: r0 => if (c =? 45)%N then ([c], r0) else ([], s)
            | [] => ([], [])
            end) as [minus s1].
  destruct (scanInt s1) as [[i s2]|] eqn:Ei; [|discriminate].
  destruct (scanFraction s2) as [[f s3]|]; [|discriminate].
  destruct (scanExponent s3) as [[e s4]|]; [|discriminate].
  injection H as <- _.
  assert (Hi : i <> []).
  { unfold scanInt in Ei. destruct s1 as [|c s1]; [discriminate|].
    destruct (c =? 48)%N; [now injection Ei as <- _|].
    destruct (isDigit c); [|discriminate].
    destruct (digits s1). now injection Ei as <- _. }
  destruct minus, i; simpl; congruence. }
subst s. rewrite length_app. destruct t; [congruence|simpl; lia].
Qed.

Ltac break_in H :=
  repeat match type of H with
         | context [match ?x with _ => _ end] => destruct x eqn:?
         end;
  try discriminate.

Ltac lengths :=
  repeat match goal with
         | H : skipSpace ?a = ?b |- _ =>
             let L := fresh "L" in
             assert (L : length b <= length a)
               by (rewrite <- H; apply skipSpace_length);
             clear H
         | H : parseChars ?a = Some (_, ?b) |- _ =>
             apply parseChars_shorter in H
         | H : scanNumber ?a = Some (_, ?b) |- _ =>
             apply scanNumber_shorter in H
         end;
  cbn [length] in *.

(** Each parser that succeeds has consumed something. *)
Lemma parse_progress (fuel : nat) :
  (forall s v r, parseValue fuel s = Ok v r -> length r < length s)
  /\ (forall s acc v r, parseElements fuel s acc = Ok v r -> length r < length s)
  /\ (forall s acc v r, parseMembers fuel s acc = Ok v r -> length r < length s).
Proof.
induction fuel as [|fuel (IHv & IHe & IHm)];
  [repeat split; intros; discriminate|].
split; [|split].
- intros s v r H. cbn [parseValue] in H. break_in H;
    try (injection H as <- <-);
    try (apply IHe in H); try (apply IHm in H);
    try (rewrite length_drop); lengths; lia.
- intros s acc v r H. cbn [parseElements] in H. break_in H;
    try (injection H as <- <-);
    repeat match goal with
           | K : parseValue fuel _ = Ok _ _ |- _ => apply IHv in K
           end;
    try (apply IHe in H); lengths; lia.
- intros s acc v r H. cbn [parseMembers] in H. break_in H;
    try (injection H as <- <-);
    repeat match goal with
           | K : parseValue fuel _ = Ok _ _ |- _ => apply IHv in K
           end;
    try (apply IHm in H); lengths; lia.
Qed.

Lemma parse_total (fuel : nat) :
  (forall s, 2 * length s < fuel -> parseValue fuel s <> Fuel)
  /\ (forall s acc, 2 * length s + 1 < fuel -> parseElements fuel s acc <> Fuel)
  /\ (forall s acc, 2 * length s + 1 < fuel -> parseMembers fuel s acc <> Fuel).
Proof.
induction fuel as [|fuel (IHv & IHe & IHm)]; [repeat split; intros; lia|].
destruct (parse_progress fuel) as (Pv & _ & _).
split; [|split].
- intros s Hs H. cbn [parseValue] in H. break_in H;
    first [ apply IHe in H; [exact H|lengths; lia]
          | apply IHm in H; [exact H|lengths; lia] ].
- intros s acc Hs H. cbn [parseElements] in H. break_in H.
  + match goal with
    | K : parseValue fuel _ = Ok _ _ |- _ => apply Pv in K
    end.
    apply IHe in H; [exact H|lengths; lia].
  + match goal with
    | K : parseValue fuel _ = Fuel |- _ => apply IHv in K; [exact K|lia]
    end.
- intros s acc Hs H. cbn [parseMembers] in H. break_in H.
  + match goal with
    | K : parseValue fuel _ = Ok _ _ |- _ => apply Pv in K
    end.
    apply IHm in H; [exact H|lengths; lia].
  + match goal with
    | K : parseValue fuel _ = Fuel |- _ => apply IHv in K; [exact K|lengths; lia]
    end.
Qed.

(** [JSON_parse] decides every text: the bound it sets is never the
    reason for its answer. *)
Lemma JSON_parse_decides (text : JsString) :
  parseValue (parseFuel text) text <> Fuel.
Proof. apply (proj1 (parse_total (parseFuel text))). unfold parseFuel. lia. Qed.

End JsonFacts.

(* ===================================================================== *)
(** ** [restore] after [setAppendNote]                                   *)
(* ===================================================================== *)

Module ShareStoreFacts.
Import Js Json ShareStore Samples.

Unset Implicit Arguments.

(** What [ToString] makes of an object is not a JSON text. *)
Lemma object_text_rejected :
  parseValue (parseFuel (lit "[object Object]")) (lit "[object Object]") = Bad
  /\ JSON_parse (lit "[object Object]") = Throw SyntaxError.
Proof. split; vm_compute; reflexivity. Qed.

Lemma JSON_parse_any_object (members : list (JsString * Value)) :
  JSON_parse_any (Some (VObj members)) = Throw (objectParseError members).
Proof.
unfold JSON_parse_any, objectParseError. cbn [toString].
destruct (hasOwn (lit "toString") members); [reflexivity|].
exact (proj2 object_text_rejected).
Qed.

Lemma getString_setAppendNote (note : Value) (st : Store) :
  getString StorageKeys.appendNote (setAppendNote note st) = Some (stringify note).
Proof.
unfold getString, setAppendNote, set, setItem. cbn [mmkv].
apply lookup_insert_eq.
Qed.

(** [restore] applies [JSON.parse] to the stored text and, when the
    result is truthy, to that result. *)
Lemma restore_parses_twice (st : Store) (text : JsString) (v : Value) (e : Exn) :
  getString StorageKeys.appendNote st = Some text ->
  JSON_parse text = Normal v -> truthy v = true ->
  JSON_parse_any (Some v) = Throw e ->
  restore st = Throw e.
Proof.
intros Hget Hfirst Htruthy Hsecond. unfold restore.
rewrite Hget.
change (JSON_parse_any (received st (Some text))) with (JSON_parse text).
rewrite Hfirst, Htruthy, Hsecond. reflexivity.
Qed.

(** C10. [setAppendNote] stores [JSON.stringify(note)]; for an object
    [note] (its numbers given by number literals), [restore] reads that text, the first [JSON.parse] gives the
    object back, the object is truthy, so [JSON.parse] is applied to the
    object itself, which throws ([ToString] of the object is
    ["[object Object]"], no JSON text, or fails with a [TypeError] when the
    object has an own property [toString]); [restore] throws that
    exception and restores nothing. *)
Theorem restore_throws_after_setAppendNote
    (members : list (JsString * Value)) (st : Store) :
  wellFormed (VObj members) = true ->
  let note := VObj members in
  let stored := setAppendNote note st in
  getString StorageKeys.appendNote stored = Some (stringify note)
  /\ JSON_parse_any (Some (VStr (stringify note))) = Normal note
  /\ truthy note = true
  /\ JSON_parse_any (Some note) = Throw (objectParseError members)
  /\ restore stored = Throw (objectParseError members).
Proof.
intros Hwf note stored.
pose proof (getString_setAppendNote note st) as Hget.
pose proof (JsonFacts.JSON_parse_stringify note Hwf) as Hfirst.
pose proof (JSON_parse_any_object members) as Hsecond.
repeat split; try assumption.
exact (restore_parses_twice stored (stringify note) note _ Hget Hfirst eq_refl Hsecond).
Qed.

Lemma restore_throws_after_setAppendNote_witness :
  restore (setAppendNote (VObj sampleNote) emptyStore) = Throw SyntaxError.
Proof.
assert (Hwf : wellFormed (VObj sampleNote) = true) by (vm_compute; reflexivity).
pose proof (restore_throws_after_setAppendNote sampleNote emptyStore Hwf) as H.
cbv zeta in H. destruct H as (_ & _ & _ & _ & H).
exact H.
Defined.

End ShareStoreFacts.

(* ===================================================================== *)
(** ** More on [convertNewlinesToBr]                                     *)
(* ===================================================================== *)

Module HtmlMore.
Import Js Html MoreObservations.

Unset Implicit Arguments.

Lemma split_app (a b : JsString) :
  split LF (a ++ LF :: b) = split LF a ++ split LF b.
Proof.
induction a as [|c a IH]; [reflexivity|].
cbn [app split]. rewrite IH.
destruct (N.eqb c LF); [reflexivity|].
pose proof (HtmlFacts.split_nonempty LF a) as Hn.
destruct (split LF a) as [|l ls]; [congruence|reflexivity].
Qed.

Lemma split_single (s : JsString) : ~ In LF s -> split LF s = [s].
Proof.
induction s as [|c s IH]; intros Hn; [reflexivity|].
cbn [split]. destruct (N.eqb_spec c LF) as [->|Hc]; [exfalso; apply Hn; now left|].
rewrite IH by (intros H; apply Hn; now right). reflexivity.
Qed.

Lemma concat_split (s : JsString) : concat (split LF s) = withoutNewlines s.
Proof.
unfold withoutNewlines. induction s as [|c s IH]; [reflexivity|].
cbn [split List.filter]. destruct (N.eqb c LF); cbn [negb].
- exact IH.
- pose proof (HtmlFacts.split_nonempty LF s) as Hn.
  destruct (split LF s) as [|l ls]; [congruence|].
  cbn [concat app] in *. now rewrite IH.
Qed.

Lemma convertNewlinesToBr_no_LF (html : JsString) :
  ~ In LF (convertNewlinesToBr html).
Proof.
rewrite HtmlFacts.convertNewlinesToBr_refines. unfold convertNewlinesToBr_spec.
rewrite in_concat. intros (l & Hl & Hin).
apply in_map_iff in Hl as (l0 & <- & Hl0).
pose proof (HtmlFacts.split_no_sep LF html) as HF.
rewrite List.Forall_forall in HF.
exact (HtmlFacts.brLine_no_LF l0 (HF l0 Hl0) Hin).
Qed.

(** *** White space at the ends of a line *)

Lemma trimStart_stop (a : JsString) (c : N) (t : JsString) :
  isWhiteSpace c = false -> trimStart (a ++ c :: t) = trimStart a ++ c :: t.
Proof.
intros Hc. induction a as [|x a IH]; cbn [app trimStart].
- now rewrite Hc.
- destruct (isWhiteSpace x); [exact IH|reflexivity].
Qed.

Lemma trimStart_white (w s : JsString) :
  forallb isWhiteSpace w = true -> trimStart (w ++ s) = trimStart s.
Proof.
induction w as [|x w IH]; cbn [forallb app trimStart]; [reflexivity|].
intros H. apply andb_true_iff in H as [Hx Hw]. rewrite Hx. auto.
Qed.

Lemma trimStart_decompose (s : JsString) :
  exists w, forallb isWhiteSpace w = true /\ s = w ++ trimStart s.
Proof.
induction s as [|x s (w & Hw & Hs)]; [exists []; auto|].
cbn [trimStart]. destruct (isWhiteSpace x) eqn:Hx.
- exists (x :: w). cbn [forallb app]. rewrite Hx, Hw. split; [reflexivity|].
  now rewrite <- Hs.
- exists []. auto.
Qed.

Lemma forallb_rev (w : JsString) :
  forallb isWhiteSpace (rev w) = forallb isWhiteSpace w.
Proof.
induction w as [|x w IH]; [reflexivity|].
cbn [rev forallb]. rewrite forallb_app, IH. cbn [forallb].
destruct (isWhiteSpace x), (forallb isWhiteSpace w); reflexivity.
Qed.

Lemma endsWith_gt (s : JsString) :
  endsWith s gt = true <-> exists t, rev s = 62%N :: t.
Proof.
unfold endsWith. change (rev gt) with [62%N].
destruct (rev s) as [|c t]; cbn [startsWith].
- split; [discriminate|intros [t H]; discriminate].
- rewrite andb_true_r. split.
  + intros H. apply N.eqb_eq in H. subst c. eauto.
  + intros [t' [= <- _]]. apply N.eqb_refl.
Qed.

(** A line gets no ["<br>"] exactly when the last code unit that is not
    white space is [>]. *)
Lemma endsWith_trim_gt (l : JsString) :
  endsWith (trim l) gt = true <-> closesTag l.
Proof.
rewrite endsWith_gt. unfold trim, trimEnd. rewrite rev_involutive. split.
- intros [t Ht].
  destruct (trimStart_decompose (rev (trimStart l))) as (w & Hw & Hr).
  rewrite Ht in Hr.
  destruct (trimStart_decompose l) as (w0 & Hw0 & Hl).
  assert (Hts : trimStart l = rev t ++ [62%N] ++ rev w).
  { rewrite <- (rev_involutive (trimStart l)), Hr, rev_app_distr. cbn [rev].
    now rewrite <- app_assoc. }
  exists (w0 ++ rev t), (rev w). split.
  + rewrite Hl at 1. rewrite Hts, <- app_assoc. reflexivity.
  + now rewrite forallb_rev.
- intros (a & w & -> & Hw).
  cbn [app]. rewrite trimStart_stop by reflexivity.
  rewrite rev_app_distr. cbn [rev]. rewrite <- !app_assoc. cbn [app].
  rewrite trimStart_white by (now rewrite forallb_rev).
  cbn [trimStart]. change (isWhiteSpace 62) with false. cbv iota. eauto.
Qed.

Lemma brLine_closed (l : JsString) : closesTag l -> brLine l = l.
Proof.
intros H. apply endsWith_trim_gt in H. unfold brLine. now rewrite H.
Qed.

Lemma brLine_open (l : JsString) : ~ closesTag l -> brLine l = l ++ br.
Proof.
intros H. unfold brLine. destruct (endsWith (trim l) gt) eqn:E; [|reflexivity].
exfalso. apply H, endsWith_trim_gt, E.
Qed.

Lemma brLine_closesTag (l : JsString) : closesTag (brLine l).
Proof.
unfold brLine. destruct (endsWith (trim l) gt) eqn:E.
- now apply endsWith_trim_gt.
- exists (l ++ [60; 98; 114]%N), []. split; [|reflexivity].
  rewrite <- app_assoc. reflexivity.
Qed.

Lemma closesTag_app (p l : JsString) : closesTag l -> closesTag (p ++ l).
Proof.
intros (a & w & -> & Hw). exists (p ++ a), w. split; [|exact Hw].
now rewrite <- app_assoc.
Qed.

Lemma concat_closesTag (lines : list JsString) :
  lines <> [] -> closesTag (concat (map brLine lines)).
Proof.
induction lines as [|l ls IH]; [congruence|]. intros _.
cbn [map concat]. destruct ls as [|l' ls].
- cbn [map concat]. rewrite app_nil_r. apply brLine_closesTag.
- apply closesTag_app, IH. discriminate.
Qed.

(** X1. The conversion works line by line: the result for two texts joined
    by a newline is the result for the first followed by the result for
    the second. *)
Theorem convertNewlinesToBr_app (a b : JsString) :
  convertNewlinesToBr (a ++ LF :: b)
  = convertNewlinesToBr a ++ convertNewlinesToBr b.
Proof.
rewrite !HtmlFacts.convertNewlinesToBr_refines. unfold convertNewlinesToBr_spec.
now rewrite split_app, map_app, concat_app.
Qed.

(** X2. A text without newline comes back unchanged when its last code
    unit that is not white space is [>], and with ["<br>"] appended in
    every other case, the empty and the all-blank text included. *)
Theorem convertNewlinesToBr_one_line (html : JsString) :
  ~ In LF html ->
  (closesTag html -> convertNewlinesToBr html = html)
  /\ (~ closesTag html -> convertNewlinesToBr html = html ++ br).
Proof.
intros Hn.
assert (E : convertNewlinesToBr html = brLine html).
{ rewrite HtmlFacts.convertNewlinesToBr_refines. unfold convertNewlinesToBr_spec.
  rewrite split_single by exact Hn. cbn [map concat]. apply app_nil_r. }
rewrite E. split; [apply brLine_closed|apply brLine_open].
Qed.

(** X3. Converting twice is converting once. *)
Theorem convertNewlinesToBr_idempotent (html : JsString) :
  convertNewlinesToBr (convertNewlinesToBr html) = convertNewlinesToBr html.
Proof.
assert (Hc : closesTag (convertNewlinesToBr html)).
{ rewrite HtmlFacts.convertNewlinesToBr_refines. unfold convertNewlinesToBr_spec.
  apply concat_closesTag, HtmlFacts.split_nonempty. }
pose proof (convertNewlinesToBr_no_LF html) as Hn.
set (out := convertNewlinesToBr html) in *.
rewrite HtmlFacts.convertNewlinesToBr_refines. unfold convertNewlinesToBr_spec.
rewrite split_single by exact Hn. cbn [map concat]. rewrite app_nil_r.
now apply brLine_closed.
Qed.

(** X4. Nothing but newlines is taken away: the input without its
    newlines is what is left of the output when the inserted ["<br>"] are
    deleted, so every other code unit is kept, in order. *)
Theorem convertNewlinesToBr_keeps_text (html : JsString) :
  sublist (withoutNewlines html) (convertNewlinesToBr html)
  /\ length (withoutNewlines html) <= length (convertNewlinesToBr html)
  /\ length (convertNewlinesToBr html)
     <= length (withoutNewlines html) + 4 * length (split LF html).
Proof.
rewrite HtmlFacts.convertNewlinesToBr_refines. unfold convertNewlinesToBr_spec.
rewrite <- concat_split.
assert (H : forall lines : list JsString,
          sublist (concat lines) (concat (map brLine lines))
          /\ length (concat (map brLine lines))
             <= length (concat lines) + 4 * length lines).
{ induction lines as [|l ls [IH1 IH2]]; [split; [constructor|simpl; lia]|].
  cbn [map concat]. split.
  - apply sublist_app; [|exact IH1]. unfold brLine.
    destruct (endsWith (trim l) gt); [reflexivity|].
    now apply sublist_inserts_r.
  - rewrite !length_app. cbn [length].
    assert (length (brLine l) <= length l + 4).
    { unfold brLine. destruct (endsWith (trim l) gt); [lia|].
      rewrite length_app. change (length br) with 4. lia. }
    lia. }
destruct (H (split LF html)) as [H1 H2].
split; [exact H1|]. split; [|exact H2].
now apply sublist_length.
Qed.

Lemma convertNewlinesToBr_one_line_witness :
  convertNewlinesToBr (lit "<p>a</p>  ") = lit "<p>a</p>  "
  /\ convertNewlinesToBr (lit "  ") = lit "  <br>".
Proof.
split.
- apply (proj1 (convertNewlinesToBr_one_line (lit "<p>a</p>  ")
                  ltac:(vm_compute; intuition discriminate))).
  exists (lit "<p>a</p"), (lit "  "). split; reflexivity.
- apply (proj2 (convertNewlinesToBr_one_line (lit "  ")
                  ltac:(vm_compute; intuition discriminate))).
  intros (a & w & H & _).
  destruct a as [|x [|y [|z a]]]; vm_compute in H; discriminate.
Defined.

End HtmlMore.

(* ===================================================================== *)
(** ** [splitOn] and the loop body of [convertBrToParagraph]             *)
(* ===================================================================== *)

Module DomFacts.
Import Js Dom DomObservations.

Unset Implicit Arguments.

Lemma textContent_Element (t : JsString) (a : Attrs) (c : list Node) :
  textContent (Element t a c) = texts c.
Proof.
unfold texts. induction c as [|n c IH]; [reflexivity|].
cbn [flat_map]. rewrite <- IH. reflexivity.
Qed.

Lemma texts_app (xs ys : list Node) : texts (xs ++ ys) = texts xs ++ texts ys.
Proof. unfold texts. apply flat_map_app. Qed.

Lemma texts_cons (n : Node) (ns : list Node) :
  texts (n :: ns) = textContent n ++ texts ns.
Proof. reflexivity. Qed.

Lemma textContent_plug (f : Frame) (n : Node) :
  textContent (plug f n)
  = texts (before f) ++ textContent n ++ texts (after f).
Proof. unfold plug. now rewrite textContent_Element, texts_app, texts_cons. Qed.

Lemma root_cons (n : Node) (f : Frame) (up : list Frame) :
  root {| cut := n; parents := f :: up |}
  = root {| cut := plug f n; parents := up |}.
Proof. reflexivity. Qed.

Lemma root_text (fs : list Frame) (n : Node) :
  textContent (root {| cut := n; parents := fs |})
  = textBefore fs ++ textContent n ++ textAfter fs.
Proof.
revert n. induction fs as [|f up IH]; intros n.
- cbn. now rewrite app_nil_r.
- rewrite root_cons, IH, textContent_plug. cbn [textBefore textAfter].
  now rewrite <- !app_assoc.
Qed.

Lemma textBefore_app (a b : list Frame) :
  textBefore (a ++ b) = textBefore b ++ textBefore a.
Proof.
induction a as [|f a IH]; cbn [app textBefore]; [now rewrite app_nil_r|].
now rewrite IH, app_assoc.
Qed.

Lemma textAfter_app (a b : list Frame) :
  textAfter (a ++ b) = textAfter a ++ textAfter b.
Proof.
induction a as [|f a IH]; cbn [app textAfter]; [reflexivity|].
now rewrite IH, app_assoc.
Qed.

Lemma last_default (x : Frame) (fs : list Frame) (d d' : Frame) :
  List.last (x :: fs) d = List.last (x :: fs) d'.
Proof.
revert x. induction fs as [|y fs IH]; intros x; [reflexivity|].
change (List.last (y :: fs) d = List.last (y :: fs) d'). apply IH.
Qed.

Lemma splitUp_tag (up : list Frame) (f : Frame) :
  tag (splitUp f up) = tag (outermost f up)
  /\ attrs (splitUp f up) = attrs (outermost f up).
Proof.
unfold outermost. revert f. induction up as [|f2 up IH]; intros f; [now split|].
cbn [splitUp]. destruct (IH (lift f f2)) as [-> ->].
destruct up as [|x up]; [now split|].
change (List.last (f2 :: x :: up) f) with (List.last (x :: up) f).
now rewrite (last_default x up (lift f f2) f).
Qed.

Lemma splitUp_text (up : list Frame) (f : Frame) :
  texts (before (splitUp f up)) = textBefore (f :: up)
  /\ texts (after (splitUp f up)) = textAfter (f :: up).
Proof.
revert f. induction up as [|f2 up IH]; intros f.
- cbn. now rewrite app_nil_r.
- cbn [splitUp]. destruct (IH (lift f f2)) as [-> ->].
  cbn [textBefore textAfter lift before after].
  rewrite texts_app, !texts_cons, !textContent_Element.
  cbn [texts flat_map]. rewrite !app_nil_r, <- !app_assoc. now split.
Qed.

(** The loop, started at the parent of the cut element below an ancestor
    [bound], runs one turn for each ancestor below [bound]. *)
Lemma splitLoop_up (up : list Frame) :
  forall (f : Frame) (above : list Frame) (n : Node) (fuel : nat)
         (gp : option nat),
  length up < fuel ->
  splitLoop fuel (Ancestor (length above)) (Some (length (up ++ above))) gp
            {| cut := n; parents := f :: up ++ above |}
  = Some {| cut := n; parents := splitUp f up :: above |}.
Proof.
induction up as [|f2 up IH]; intros f above n fuel gp Hf;
  (destruct fuel as [|fuel]; [cbn in Hf; lia|]); cbn [splitLoop same app].
- now rewrite Nat.eqb_refl.
- destruct (Nat.eqb_spec (length above) (length (f2 :: up ++ above))) as [E|_].
  { cbn [length] in E. rewrite length_app in E. lia. }
  cbn [parents cut parentOf splitUp]. apply IH. cbn [length] in Hf. lia.
Qed.

Lemma splitOn_up (f : Frame) (up above : list Frame) (n : Node) (fuel : nat) :
  length up < fuel ->
  splitOn fuel (Ancestor (length above))
          {| cut := n; parents := f :: up ++ above |}
  = Some {| cut := n; parents := splitUp f up :: above |}.
Proof. intros H. unfold splitOn, parentNode. cbn [parents parentOf]. now apply splitLoop_up. Qed.

Lemma splitLoop_null (fuel : nat) (bound : Ref) (l : Loc) :
  splitLoop fuel bound None None l = None.
Proof.
revert l. induction fuel as [|fuel IH]; intros l; [reflexivity|].
cbn [splitLoop]. destruct bound; cbn [same]; apply IH.
Qed.

Lemma splitLoop_foreign (fuel : nat) (bound : Ref) :
  forall (l : Loc) (gp : option nat),
  foreign bound l -> (parents l = [] -> gp = None) ->
  splitLoop fuel bound (parentNode l) gp l = None.
Proof.
induction fuel as [|fuel IH]; intros l gp Hb Hg; [reflexivity|].
cbn [splitLoop]. unfold parentNode in *.
destruct l as [n [|f1 [|f2 up]]]; cbn [parents parentOf cut] in *.
- rewrite (Hg eq_refl). destruct bound; cbn [same]; apply splitLoop_null.
- assert (E : same bound (Some (length (@nil Frame))) = false).
  { destruct bound as [d|]; [|reflexivity]. cbn [same foreign parents length] in *.
    apply Nat.eqb_neq. lia. }
  rewrite E. apply splitLoop_null.
- assert (E : same bound (Some (length (f2 :: up))) = false).
  { destruct bound as [d|]; [|reflexivity]. cbn [same foreign parents length] in *.
    apply Nat.eqb_neq. lia. }
  rewrite E.
  apply (IH {| cut := n; parents := lift f1 f2 :: up |}).
  + destruct bound; cbn [foreign parents length] in *; [lia|exact I].
  + discriminate.
Qed.

Lemma splitOn_foreign (fuel : nat) (bound : Ref) (l : Loc) :
  foreign bound l -> splitOn fuel bound l = None.
Proof. intros H. unfold splitOn. now apply splitLoop_foreign. Qed.

(** The ancestors of a node, cut at the ancestor of depth [d]. *)
Lemma parents_at_depth (fs : list Frame) (d : nat) :
  d < length fs ->
  exists f up above, fs = f :: up ++ above /\ length above = d.
Proof.
intros H.
pose proof (firstn_skipn (length fs - d) fs) as E.
destruct (firstn (length fs - d) fs) as [|f up] eqn:Ef.
- apply (f_equal (@length _)) in Ef. rewrite length_firstn in Ef. cbn in Ef. lia.
- exists f, up, (skipn (length fs - d) fs). split; [symmetry; exact E|].
  rewrite length_skipn. lia.
Qed.

Lemma splitOn_some (fuel : nat) (bound : Ref) (l l' : Loc) :
  splitOn fuel bound l = Some l' ->
  exists f up above,
    parents l = f :: up ++ above /\ bound = Ancestor (length above)
    /\ l' = {| cut := cut l; parents := splitUp f up :: above |}.
Proof.
intros H.
destruct bound as [d|]; [|now rewrite splitOn_foreign in H].
destruct (Nat.lt_ge_cases d (length (parents l))) as [Hd|Hd];
  [|now rewrite splitOn_foreign in H].
destruct (parents_at_depth _ _ Hd) as (f & up & above & E & <-).
exists f, up, above. split; [exact E|]. split; [reflexivity|].
destruct l as [n fs]. cbn [parents cut] in *. subst fs. clear Hd.
destruct (Nat.lt_ge_cases (length up) fuel) as [Hf|Hf].
- rewrite splitOn_up in H by exact Hf. now injection H as <-.
- (* too few turns: the loop has not come back *)
  exfalso. revert H. unfold splitOn, parentNode. cbn [parents parentOf].
  generalize (@None nat). revert f fuel Hf.
  induction up as [|f2 up IH]; intros f fuel Hf gp.
  + destruct fuel; [discriminate|cbn in Hf; lia].
  + destruct fuel as [|fuel]; [discriminate|]. cbn [splitLoop same app].
    destruct (Nat.eqb_spec (length above) (length (f2 :: up ++ above))) as [E|_].
    { cbn [length] in E. rewrite length_app in E. lia. }
    cbn [parents cut parentOf]. apply IH. cbn [length] in Hf. lia.
Qed.

Lemma splitUp_snoc (up : list Frame) (f b : Frame) :
  splitUp f (up ++ [b]) = lift (splitUp f up) b.
Proof.
revert f. induction up as [|f2 up IH]; intros f; [reflexivity|].
cbn [app splitUp]. apply IH.
Qed.

(** *** The nearest paragraph *)

Lemma closest_none (fs : list Frame) :
  closest fs = None <-> Forall (fun f => isP f = false) fs.
Proof.
induction fs as [|f up IH]; cbn [closest].
- split; [constructor|reflexivity].
- destruct (isP f) eqn:E.
  + split; [discriminate|]. intros H. inversion H; congruence.
  + rewrite IH. split; [now constructor|]. intros H. now inversion H.
Qed.

Lemma closest_some (fs : list Frame) (d : nat) :
  closest fs = Some d ->
  exists f up above,
    fs = f :: up ++ above /\ length above = d
    /\ isP (outermost f up) = true
    /\ closest (removelast (f :: up)) = None.
Proof.
induction fs as [|f0 fs IH]; cbn [closest]; [discriminate|].
destruct (isP f0) eqn:E.
- intros [= <-]. exists f0, [], fs. now repeat split.
- intros H. destruct (IH H) as (f & up & above & -> & Hd & HP & HN).
  exists f0, (f :: up), above. repeat split; try assumption.
  + unfold outermost in *. destruct up as [|x up]; [exact HP|].
    change (List.last (f :: x :: up) f0) with (List.last (x :: up) f0).
    change (List.last (f :: x :: up) f) with (List.last (x :: up) f) in HP.
    now rewrite (last_default x up f0 f).
  + change (removelast (f0 :: f :: up)) with (f0 :: removelast (f :: up)).
    cbn [closest]. now rewrite E.
Qed.

Lemma closest_lt (fs : list Frame) (d : nat) :
  closest fs = Some d -> d < length fs.
Proof.
intros H. destruct (closest_some _ _ H) as (f & up & above & -> & <- & _).
cbn [length]. rewrite length_app. lia.
Qed.

Lemma path_last (f : Frame) (up : list Frame) :
  f :: up = removelast (f :: up) ++ [outermost f up].
Proof.
unfold outermost. rewrite (app_removelast_last f) at 1 by discriminate.
f_equal. f_equal. destruct up as [|x up]; [reflexivity|].
change (List.last (f :: x :: up) f) with (List.last (x :: up) f). reflexivity.
Qed.

Lemma ancestor_outermost (n : Node) (f : Frame) (up above : list Frame) :
  ancestor {| cut := n; parents := f :: up ++ above |} (length above)
  = Some (outermost f up).
Proof.
unfold ancestor. cbn [parents].
assert (E : rev (f :: up ++ above)
            = rev above ++ outermost f up :: rev (removelast (f :: up))).
{ change (f :: up ++ above) with ((f :: up) ++ above).
  rewrite rev_app_distr. f_equal.
  rewrite (path_last f up) at 1. now rewrite rev_app_distr. }
rewrite E. apply list_lookup_middle. now rewrite length_rev.
Qed.

(** The loop body below a paragraph. *)
Lemma convertBr_below (n : Node) (f : Frame) (up above : list Frame) :
  closest (f :: up ++ above) = Some (length above) ->
  convertBr {| cut := n; parents := f :: up ++ above |}
  = if Nat.eqb (length (before (outermost f up)) + 1
                + length (after (outermost f up))) 1
    then Some (root {| cut := n; parents := f :: up ++ above |})
    else
      let p := splitUp f up in
      match above with
      | g :: up' =>
          Some (root {| cut := Element (tag g) (attrs g)
                                 (before g ++ Element (tag p) (attrs p) (before p)
                                    :: newParagraph (after p) :: after g);
                        parents := up' |})
      | [] => Some (Element (tag p) (attrs p) (before p))
      end.
Proof.
intros H. unfold convertBr, addParagraph. cbn [parents cut]. rewrite H.
unfold childCount. rewrite ancestor_outermost.
destruct (Nat.eqb _ 1); [reflexivity|].
rewrite splitOn_up by (cbn [parents length]; rewrite length_app; lia).
cbn [parents]. destruct above as [|g up']; reflexivity.
Qed.

(** The loop body where no paragraph is above the [br]. *)
Lemma convertBr_bare (n : Node) (f : Frame) (up : list Frame) :
  closest (f :: up) = None ->
  convertBr {| cut := n; parents := f :: up |}
  = Some (root {| cut := Element (tag f) (attrs f)
                    (if Nat.eqb (length (before f) + 1 + length (after f)) 1
                     then [Element (lit "p") [] (before f ++ n :: after f)]
                     else [Element (lit "p") [] (before f);
                           newParagraph (after f)]);
                  parents := up |}).
Proof.
intros H. unfold convertBr, addParagraph. cbn [parents cut]. rewrite H.
cbn [parentOf].
set (p := {| tag := lit "p"; attrs := []; before := before f; after := after f |}).
set (f' := {| tag := tag f; attrs := attrs f; before := []; after := [] |}).
unfold childCount.
pose proof (ancestor_outermost n p [] (f' :: up)) as E.
cbn [app] in E. rewrite E. cbn [outermost List.last].
change (before p) with (before f). change (after p) with (after f).
destruct (Nat.eqb _ 1); [reflexivity|].
pose proof (splitOn_up p [] (f' :: up) n (S (length (p :: f' :: up)))) as E'.
cbn [app] in E'. cbn [parents]. rewrite E' by (cbn [length]; lia).
reflexivity.
Qed.

(** X5. When [bound] is an ancestor of the cut element, [splitOn] returns
    as soon as it has one turn for each ancestor below [bound] and one
    more; the cut element is then a child of [bound], which has kept its
    tag and attributes, the ancestors of [bound] are as they were, the
    text that preceded the cut element inside [bound] is in the siblings
    before it and the text that followed in the siblings after it.  When
    the cut element was a child of [bound] already, nothing changes. *)
Theorem splitOn_makes_child (n : Node) (f : Frame) (up above : list Frame)
    (fuel : nat) :
  length up < fuel ->
  exists b,
    splitOn fuel (Ancestor (length above))
            {| cut := n; parents := f :: up ++ above |}
    = Some {| cut := n; parents := b :: above |}
    /\ tag b = tag (outermost f up)
    /\ attrs b = attrs (outermost f up)
    /\ texts (before b) = textBefore (f :: up)
    /\ texts (after b) = textAfter (f :: up)
    /\ (up = [] -> b = f).
Proof.
intros Hf. exists (splitUp f up).
split; [now apply splitOn_up|].
destruct (splitUp_tag up f) as [Ht Ha], (splitUp_text up f) as [Hb Hc].
repeat split; try assumption. now intros ->.
Qed.

Lemma splitOn_makes_child_witness :
  exists b,
    splitOn 2 (Ancestor 1)
      {| cut := Element (lit "br") [] [];
         parents := [ {| tag := lit "b"; attrs := [];
                         before := [Text (lit "one")];
                         after := [Text (lit "two")] |};
                      {| tag := lit "p"; attrs := [];
                         before := [Text (lit "zero")]; after := [] |};
                      {| tag := lit "body"; attrs := [];
                         before := []; after := [] |} ] |}
    = Some {| cut := Element (lit "br") [] [];
              parents := [ b; {| tag := lit "body"; attrs := [];
                                 before := []; after := [] |} ] |}
    /\ texts (before b) = lit "zeroone" /\ texts (after b) = lit "two".
Proof.
destruct (splitOn_makes_child (Element (lit "br") [] [])
            {| tag := lit "b"; attrs := [];
               before := [Text (lit "one")]; after := [Text (lit "two")] |}
            [ {| tag := lit "p"; attrs := [];
                 before := [Text (lit "zero")]; after := [] |} ]
            [ {| tag := lit "body"; attrs := []; before := []; after := [] |} ]
            2 ltac:(simpl; lia))
  as (b & H & _ & _ & Hb & Ha & _).
exists b. split; [exact H|]. split; [exact Hb|exact Ha].
Defined.

(** X6. [splitOn] returns exactly when [bound] is an ancestor of the cut
    element: for every other [bound] the loop, in a tree whose root has
    no parent, goes on for ever, however many turns it is given. *)
Theorem splitOn_returns_iff (bound : Ref) (l : Loc) :
  (exists fuel l', splitOn fuel bound l = Some l')
  <-> exists d, bound = Ancestor d /\ d < length (parents l).
Proof.
split.
- intros (fuel & l' & H).
  destruct (splitOn_some _ _ _ _ H) as (f & up & above & E & -> & _).
  exists (length above). split; [reflexivity|].
  rewrite E. cbn [length]. rewrite length_app. lia.
- intros (d & -> & Hd).
  destruct (parents_at_depth _ _ Hd) as (f & up & above & E & <-).
  destruct l as [n fs]. cbn [parents] in E. subst fs.
  exists (S (length up)), {| cut := n; parents := splitUp f up :: above |}.
  apply splitOn_up. lia.
Qed.

(** X7. Whenever [splitOn] returns, the cut element is the same node and
    the text of the document is the same as before. *)
Theorem splitOn_keeps_text (fuel : nat) (bound : Ref) (l l' : Loc) :
  splitOn fuel bound l = Some l' ->
  cut l' = cut l /\ textContent (root l') = textContent (root l).
Proof.
intros H.
destruct (splitOn_some _ _ _ _ H) as (f & up & above & E & _ & ->).
split; [reflexivity|].
destruct l as [n fs]. cbn [parents cut] in *. subst fs.
rewrite !root_text.
change (f :: up ++ above) with ((f :: up) ++ above).
change (splitUp f up :: above) with ([splitUp f up] ++ above).
rewrite !textBefore_app, !textAfter_app.
destruct (splitUp_text up f) as [Hb Ha].
cbn [textBefore textAfter app] in *. rewrite app_nil_r.
now rewrite Hb, Ha.
Qed.

Lemma splitOn_keeps_text_witness :
  textContent
    (root {| cut := Element (lit "br") [] [];
             parents := [ lift {| tag := lit "b"; attrs := [];
                                  before := [Text (lit "one")];
                                  after := [Text (lit "two")] |}
                               {| tag := lit "p"; attrs := [];
                                  before := []; after := [] |} ] |})
  = lit "onetwo".
Proof.
exact (proj2 (splitOn_keeps_text 2 (Ancestor 0)
         {| cut := Element (lit "br") [] [];
            parents := [ {| tag := lit "b"; attrs := [];
                            before := [Text (lit "one")];
                            after := [Text (lit "two")] |};
                         {| tag := lit "p"; attrs := [];
                            before := []; after := [] |} ] |}
         _ eq_refl)).
Defined.

(** X8. When the cut element was deeper than a child of [bound], the
    child of [bound] that held it is split in two: [bound] gets exactly
    two more children, the cut element between an element and its clone
    that both have the tag and all the attributes of that child. *)
Theorem splitOn_halves (n : Node) (f : Frame) (up above : list Frame)
    (b : Frame) (fuel : nat) :
  S (length up) < fuel ->
  exists L R,
    splitOn fuel (Ancestor (length above))
            {| cut := n; parents := f :: up ++ b :: above |}
    = Some {| cut := n;
              parents :=
                {| tag := tag b; attrs := attrs b;
                   before := before b
                     ++ [Element (tag (outermost f up)) (attrs (outermost f up)) L];
                   after := Element (tag (outermost f up))
                                    (attrs (outermost f up)) R :: after b |}
                :: above |}.
Proof.
intros Hf.
exists (before (splitUp f up)), (after (splitUp f up)).
replace (f :: up ++ b :: above) with (f :: (up ++ [b]) ++ above)
  by (now rewrite <- app_assoc).
rewrite splitOn_up by (rewrite length_app; cbn [length]; lia).
rewrite splitUp_snoc. unfold lift.
destruct (splitUp_tag up f) as [-> ->]. reflexivity.
Qed.

Lemma splitOn_halves_witness :
  exists L R,
    splitOn 2 (Ancestor 0)
      {| cut := Element (lit "br") [] [];
         parents := [ {| tag := lit "b"; attrs := [(lit "id", lit "x")];
                         before := [Text (lit "one")];
                         after := [Text (lit "two")] |};
                      {| tag := lit "p"; attrs := [];
                         before := []; after := [] |} ] |}
    = Some {| cut := Element (lit "br") [] [];
              parents :=
                [ {| tag := lit "p"; attrs := [];
                     before := [Element (lit "b") [(lit "id", lit "x")] L];
                     after := [Element (lit "b") [(lit "id", lit "x")] R] |} ] |}.
Proof.
exact (splitOn_halves (Element (lit "br") [] [])
         {| tag := lit "b"; attrs := [(lit "id", lit "x")];
            before := [Text (lit "one")]; after := [Text (lit "two")] |}
         [] []
         {| tag := lit "p"; attrs := []; before := []; after := [] |}
         2 ltac:(simpl; lia)).
Defined.

(** *** Counting elements *)

Lemma countTag_Element (t t' : JsString) (a : Attrs) (c : list Node) :
  countTag t (Element t' a c)
  = (if bool_decide (t' = t) then 1 else 0) + countTags t c.
Proof.
unfold countTags. cbn [countTag]. f_equal.
induction c as [|n c IH]; [reflexivity|].
cbn [map list_sum]. now rewrite IH.
Qed.

Lemma countTags_app (t : JsString) (xs ys : list Node) :
  countTags t (xs ++ ys) = countTags t xs + countTags t ys.
Proof. unfold countTags. now rewrite map_app, list_sum_app. Qed.

Lemma countTags_cons (t : JsString) (n : Node) (ns : list Node) :
  countTags t (n :: ns) = countTag t n + countTags t ns.
Proof. reflexivity. Qed.

Lemma countTag_plug (t : JsString) (f : Frame) (n : Node) :
  countTag t (plug f n)
  = (if bool_decide (tag f = t) then 1 else 0)
    + countTags t (before f) + countTag t n + countTags t (after f).
Proof.
unfold plug. rewrite countTag_Element, countTags_app, countTags_cons. lia.
Qed.

(** What a tree counts besides the node at a location does not depend on
    that node. *)
Lemma root_count (t : JsString) (fs : list Frame) (n m : Node) :
  countTag t (root {| cut := n; parents := fs |}) + countTag t m
  = countTag t (root {| cut := m; parents := fs |}) + countTag t n.
Proof.
revert n m. induction fs as [|f up IH]; intros n m; [cbn; lia|].
rewrite !root_cons. pose proof (IH (plug f n) (plug f m)) as H.
rewrite !countTag_plug in H. lia.
Qed.

Lemma root_count_same (t : JsString) (fs : list Frame) (n m : Node) :
  countTag t n = countTag t m ->
  countTag t (root {| cut := n; parents := fs |})
  = countTag t (root {| cut := m; parents := fs |}).
Proof. intros E. pose proof (root_count t fs n m). lia. Qed.

Lemma splitUp_count (t : JsString) (up : list Frame) :
  forall (f : Frame) (above : list Frame) (n : Node),
  Forall (fun f => tag f <> t) (removelast (f :: up)) ->
  countTag t (root {| cut := n; parents := splitUp f up :: above |})
  = countTag t (root {| cut := n; parents := f :: up ++ above |}).
Proof.
induction up as [|f2 up IH]; intros f above n HF; [reflexivity|].
change (removelast (f :: f2 :: up)) with (f :: removelast (f2 :: up)) in HF.
inversion HF as [|? ? Hf HF']; subst.
cbn [splitUp]. rewrite IH.
2:{ destruct up as [|x up]; [constructor|].
    change (removelast (lift f f2 :: x :: up))
      with (lift f f2 :: removelast (x :: up)).
    change (removelast (f2 :: x :: up))
      with (f2 :: removelast (x :: up)) in HF'.
    inversion HF'; subst. now constructor. }
cbn [app]. rewrite !root_cons. apply root_count_same.
rewrite !countTag_plug. cbn [lift tag attrs before after].
rewrite countTags_app, !countTags_cons, !countTag_Element.
rewrite (bool_decide_eq_false_2 _ Hf).
change (countTags t []) with 0. lia.
Qed.

(** X9. The loop body always comes back: [splitOn] is only ever called
    with an ancestor of the [br]. *)
Theorem convertBr_returns (l : Loc) : exists doc, convertBr l = Some doc.
Proof.
destruct l as [n fs]. destruct (closest fs) as [d|] eqn:E.
- destruct (closest_some _ _ E) as (f & up & above & -> & <- & _).
  rewrite convertBr_below by exact E.
  destruct (Nat.eqb _ 1); [eauto|]. destruct above; cbv zeta; eauto.
- destruct fs as [|f up].
  + exists n. unfold convertBr, addParagraph. cbn [parents]. now rewrite E.
  + rewrite convertBr_bare by exact E. eauto.
Qed.

(** X10. For a [br] without text whose nearest paragraph, if it has one,
    is not the root of the tree, the loop body leaves the text of the
    document as it is. *)
Theorem convertBr_keeps_text (l : Loc) :
  textContent (cut l) = [] ->
  closest (parents l) <> Some 0 ->
  exists doc,
    convertBr l = Some doc /\ textContent doc = textContent (root l).
Proof.
destruct l as [n fs]. cbn [cut parents]. intros Hn Hr.
destruct (closest fs) as [d|] eqn:E.
- destruct (closest_some _ _ E) as (f & up & above & -> & <- & _).
  rewrite convertBr_below by exact E.
  destruct (Nat.eqb _ 1); [eauto|].
  destruct above as [|g up']; [now destruct Hr|]. cbv zeta.
  eexists. split; [reflexivity|]. unfold newParagraph.
  change (f :: up ++ g :: up') with ((f :: up) ++ g :: up').
  rewrite !root_text, textBefore_app, textAfter_app, Hn.
  destruct (splitUp_text up f) as [Hb Ha].
  rewrite textContent_Element, texts_app, !texts_cons, !textContent_Element.
  cbn [textBefore textAfter] in *. rewrite Hb, Ha.
  cbn [app]. now rewrite <- !app_assoc.
- destruct fs as [|f up].
  + exists n. unfold convertBr, addParagraph. cbn [parents]. now rewrite E.
  + rewrite convertBr_bare by exact E. eexists. split; [reflexivity|].
    unfold newParagraph. rewrite !root_text, Hn. cbn [textBefore textAfter app].
    rewrite textContent_Element.
    destruct (Nat.eqb _ 1).
    * rewrite texts_cons, textContent_Element, texts_app, texts_cons, Hn.
      cbn [texts flat_map app]. now rewrite app_nil_r, <- !app_assoc.
    * rewrite !texts_cons, !textContent_Element.
      cbn [texts flat_map app]. now rewrite app_nil_r, <- !app_assoc.
Qed.

Lemma convertBr_keeps_text_witness :
  exists doc,
    convertBr {| cut := Element (lit "br") [] [];
                 parents := [ {| tag := lit "p"; attrs := [];
                                 before := [Text (lit "one")];
                                 after := [Text (lit "two")] |};
                              {| tag := lit "body"; attrs := [];
                                 before := []; after := [] |} ] |}
    = Some doc
    /\ textContent doc = lit "onetwo".
Proof.
exact (convertBr_keeps_text
         {| cut := Element (lit "br") [] [];
            parents := [ {| tag := lit "p"; attrs := [];
                            before := [Text (lit "one")];
                            after := [Text (lit "two")] |};
                         {| tag := lit "body"; attrs := [];
                            before := []; after := [] |} ] |}
         eq_refl ltac:(vm_compute; discriminate)).
Defined.

(** X11. A [br] below a paragraph that has other children and a parent:
    the paragraph is replaced, in its parent, by two paragraphs next to
    each other.  The first has the tag and attributes of the old one, the
    second is a [p] whose only attribute is [data-spacing="single"]; the
    text before the [br] is in the first, the text after it in the second,
    and when the [br] was a child of the paragraph they hold just its
    earlier and its later siblings. *)
Theorem convertBr_splits_paragraph (n : Node) (f : Frame)
    (up : list Frame) (g : Frame) (up' : list Frame) :
  closest (f :: up ++ g :: up') = Some (length (g :: up')) ->
  length (before (outermost f up)) + length (after (outermost f up)) <> 0 ->
  exists L R,
    convertBr {| cut := n; parents := f :: up ++ g :: up' |}
    = Some (root {| cut := Element (tag g) (attrs g)
                      (before g
                         ++ Element (tag (outermost f up))
                                    (attrs (outermost f up)) L
                         :: Element (lit "p") [(lit "data-spacing", lit "single")] R
                         :: after g);
                    parents := up' |})
    /\ texts L = textBefore (f :: up)
    /\ texts R = textAfter (f :: up)
    /\ (up = [] -> L = before f /\ R = after f).
Proof.
intros E Hc. exists (before (splitUp f up)), (after (splitUp f up)).
rewrite convertBr_below by exact E.
destruct (Nat.eqb_spec (length (before (outermost f up)) + 1
                        + length (after (outermost f up))) 1) as [E1|_]; [lia|].
cbv zeta. destruct (splitUp_tag up f) as [-> ->].
destruct (splitUp_text up f) as [Hb Ha].
split; [reflexivity|]. split; [exact Hb|]. split; [exact Ha|].
intros ->. now split.
Qed.

Lemma convertBr_splits_paragraph_witness :
  convertBr {| cut := Element (lit "br") [] [];
               parents := [ {| tag := lit "p"; attrs := [(lit "class", lit "x")];
                               before := [Text (lit "one")];
                               after := [Text (lit "two")] |};
                            {| tag := lit "body"; attrs := [];
                               before := []; after := [] |} ] |}
  = Some (Element (lit "body") []
            [ Element (lit "p") [(lit "class", lit "x")] [Text (lit "one")];
              Element (lit "p") [(lit "data-spacing", lit "single")]
                      [Text (lit "two")] ]).
Proof.
destruct (convertBr_splits_paragraph (Element (lit "br") [] [])
            {| tag := lit "p"; attrs := [(lit "class", lit "x")];
               before := [Text (lit "one")]; after := [Text (lit "two")] |}
            []
            {| tag := lit "body"; attrs := []; before := []; after := [] |}
            [] eq_refl ltac:(simpl; lia))
  as (L & R & H & _ & _ & HLR).
destruct (HLR eq_refl) as [-> ->]. exact H.
Defined.

(** X12. A [br] with no paragraph above it: its parent ends up with a new
    [p] without attributes as its first child.  When the [br] was the
    only child, that [p] holds the [br], which stays; otherwise the [p]
    holds the earlier siblings, a second [p] with
    [data-spacing="single"] holds the later ones, and the [br] is gone. *)
Theorem convertBr_wraps (n : Node) (f : Frame) (up : list Frame) :
  closest (f :: up) = None ->
  (before f = [] -> after f = [] ->
   convertBr {| cut := n; parents := f :: up |}
   = Some (root {| cut := Element (tag f) (attrs f)
                             [Element (lit "p") [] [n]];
                   parents := up |}))
  /\ (before f ++ after f <> [] ->
      convertBr {| cut := n; parents := f :: up |}
      = Some (root {| cut := Element (tag f) (attrs f)
                        [Element (lit "p") [] (before f);
                         Element (lit "p") [(lit "data-spacing", lit "single")]
                                 (after f)];
                      parents := up |})).
Proof.
intros E. rewrite convertBr_bare by exact E. split.
- intros -> ->. reflexivity.
- intros H.
  destruct (Nat.eqb_spec (length (before f) + 1 + length (after f)) 1)
    as [E1|_]; [|reflexivity].
  destruct (before f), (after f); cbn [length app] in *; try lia. congruence.
Qed.

Lemma convertBr_wraps_witness :
  convertBr {| cut := Element (lit "br") [] [];
               parents := [ {| tag := lit "body"; attrs := [];
                               before := []; after := [] |} ] |}
  = Some (Element (lit "body") []
            [Element (lit "p") [] [Element (lit "br") [] []]])
  /\ convertBr {| cut := Element (lit "br") [] [];
                  parents := [ {| tag := lit "body"; attrs := [];
                                  before := [Text (lit "one")];
                                  after := [] |} ] |}
     = Some (Element (lit "body") []
               [ Element (lit "p") [] [Text (lit "one")];
                 Element (lit "p") [(lit "data-spacing", lit "single")] [] ]).
Proof.
split.
- exact (proj1 (convertBr_wraps (Element (lit "br") [] [])
                  {| tag := lit "body"; attrs := []; before := []; after := [] |}
                  [] eq_refl) eq_refl eq_refl).
- exact (proj2 (convertBr_wraps (Element (lit "br") [] [])
                  {| tag := lit "body"; attrs := [];
                     before := [Text (lit "one")]; after := [] |}
                  [] eq_refl) ltac:(discriminate)).
Defined.

(** X13. Below a paragraph that has other children and a parent, the
    loop body takes the [br] out and no other element of its kind in or
    out: for every tag [t] other than [p] that no element between the
    [br] and the paragraph has, the document afterwards counts as many
    [t] elements as before, less those in the [br] itself. *)
Theorem convertBr_removes_br (t : JsString) (n : Node) (f : Frame)
    (up : list Frame) (g : Frame) (up' : list Frame) :
  closest (f :: up ++ g :: up') = Some (length (g :: up')) ->
  length (before (outermost f up)) + length (after (outermost f up)) <> 0 ->
  t <> lit "p" ->
  Forall (fun f => tag f <> t) (removelast (f :: up)) ->
  exists doc,
    convertBr {| cut := n; parents := f :: up ++ g :: up' |} = Some doc
    /\ countTag t doc + countTag t n
       = countTag t (root {| cut := n; parents := f :: up ++ g :: up' |}).
Proof.
intros E Hc Ht HF.
rewrite convertBr_below by exact E.
destruct (Nat.eqb_spec (length (before (outermost f up)) + 1
                        + length (after (outermost f up))) 1) as [E1|_]; [lia|].
cbv zeta. eexists. split; [reflexivity|].
rewrite <- (splitUp_count t up f (g :: up') n HF).
rewrite !root_cons.
set (p := splitUp f up).
pose proof (root_count t up'
              (Element (tag g) (attrs g)
                 (before g ++ Element (tag p) (attrs p) (before p)
                    :: newParagraph (after p) :: after g))
              (plug g (plug p n))) as H.
rewrite !countTag_plug in H.
rewrite countTag_Element, countTags_app, !countTags_cons in H.
unfold newParagraph in *. rewrite !countTag_Element in H.
assert (Hp : bool_decide (lit "p" = t) = false)
  by (apply bool_decide_eq_false_2; congruence).
rewrite Hp in H. lia.
Qed.

Lemma convertBr_removes_br_witness :
  exists doc,
    convertBr {| cut := Element (lit "br") [] [];
                 parents := [ {| tag := lit "p"; attrs := [];
                                 before := [Text (lit "one")];
                                 after := [Element (lit "br") [] []] |};
                              {| tag := lit "body"; attrs := [];
                                 before := []; after := [] |} ] |}
    = Some doc
    /\ countTag (lit "br") doc + 1 = 2.
Proof.
exact (convertBr_removes_br (lit "br") (Element (lit "br") [] [])
         {| tag := lit "p"; attrs := [];
            before := [Text (lit "one")];
            after := [Element (lit "br") [] []] |}
         []
         {| tag := lit "body"; attrs := []; before := []; after := [] |}
         [] eq_refl ltac:(simpl; lia) ltac:(discriminate)
         ltac:(constructor)).
Defined.

End DomFacts.

(* ===================================================================== *)
(** ** More on the [Menu] component                                      *)
(* ===================================================================== *)

Module MenuMore.
Import Js Menu Position Observations PointerObservations Samples.

Unset Implicit Arguments.

Section WithApplication.

Variable App : Type.
Implicit Types (lv : Level App) (item : MenuItem App)
  (items : list (MenuItem App)) (w : World App).

(** X14. Resting on an enabled button without a nested menu for the
    hover delay or longer puts the focus on it and leaves no submenu
    open, whichever submenu was open before. *)
Theorem long_hover_leaf_closes_submenu items lv item index (d : N) :
  oneTimer lv ->
  isDisabled item = false ->
  menu item = None ->
  (hoverDelay <= d)%N ->
  let lv' := elapse d (onMouseEnter item index lv) in
  focusIndex lv' = Z.of_nat index
  /\ isSubmenuOpen lv' = false
  /\ pending lv' = []
  /\ submenu items lv' = None.
Proof.
intros Hone Hd Hm Hdelay lv'. subst lv'.
rewrite (@HoverFacts.onMouseEnter_enabled App item index lv Hone Hd).
erewrite HoverFacts.elapse_due; [|reflexivity|cbn [deadline now]; lia].
unfold fire. cbn [cIsSubmenuOpen cIndex cItem]. rewrite Hm.
assert (E : forall l : Level App,
          isSubmenuOpen l = false -> submenu items l = None)
  by (intros l; apply HoverFacts.submenu_closed).
destruct (isSubmenuOpen lv); cbn; (repeat split; try reflexivity); apply E; reflexivity.
Qed.

(** X15. A button that has both a click handler and a nested menu: a
    click on it opens its submenu and calls nothing, while the action
    callback handed to [useFocus], run with the focus on the same button,
    stops the event, calls the handler and, when it returns, [onClose]. *)
Theorem click_opens_confirm_acts items lv (index : nat) (k : string)
    (dis : bool) (h c : Handler App) (m : list (MenuItem App)) w (a : App) :
  items !! index = Some (Button k false dis (Some h) (Some m)) ->
  h (app w) = (Normal tt, a) ->
  let item := Button k false dis (Some h) (Some m) in
  (exists lv',
      buttonOnClick item index (Some c) lv w = (Normal lv', w)
      /\ focusIndex lv' = Z.of_nat index
      /\ isSubmenuOpen lv' = true
      /\ pending lv' = pending lv
      /\ submenu items lv' = Some m)
  /\ (focusIndex lv = Z.of_nat index ->
      focusOnAction items (Some c) lv w
      = (fst (c a),
         mkWorld (snd (c a))
                 (calls w ++ [StopPropagation; OnClick k; OnClose]))).
Proof.
intros Hi Hh item. split.
- exists (setIsSubmenuOpen true (setFocusIndex (Z.of_nat index) lv)).
  split; [reflexivity|]. repeat split.
  unfold submenu. cbn [focusIndex setIsSubmenuOpen setFocusIndex isSubmenuOpen].
  rewrite HoverFacts.at_index_of_nat, Hi. reflexivity.
- intros Hf. unfold focusOnAction.
  rewrite Hf, HoverFacts.at_index_of_nat, Hi. cbn [isButton].
  rewrite (@ActionFacts.onAction_handler_returns App true
             (Button k false dis (Some h) (Some m)) c h w a eq_refl Hh).
  reflexivity.
Qed.

(** *** What is rendered *)

Lemma rendered_keys items lv : forall n,
  map (@elementKey App) (omap (fun x => x) (imap (fun i => renderItem lv (n + i)) items))
  = map (@key App) (shown items).
Proof.
induction items as [|item items IH]; intros n; [reflexivity|].
cbn [imap omap shown List.filter].
rewrite (imap_ext _ (fun i => renderItem lv (S n + i)))
  by (intros i x _; unfold compose; f_equal; lia).
unfold renderItem at 1.
destruct (isHidden item) eqn:Hh; cbn [negb].
- apply IH.
- change (list_omap _ _ ?f (Some ?e :: ?l)) with (e :: omap f l).
  cbn [map]. f_equal; [destruct item; reflexivity|]. apply IH.
Qed.

(** X16. The menu renders one element for each item that is not hidden,
    in the order of the items and under the item's key; hidden items
    render nothing. *)
Theorem renderItems_keys items lv :
  map (@elementKey App) (renderItems items lv) = map (@key App) (shown items)
  /\ length (renderItems items lv) = length (shown items).
Proof.
assert (E : map (@elementKey App) (renderItems items lv)
            = map (@key App) (shown items)) by apply (rendered_keys items lv 0).
split; [exact E|].
apply (f_equal (@length _)) in E. now rewrite !length_map in E.
Qed.

(** X17. The buttons rendered are exactly the buttons among the items
    that are not hidden; each carries the position of its item among all
    the items, hidden ones included, and is shown in focus exactly when
    the focus index is that position. *)
Theorem renderItems_buttons items lv (k : string) item (index : nat) (f : bool) :
  In (MenuButton k item index f) (renderItems items lv)
  <-> items !! index = Some item
      /\ isButton item = true /\ isHidden item = false
      /\ k = key item
      /\ f = Z.eqb (focusIndex lv) (Z.of_nat index).
Proof.
rewrite <- list_elem_of_In. unfold renderItems.
rewrite list_elem_of_omap. split.
- intros (o & Ho & Hs). cbn in Hs. subst o.
  apply elem_of_lookup_imap in Ho as (i & x & Hr & Hx).
  unfold renderItem in Hr. destruct (isHidden x) eqn:Hh; [discriminate|].
  destruct x; inversion Hr; subst. auto.
- intros (Hi & Hb & Hh & -> & ->).
  exists (Some (MenuButton (key item) item index
                  (Z.eqb (focusIndex lv) (Z.of_nat index)))).
  split; [|reflexivity].
  apply elem_of_lookup_imap. exists index, item. split; [|exact Hi].
  unfold renderItem. rewrite Hh. destruct item; try discriminate. reflexivity.
Qed.

(** *** The pointer over the life of a level *)

Lemma oneTimer_pointer (ev : Pointer App) lv :
  oneTimer lv -> oneTimer (pointer ev lv).
Proof.
intros H. destruct ev as [item index| |d]; cbn [pointer].
- destruct (isDisabled item) eqn:Hd.
  + unfold onMouseEnter. rewrite Hd. exact H.
  + rewrite (@HoverFacts.onMouseEnter_enabled App item index lv H Hd).
    reflexivity.
- unfold oneTimer, onMouseLeave.
  rewrite (@HoverFacts.clearTimeout_oneTimer App lv H). exact I.
- now apply FocusFacts.oneTimer_elapse.
Qed.

(** X18. However the pointer moves over the buttons and however much
    time passes in between, at most one hover timer is pending, and it
    is the one whose id the ref holds. *)
Theorem pointer_one_timer (evs : list (Pointer App)) lv :
  oneTimer lv ->
  oneTimer (pointerRun evs lv) /\ length (pending (pointerRun evs lv)) <= 1.
Proof.
intros H.
assert (Ho : oneTimer (pointerRun evs lv)).
{ revert lv H. induction evs as [|ev evs IH]; intros lv H; [exact H|].
  apply (IH (pointer ev lv)). now apply oneTimer_pointer. }
split; [exact Ho|]. unfold oneTimer in Ho.
destruct (pending (pointerRun evs lv)) as [|x [|y l]]; cbn [length]; try lia.
destruct x. contradiction.
Qed.

Lemma hoverable_rendered items (k : string) item (index : nat) (f : bool) lv :
  In (MenuButton k item index f) (renderItems items lv) ->
  isDisabled item = false -> hoverable items index = true.
Proof.
intros H Hd.
apply (@FocusFacts.rendered_button App) in H as (Hi & Hh & Hb).
unfold hoverable. now rewrite Hi, Hb, Hh, Hd.
Qed.

Lemma hoverTimers_filter items lv (p : nat * Timeout App -> bool) :
  Forall (fun x => hoverable items (cIndex (snd x)) = true) (pending lv) ->
  Forall (fun x => hoverable items (cIndex (snd x)) = true)
         (List.filter p (pending lv)).
Proof.
rewrite !List.Forall_forall. intros H x Hx. apply filter_In in Hx as [Hx _]. auto.
Qed.

Lemma hoverTimers_clear items lv (o : option nat) :
  hoverTimers items lv -> hoverTimers items (clearTimeout o lv).
Proof.
unfold hoverTimers. destruct o as [i|]; [|auto]. cbn [clearTimeout pending].
apply hoverTimers_filter.
Qed.

Lemma hoverFocus_fire items (focus0 : Z) (due : list (nat * Timeout App)) :
  forall lv,
  Forall (fun x => hoverable items (cIndex (snd x)) = true) due ->
  hoverFocus items focus0 lv ->
  hoverFocus items focus0 (fold_left (fun l x => fire (snd x) l) due lv).
Proof.
induction due as [|x due IH]; intros lv HF H; [exact H|].
inversion HF as [|? ? Hx HF']; subst. cbn [fold_left]. apply IH; [exact HF'|].
unfold fire, hoverFocus in *.
destruct (cIsSubmenuOpen (snd x)), (menu (cItem (snd x)));
  cbn [focusIndex setFocusIndex setIsSubmenuOpen]; try exact H;
  right; right; eauto.
Qed.

Lemma hover_pointer items (focus0 : Z) (ev : Pointer App) lv :
  fromRendered items ev ->
  hoverFocus items focus0 lv /\ hoverTimers items lv ->
  hoverFocus items focus0 (pointer ev lv) /\ hoverTimers items (pointer ev lv).
Proof.
intros Hr [Hf Ht]. destruct ev as [item index| |d]; cbn [pointer].
- destruct Hr as (lv0 & k & f & Hin). unfold onMouseEnter.
  destruct (isDisabled item) eqn:Hd.
  + split; [right; left; reflexivity|exact Ht].
  + pose proof (hoverable_rendered _ _ _ _ _ _ Hin Hd) as Hh.
    set (lv1 := if negb (isSubmenuOpen lv)
                then setFocusIndex (Z.of_nat index) lv else lv).
    assert (Hf1 : hoverFocus items focus0 lv1).
    { subst lv1. destruct (isSubmenuOpen lv); cbn [negb]; [exact Hf|].
      right; right. exists index. now split. }
    assert (Ht1 : hoverTimers items lv1).
    { subst lv1. destruct (isSubmenuOpen lv); exact Ht. }
    split.
    * unfold hoverFocus, setHoverTimeout. cbn [focusIndex].
      destruct (HoverFacts.clearTimeout_fields (hoverTimeout lv1) lv1) as [-> _].
      exact Hf1.
    * unfold hoverTimers, setHoverTimeout. cbn [pending].
      apply Forall_app. split; [now apply hoverTimers_clear|].
      constructor; [exact Hh|constructor].
- split.
  + unfold hoverFocus, onMouseLeave.
    destruct (HoverFacts.clearTimeout_fields (hoverTimeout lv) lv) as [-> _].
    exact Hf.
  + now apply hoverTimers_clear.
- unfold elapse.
  set (base := mkLevel (focusIndex lv) (isSubmenuOpen lv) (hoverTimeout lv)
                 (List.filter (fun x => negb (isDue (now lv + d) x)) (pending lv))
                 (nextId lv) (now lv + d)%N).
  split.
  + apply hoverFocus_fire; [now apply hoverTimers_filter|exact Hf].
  + unfold hoverTimers.
    destruct (FocusFacts.fire_all_timers
                (List.filter (isDue (now lv + d)) (pending lv)) base) as [-> _].
    subst base. cbn [pending]. now apply hoverTimers_filter.
Qed.

(** X19. The pointer alone never puts the focus on an item that is
    hidden, disabled or not a button: after any sequence of pointer
    entries into rendered buttons, pointer exits and waits, started with
    no timer pending, the focus index is what it was at the start, none,
    or the position of a button that is shown and enabled. *)
Theorem pointer_focus_hoverable items (evs : list (Pointer App)) lv :
  pending lv = [] ->
  Forall (fromRendered items) evs ->
  let lv' := pointerRun evs lv in
  focusIndex lv' = focusIndex lv \/ focusIndex lv' = (-1)%Z
  \/ exists i item,
       focusIndex lv' = Z.of_nat i /\ items !! i = Some item
       /\ isButton item = true /\ isHidden item = false
       /\ isDisabled item = false.
Proof.
intros Hp HF lv'.
assert (G : forall focus0 l,
          hoverFocus items focus0 l /\ hoverTimers items l ->
          hoverFocus items focus0 (pointerRun evs l)
          /\ hoverTimers items (pointerRun evs l)).
{ intros focus0. induction HF as [|ev evs Hev HF IH]; intros l Hl; [exact Hl|].
  cbn [pointerRun fold_left]. apply IH. now apply hover_pointer. }
assert (H : hoverFocus items (focusIndex lv) lv' /\ hoverTimers items lv').
{ apply G. split; [now left|]. unfold hoverTimers. rewrite Hp. constructor. }
destruct H as [[H|[H|(i & Hi & Hh)]] _]; [now left|now right; left|].
right; right. unfold hoverable in Hh.
destruct (items !! i) as [item|] eqn:E; [|discriminate].
exists i, item.
apply andb_true_iff in Hh as [Hh Hd]. apply andb_true_iff in Hh as [Hb Hh].
apply negb_true_iff in Hh, Hd. auto.
Qed.

End WithApplication.

(** *** The submenu element over the renders of a level *)

Section WithDocument.

Variables (App Node Num : Type).
Variable getPosition : Node -> Node -> Outcome (Num * Num).

Lemma submenu_open (items : list (MenuItem App)) (lv : Level App)
    (m : list (MenuItem App)) :
  submenu items lv = Some m -> isSubmenuOpen lv = true.
Proof.
unfold submenu.
destruct (at_index items (focusIndex lv)) as [[| ? ? ? ? [sub|] |]|];
  try discriminate.
now destruct (isSubmenuOpen lv).
Qed.

(** X20. The branch of the effect that hides the submenu element never
    runs on a mounted element: when [isSubmenuOpen] is false a render
    leaves no submenu element at all, and an element that a render keeps
    has its DOM node unchanged and, once visible, stays visible. *)
Theorem mounted_submenu_stays_visible (r : Render App Node)
    (previous : option (Flex Node Num)) :
  (isSubmenuOpen (rLevel r) = false -> renderPass getPosition r previous = None)
  /\ (forall el el',
        previous = Some el ->
        renderPass getPosition r previous = Some el' ->
        isSubmenuOpen (rLevel r) = true
        /\ node el' = node el
        /\ (visibility (style el) = Visible -> visibility (style el') = Visible)).
Proof.
split.
- intros Ho. unfold renderPass, commitRef.
  rewrite (@HoverFacts.submenu_closed App (rItems r) (rLevel r) Ho).
  destruct (rEffect r); [|reflexivity]. unfold positionEffect.
  now destruct (at_index (rItems r) (focusIndex (rLevel r))).
- intros el el' -> H. unfold renderPass, commitRef in H.
  destruct (submenu (rItems r) (rLevel r)) as [m|] eqn:Hs.
  + pose proof (submenu_open _ _ _ Hs) as Ho. split; [exact Ho|].
    destruct (rEffect r); [|injection H as <-; auto].
    unfold positionEffect in H. rewrite Ho in H. cbn [negb] in H.
    destruct (at_index (rItems r) (focusIndex (rLevel r))) as [item|];
      [|injection H as <-; auto].
    destruct (document r (anchorId item)) as [target|];
      [|injection H as <-; auto].
    destruct (getPosition (node el) target) as [[t l]|e];
      injection H as <-; auto.
  + destruct (rEffect r); [|discriminate]. unfold positionEffect in H.
    now destruct (at_index (rItems r) (focusIndex (rLevel r))).
Qed.

End WithDocument.

Lemma long_hover_leaf_closes_submenu_witness :
  let lv' := elapse 200 (onMouseEnter (Button "a" false false None None) 0
                           (mkLevel 1%Z true None [] 0 0%N)) in
  focusIndex lv' = 0%Z /\ isSubmenuOpen lv' = false
  /\ submenu items0 lv' = None.
Proof.
destruct (long_hover_leaf_closes_submenu nat items0
            (mkLevel 1%Z true None [] 0 0%N)
            (Button "a" false false None None) 0 200%N
            I eq_refl eq_refl ltac:(vm_compute; discriminate))
  as (H1 & H2 & _ & H4).
exact (conj H1 (conj H2 H4)).
Defined.

Lemma click_opens_confirm_acts_witness :
  focusOnAction [Button "more" false false (Some bump) (Some sub)]
                (Some closeApp) (mkLevel 0%Z false None [] 0 0%N) world0
  = (Normal tt, mkWorld 101 [StopPropagation; OnClick "more"; OnClose]).
Proof.
exact (proj2 (click_opens_confirm_acts nat
                [Button "more" false false (Some bump) (Some sub)]
                (mkLevel 0%Z false None [] 0 0%N) 0 "more" false bump closeApp
                sub world0 1 eq_refl eq_refl) eq_refl).
Defined.

Lemma pointer_one_timer_witness :
  length (pending (pointerRun
                     [Enter (Button "a" false false None None) 0;
                      Enter (Button "b" false false None (Some sub)) 1;
                      Wait 50]
                     idle)) <= 1.
Proof.
exact (proj2 (pointer_one_timer nat
                [Enter (Button "a" false false None None) 0;
                 Enter (Button "b" false false None (Some sub)) 1;
                 Wait 50]
                idle I)).
Defined.

Lemma pointer_focus_hoverable_witness :
  let lv' := pointerRun [Enter (Button "c" false true None (Some sub)) 2;
                         Wait 300] idle in
  focusIndex lv' = (-1)%Z \/ focusIndex lv' = (-1)%Z
  \/ exists i item,
       focusIndex lv' = Z.of_nat i /\ items0 !! i = Some item
       /\ isButton item = true /\ isHidden item = false
       /\ isDisabled item = false.
Proof.
apply (pointer_focus_hoverable nat items0
         [Enter (Button "c" false true None (Some sub)) 2; Wait 300]
         idle eq_refl).
constructor.
- exists idle, "c"%string, false. cbn. auto.
- constructor; [exact I|constructor].
Defined.

Lemma mounted_submenu_stays_visible_witness :
  renderPass measure
    (mkRender (documentWith "file-menu-item" 7) menuItems
              (mkLevel 0%Z false None [] 0 0%N) 1 true)
    (Some (mkFlex 1 (mkStyle Visible (Some 7%Z) (Some 220%Z))))
  = None.
Proof.
exact (proj1 (mounted_submenu_stays_visible nat nat Z measure
                (mkRender (documentWith "file-menu-item" 7) menuItems
                          (mkLevel 0%Z false None [] 0 0%N) 1 true)
                (Some (mkFlex 1 (mkStyle Visible (Some 7%Z) (Some 220%Z)))))
             eq_refl).
Defined.

End MenuMore.

(* ===================================================================== *)
(** ** More on the share store                                           *)
(* ===================================================================== *)

Module ShareStoreMore.
Import Js Json ShareStore ShareTheme Samples.

Unset Implicit Arguments.

Lemma stringify_nonempty (v : Value) :
  wellFormed v = true -> exists c t, stringify v = c :: t.
Proof.
intros H. destruct (JsonFacts.stringify_head v H) as (c & t & E & _). eauto.
Qed.

Lemma parseOr_stringify (v fallback : Value) :
  wellFormed v = true -> parseOr (Some (stringify v)) fallback = Normal v.
Proof.
intros H. destruct (stringify_nonempty v H) as (c & t & E).
unfold parseOr. rewrite E, <- E. now apply JsonFacts.JSON_parse_stringify.
Qed.

Lemma getString_setItem (k k' : string) (text : JsString) (st : Store) :
  getString k (setItem k' text st)
  = if bool_decide (k = k') then Some text else getString k st.
Proof.
unfold getString, setItem. cbn [mmkv].
destruct (bool_decide_reflect (k = k')) as [->|Hne].
- apply lookup_insert_eq.
- now apply lookup_insert_ne.
Qed.

Lemma getString_set (k : string) (partial : list (string * Value)) (st : Store) :
  getString k (set partial st) = getString k st.
Proof. reflexivity. Qed.

Lemma getString_other (k k' : string) (text : JsString)
    (partial : list (string * Value)) (st : Store) :
  k <> k' -> getString k (set partial (setItem k' text st)) = getString k st.
Proof.
intros H. rewrite getString_set, getString_setItem.
now rewrite bool_decide_eq_false_2.
Qed.

Lemma getString_same (k : string) (text : JsString)
    (partial : list (string * Value)) (st : Store) :
  getString k (set partial (setItem k text st)) = Some text.
Proof.
rewrite getString_set, getString_setItem. now rewrite bool_decide_eq_true_2.
Qed.

(** What [restore] sets, from what the three parses give. *)
Lemma restore_sets (st : Store) (a0 a b c : Value) :
  JSON_parse_any (received st (getString StorageKeys.appendNote st))
  = Normal a0 ->
  (if truthy a0 then JSON_parse_any (Some a0) else Normal VNull) = Normal a ->
  parseOr (getString StorageKeys.selectedNotebooks st) (VArr []) = Normal b ->
  parseOr (getString StorageKeys.selectedTag st) (VArr []) = Normal c ->
  restore st
  = Normal (set [("appendNote"%string, a); ("selectedNotebooks"%string, b);
                 ("selectedTag"%string, c)] st).
Proof. intros H0 Ha Hb Hc. unfold restore. now rewrite H0, Ha, Hb, Hc. Qed.

Lemma restore_normal (st st' : Store) :
  restore st = Normal st' ->
  exists a0 a b c,
    JSON_parse_any (received st (getString StorageKeys.appendNote st))
    = Normal a0
    /\ (if truthy a0 then JSON_parse_any (Some a0) else Normal VNull) = Normal a
    /\ parseOr (getString StorageKeys.selectedNotebooks st) (VArr []) = Normal b
    /\ parseOr (getString StorageKeys.selectedTag st) (VArr []) = Normal c
    /\ st' = set [("appendNote"%string, a); ("selectedNotebooks"%string, b);
                  ("selectedTag"%string, c)] st.
Proof.
unfold restore.
destruct (JSON_parse_any (received st (getString StorageKeys.appendNote st)))
  as [a0|] eqn:E0; [|discriminate].
destruct (if truthy a0 then JSON_parse_any (Some a0) else Normal VNull)
  as [a|] eqn:Ea; [|discriminate].
destruct (parseOr (getString StorageKeys.selectedNotebooks st) (VArr []))
  as [b|] eqn:Eb; [|discriminate].
destruct (parseOr (getString StorageKeys.selectedTag st) (VArr []))
  as [c|] eqn:Ec; [|discriminate].
intros [= <-]. exists a0, a, b, c. auto.
Qed.

Lemma state_restored (st : Store) (a b c : Value) :
  let st' := set [("appendNote"%string, a); ("selectedNotebooks"%string, b);
                  ("selectedTag"%string, c)] st in
  mmkv st' = mmkv st
  /\ state st' !! "appendNote"%string = Some a
  /\ state st' !! "selectedNotebooks"%string = Some b
  /\ state st' !! "selectedTag"%string = Some c
  /\ (forall k : string,
        k <> "appendNote"%string -> k <> "selectedNotebooks"%string ->
        k <> "selectedTag"%string ->
        state st' !! k = state st !! k).
Proof.
cbn [set fold_left state mmkv fst snd]. split; [reflexivity|].
split; [|split; [|split]].
- rewrite !lookup_insert_ne by discriminate. apply lookup_insert_eq.
- rewrite lookup_insert_ne by discriminate. apply lookup_insert_eq.
- apply lookup_insert_eq.
- intros k H1 H2 H3. now rewrite !lookup_insert_ne by congruence.
Qed.

Lemma first_parse_stringify (note : Value) (st : Store) :
  wellFormed note = true ->
  JSON_parse_any
    (received (setAppendNote note st)
       (getString StorageKeys.appendNote (setAppendNote note st)))
  = Normal note.
Proof.
intros H. rewrite ShareStoreFacts.getString_setAppendNote.
cbn [received JSON_parse_any toString].
now apply JsonFacts.JSON_parse_stringify.
Qed.

(** X21. [restore] on a store in which no note was ever saved: the first
    [JSON.parse], which has no guard, gets what the storage returns for a
    missing key.  Where that is [null], the parse gives [null] and
    [restore] returns, with [appendNote] set to [null], when the
    notebooks and the tags stored are readable; where it is [undefined],
    [restore] throws a [SyntaxError], whatever notebooks and tags are
    stored. *)
Theorem restore_without_note (st : Store) :
  getString StorageKeys.appendNote st = None ->
  (absent st = AbsentNull ->
   forall b c,
     parseOr (getString StorageKeys.selectedNotebooks st) (VArr []) = Normal b ->
     parseOr (getString StorageKeys.selectedTag st) (VArr []) = Normal c ->
     restore st
     = Normal (set [("appendNote"%string, VNull);
                    ("selectedNotebooks"%string, b);
                    ("selectedTag"%string, c)] st))
  /\ (absent st = AbsentUndefined -> restore st = Throw SyntaxError).
Proof.
intros H. split; intros Ha.
- intros b c Hb Hc. apply (restore_sets st VNull).
  + rewrite H. unfold received. rewrite Ha. reflexivity.
  + reflexivity.
  + exact Hb.
  + exact Hc.
- unfold restore. rewrite H. unfold received. rewrite Ha. reflexivity.
Qed.

Lemma restore_without_note_witness :
  restore (setSelectedNotebooks (VArr [VStr (lit "n1")]) emptyStore)
  = Normal (set [("appendNote"%string, VNull);
                 ("selectedNotebooks"%string, VArr [VStr (lit "n1")]);
                 ("selectedTag"%string, VArr [])]
              (setSelectedNotebooks (VArr [VStr (lit "n1")]) emptyStore))
  /\ restore (setSelectedNotebooks (VArr [VStr (lit "n1")]) emptyStoreUndefined)
     = Throw SyntaxError.
Proof.
split.
- exact (proj1 (restore_without_note
                  (setSelectedNotebooks (VArr [VStr (lit "n1")]) emptyStore)
                  eq_refl) eq_refl (VArr [VStr (lit "n1")]) (VArr [])
           eq_refl eq_refl).
- exact (proj2 (restore_without_note
                  (setSelectedNotebooks (VArr [VStr (lit "n1")]) emptyStoreUndefined)
                  eq_refl) eq_refl).
Defined.

(** X22. A note comes back from [restore] when it was saved as the JSON
    text of a value: after [setAppendNote] of the string
    [JSON.stringify(v)], [restore] sets [appendNote] to [v], and
    [selectedNotebooks] and [selectedTag] to what is stored for them,
    and writes nothing to the storage. *)
Theorem restore_string_note (v b c : Value) (st : Store) :
  wellFormed v = true ->
  parseOr (getString StorageKeys.selectedNotebooks st) (VArr []) = Normal b ->
  parseOr (getString StorageKeys.selectedTag st) (VArr []) = Normal c ->
  exists st',
    restore (setAppendNote (VStr (stringify v)) st) = Normal st'
    /\ mmkv st' = mmkv (setAppendNote (VStr (stringify v)) st)
    /\ state st' !! "appendNote"%string = Some v
    /\ state st' !! "selectedNotebooks"%string = Some b
    /\ state st' !! "selectedTag"%string = Some c.
Proof.
intros Hv Hb Hc.
set (st1 := setAppendNote (VStr (stringify v)) st).
destruct (stringify_nonempty v Hv) as (x & t & E).
assert (H : restore st1
            = Normal (set [("appendNote"%string, v);
                           ("selectedNotebooks"%string, b);
                           ("selectedTag"%string, c)] st1)).
{ apply (restore_sets st1 (VStr (stringify v))).
  - now apply first_parse_stringify.
  - cbn [truthy]. rewrite E, <- E. cbn [JSON_parse_any toString].
    now apply JsonFacts.JSON_parse_stringify.
  - subst st1. unfold setAppendNote.
    now rewrite getString_other by discriminate.
  - subst st1. unfold setAppendNote.
    now rewrite getString_other by discriminate. }
eexists. split; [exact H|].
destruct (state_restored st1 v b c) as (H1 & H2 & H3 & H4 & _). auto.
Qed.

Lemma restore_string_note_witness :
  exists st',
    restore (setAppendNote (VStr (stringify (VObj sampleNote))) emptyStore)
    = Normal st'
    /\ state st' !! "appendNote"%string = Some (VObj sampleNote).
Proof.
destruct (restore_string_note (VObj sampleNote) (VArr []) (VArr []) emptyStore
            eq_refl eq_refl eq_refl) as (st' & H & _ & Ha & _).
exists st'. split; [exact H|exact Ha].
Defined.

(** X23. A note that is not truthy ([null], [false], the empty string,
    zero) is restored as [null]. *)
Theorem restore_falsy_note (note b c : Value) (st : Store) :
  wellFormed note = true ->
  truthy note = false ->
  parseOr (getString StorageKeys.selectedNotebooks st) (VArr []) = Normal b ->
  parseOr (getString StorageKeys.selectedTag st) (VArr []) = Normal c ->
  exists st',
    restore (setAppendNote note st) = Normal st'
    /\ state st' !! "appendNote"%string = Some VNull.
Proof.
intros Hw Ht Hb Hc.
set (st1 := setAppendNote note st).
assert (H : restore st1
            = Normal (set [("appendNote"%string, VNull);
                           ("selectedNotebooks"%string, b);
                           ("selectedTag"%string, c)] st1)).
{ apply (restore_sets st1 note).
  - now apply first_parse_stringify.
  - now rewrite Ht.
  - subst st1. unfold setAppendNote.
    now rewrite getString_other by discriminate.
  - subst st1. unfold setAppendNote.
    now rewrite getString_other by discriminate. }
eexists. split; [exact H|].
destruct (state_restored st1 VNull b c) as (_ & H2 & _). exact H2.
Qed.

Lemma restore_falsy_note_witness :
  exists st',
    restore (setAppendNote (VBool false) emptyStore) = Normal st'
    /\ state st' !! "appendNote"%string = Some VNull.
Proof.
exact (restore_falsy_note (VBool false) (VArr []) (VArr []) emptyStore
         eq_refl eq_refl eq_refl eq_refl).
Defined.

(** X24. Notebooks saved with [setSelectedNotebooks] come back: where
    [restore] returns, it also returns after [setSelectedNotebooks(v)],
    with [selectedNotebooks] set to [v] and the note and the tags restored
    as before. *)
Theorem restore_after_setSelectedNotebooks (v : Value) (st st1 : Store) :
  wellFormed v = true ->
  restore st = Normal st1 ->
  exists st2,
    restore (setSelectedNotebooks v st) = Normal st2
    /\ state st2 !! "selectedNotebooks"%string = Some v
    /\ state st2 !! "appendNote"%string = state st1 !! "appendNote"%string
    /\ state st2 !! "selectedTag"%string = state st1 !! "selectedTag"%string.
Proof.
intros Hv H.
destruct (restore_normal st st1 H) as (a0 & a & b & c & H0 & Ha & Hb & Hc & ->).
set (st' := setSelectedNotebooks v st).
assert (H' : restore st'
             = Normal (set [("appendNote"%string, a);
                            ("selectedNotebooks"%string, v);
                            ("selectedTag"%string, c)] st')).
{ apply (restore_sets st' a0); subst st'; unfold setSelectedNotebooks.
  - now rewrite getString_other by discriminate.
  - exact Ha.
  - rewrite getString_same. now apply parseOr_stringify.
  - now rewrite getString_other by discriminate. }
eexists. split; [exact H'|].
destruct (state_restored st' a v c) as (_ & E1 & E2 & E3 & _).
destruct (state_restored st a b c) as (_ & F1 & _ & F3 & _).
rewrite E1, E2, E3, F1, F3. auto.
Qed.

Lemma restore_after_setSelectedNotebooks_witness :
  exists st2,
    restore (setSelectedNotebooks (VArr [VStr (lit "n1")])
               (setAppendNote (VStr (lit "null")) emptyStore)) = Normal st2
    /\ state st2 !! "selectedNotebooks"%string = Some (VArr [VStr (lit "n1")]).
Proof.
destruct (restore_after_setSelectedNotebooks (VArr [VStr (lit "n1")])
            (setAppendNote (VStr (lit "null")) emptyStore) _ eq_refl
            (restore_sets (setAppendNote (VStr (lit "null")) emptyStore)
               (VStr (lit "null")) VNull (VArr []) (VArr [])
               eq_refl eq_refl eq_refl eq_refl))
  as (st2 & H2 & Hn & _).
exists st2. split; [exact H2|exact Hn].
Defined.

(** X25. Tags saved with [setSelectedTags] are kept in the state as
    [selectedTags] but restored as [selectedTag]: [restore] never
    changes [selectedTags], nor any other part of the state than
    [appendNote], [selectedNotebooks] and [selectedTag], nor the
    storage. *)
Theorem restore_leaves_selectedTags (v : Value) (st0 st st' : Store) :
  wellFormed v = true ->
  mmkv st = mmkv (setSelectedTags v st0) ->
  restore st = Normal st' ->
  state st' !! "selectedTag"%string = Some v
  /\ state st' !! "selectedTags"%string = state st !! "selectedTags"%string
  /\ mmkv st' = mmkv st
  /\ (forall k : string,
        k <> "appendNote"%string -> k <> "selectedNotebooks"%string ->
        k <> "selectedTag"%string ->
        state st' !! k = state st !! k).
Proof.
intros Hv Hm H.
destruct (restore_normal st st' H) as (a0 & a & b & c & _ & _ & _ & Hc & ->).
assert (E : getString StorageKeys.selectedTag st = Some (stringify v)).
{ unfold getString. rewrite Hm. unfold setSelectedTags, set, setItem.
  cbn [mmkv]. apply lookup_insert_eq. }
rewrite E, parseOr_stringify in Hc by exact Hv. injection Hc as <-.
destruct (state_restored st a b v) as (H1 & _ & _ & H4 & H5).
split; [exact H4|]. split; [now apply H5|]. split; [exact H1|exact H5].
Qed.

Lemma restore_leaves_selectedTags_witness :
  state (set [("appendNote"%string, VNull);
              ("selectedNotebooks"%string, VArr []);
              ("selectedTag"%string, VArr [VStr (lit "t1")])]
           (mkStore (mmkv (setSelectedTags (VArr [VStr (lit "t1")])
                             (setAppendNote (VStr (lit "null")) emptyStore)))
                    ∅ AbsentNull))
    !! "selectedTag"%string = Some (VArr [VStr (lit "t1")])
  /\ state (set [("appendNote"%string, VNull);
                 ("selectedNotebooks"%string, VArr []);
                 ("selectedTag"%string, VArr [VStr (lit "t1")])]
              (mkStore (mmkv (setSelectedTags (VArr [VStr (lit "t1")])
                                (setAppendNote (VStr (lit "null")) emptyStore)))
                       ∅ AbsentNull))
       !! "selectedTags"%string = None.
Proof.
pose (st := mkStore (mmkv (setSelectedTags (VArr [VStr (lit "t1")])
                             (setAppendNote (VStr (lit "null")) emptyStore)))
                    ∅ AbsentNull).
destruct (restore_leaves_selectedTags (VArr [VStr (lit "t1")])
            (setAppendNote (VStr (lit "null")) emptyStore) st
            _ eq_refl eq_refl
            (restore_sets st (VStr (lit "null")) VNull (VArr [])
               (VArr [VStr (lit "t1")]) eq_refl eq_refl eq_refl eq_refl))
  as (H1 & H2 & _).
split; [exact H1|exact H2].
Defined.

(** *** The initial theme *)

Lemma getMember_hasOwn (name : JsString) (members : list (JsString * Value)) :
  hasOwn name members = false -> getMember name members = None.
Proof.
unfold hasOwn. induction members as [|m rest IH]; [reflexivity|].
cbn [existsb getMember]. intros H. apply orb_false_iff in H as [H1 H2].
now rewrite (IH H2), H1.
Qed.

Lemma initialTheme_object (scheme : Scheme) (members : list (JsString * Value))
    (st : Store) :
  wellFormed (VObj members) = true ->
  getString StorageKeys.appSettings st = Some (stringify (VObj members)) ->
  initialTheme scheme st
  = Normal match getMember (if isDark scheme then lit "lightTheme"
                            else lit "darkThem") members with
           | Some v =>
               if truthy v then Stored v
               else if isDark scheme then ThemeDark else ThemeLight
           | None => if isDark scheme then ThemeDark else ThemeLight
           end.
Proof.
intros Hw Hs. unfold initialTheme. rewrite Hs.
destruct (stringify_nonempty _ Hw) as (c & t & E). rewrite E, <- E.
rewrite (JsonFacts.JSON_parse_stringify _ Hw).
destruct (isDark scheme); reflexivity.
Qed.

(** X26. The theme the store starts with, for settings stored as an
    object: outside the dark colour scheme it is read from the member
    [darkThem], so settings without that member give [ThemeLight]
    whatever they hold as [darkTheme] or [lightTheme]; in the dark
    colour scheme it is the member [lightTheme] when that is truthy. *)
Theorem initialTheme_reads (scheme : Scheme)
    (members : list (JsString * Value)) (st : Store) :
  wellFormed (VObj members) = true ->
  getString StorageKeys.appSettings st = Some (stringify (VObj members)) ->
  (isDark scheme = false -> hasOwn (lit "darkThem") members = false ->
   initialTheme scheme st = Normal ThemeLight)
  /\ (forall v, isDark scheme = true ->
        getMember (lit "lightTheme") members = Some v -> truthy v = true ->
        initialTheme scheme st = Normal (Stored v))
  /\ (isDark scheme = true -> hasOwn (lit "lightTheme") members = false ->
      initialTheme scheme st = Normal ThemeDark).
Proof.
intros Hw Hs. rewrite (initialTheme_object scheme members st Hw Hs).
split; [|split].
- intros -> H. now rewrite (getMember_hasOwn _ _ H).
- intros v -> Hv Ht. now rewrite Hv, Ht.
- intros -> H. now rewrite (getMember_hasOwn _ _ H).
Qed.

Lemma initialTheme_reads_witness :
  initialTheme Light
    (setItem StorageKeys.appSettings
       (stringify (VObj [(lit "darkTheme", VStr (lit "night"));
                         (lit "lightTheme", VStr (lit "day"))]))
       emptyStore)
  = Normal ThemeLight
  /\ initialTheme Dark
       (setItem StorageKeys.appSettings
          (stringify (VObj [(lit "darkTheme", VStr (lit "night"));
                            (lit "lightTheme", VStr (lit "day"))]))
          emptyStore)
     = Normal (Stored (VStr (lit "day"))).
Proof.
pose (members := [(lit "darkTheme", VStr (lit "night"));
                  (lit "lightTheme", VStr (lit "day"))]).
pose (st := setItem StorageKeys.appSettings (stringify (VObj members)) emptyStore).
assert (Hs : getString StorageKeys.appSettings st = Some (stringify (VObj members)))
  by apply lookup_insert_eq.
split.
- exact (proj1 (initialTheme_reads Light members st eq_refl Hs) eq_refl eq_refl).
- exact (proj1 (proj2 (initialTheme_reads Dark members st eq_refl Hs))
           (VStr (lit "day")) eq_refl eq_refl eq_refl).
Defined.

End ShareStoreMore.

(* ===================================================================== *)
(** ** The topic chips and the theme pages                               *)
(* ===================================================================== *)

Module ListFacts.
Import Notebook ThemesSelector.

Unset Implicit Arguments.

(** X27. [Notebook] shows a chip for the topics at positions 1, 2 and 3
    of [notebook.topics] and for no other: a click on a chip passes
    [onTopicClick] the position its own topic has in [notebook.topics],
    the first topic never gets a chip, and there are at most three. *)
Theorem topicChips_positions (Topic : Type) (topics : list Topic) :
  (forall topic i,
      In (topic, i) (topicChips topics)
      <-> topics !! i = Some topic /\ 1 <= i <= 3)
  /\ length (topicChips topics) = Nat.min 3 (length topics - 1).
Proof.
split.
- intros topic i. rewrite <- list_elem_of_In. unfold topicChips, slice.
  rewrite elem_of_lookup_imap. split.
  + intros (k & x & [= -> ->] & Hk).
    apply lookup_take_Some in Hk as [Hk Hlt].
    rewrite lookup_drop in Hk. cbn in Hlt.
    replace (k + 1) with (1 + k) by lia. split; [exact Hk|lia].
  + intros [Hi Hr]. exists (i - 1), topic.
    split; [f_equal; lia|].
    apply lookup_take_Some. split; [|cbn; lia].
    rewrite lookup_drop. now replace (1 + (i - 1)) with i by lia.
- unfold topicChips, slice.
  rewrite length_imap, length_take, length_drop. reflexivity.
Qed.

Section WithThemes.

Variables (Theme Id Cursor Param : Type).
Variable id : Theme -> Id.
Variable isThemeCurrentlyApplied : Id -> bool.

Lemma filter_flat_map (A B : Type) (p : B -> bool) (f : A -> list B)
    (l : list A) :
  flat_map (fun a => List.filter p (f a)) l = List.filter p (flat_map f l).
Proof.
induction l as [|a l IH]; [reflexivity|].
cbn [flat_map]. now rewrite List.filter_app, IH.
Qed.

Lemma filter_twice (B : Type) (p : B -> bool) (l : list B) :
  List.filter p (List.filter p l) = List.filter p l.
Proof.
induction l as [|x l IH]; [reflexivity|].
cbn [List.filter]. destruct (p x) eqn:E; [|exact IH].
cbn [List.filter]. now rewrite E, IH.
Qed.

(** X28. What the grid of [ThemesList] shows is the fetched themes, in
    the order fetched, without those currently applied; [select] keeps
    every page with its cursor, also a page all of whose themes are
    applied, keeps the page parameters, and selecting again changes
    nothing. *)
Theorem select_hides_applied (data : Data Theme Cursor Param) :
  gridData (Some (select id isThemeCurrentlyApplied data))
  = List.filter (fun theme => negb (isThemeCurrentlyApplied (id theme)))
                (gridData (Some data))
  /\ map (@nextCursor Theme Cursor) (pages (select id isThemeCurrentlyApplied data))
     = map (@nextCursor Theme Cursor) (pages data)
  /\ pageParams (select id isThemeCurrentlyApplied data) = pageParams data
  /\ select id isThemeCurrentlyApplied (select id isThemeCurrentlyApplied data)
     = select id isThemeCurrentlyApplied data.
Proof.
destruct data as [params ps]. unfold select, gridData. cbn [pages pageParams].
split; [|split; [|split]].
- rewrite <- filter_flat_map, flat_map_concat_map, map_map.
  now rewrite <- flat_map_concat_map.
- rewrite map_map. reflexivity.
- reflexivity.
- f_equal. rewrite map_map. apply map_ext. intros page.
  cbn [nextCursor themes]. now rewrite filter_twice.
Qed.

End WithThemes.

End ListFacts.
